(** * client-pipeline: lead intake, paced outreach, reply forwarding,
      janitor and channel discovery

    A shallow embedding of the orchestration core of the pipeline
    ([pipeline/orchestrator.py], [pipeline/db/repository.py],
    [pipeline/utils/rate_limiter.py], [pipeline/telegram/sender.py],
    [pipeline/telegram/discovery.py], [pipeline/llm/classifier.py]) and
    the properties its specification states about it.

    Conventions.
    - Python [int] is [Z]; [None]-able values are [option].
    - SQLite tables are lists of rows in ascending [id] order; a row id is
      assigned at insertion as one more than the largest id in the table.
    - Wall-clock and monotonic time are exact rationals or integers that the
      environment supplies; every call to a collaborator (LLM, Telegram
      client) is an input of the step that makes it.
    - The loops are cooperative coroutines; a step of one loop is modelled
      without interleaving of the others. *)

From Stdlib Require Import ZArith QArith Lia Lqa String Ascii List Bool Sorted.
From stdpp Require Import base gmap sets list strings pretty.
Import ListNotations.

Local Open Scope string_scope.
Local Open Scope Z_scope.

(** An aware [datetime] or its ISO-8601 text, as microseconds since the
    epoch. *)
Definition instant := Z.

Definition usec_per_hour : Z := 3600000000.
Definition usec_per_day : Z := 86400000000.

(** ** RateLimiter ([utils/rate_limiter.py]) *)

Module RateLimiter.

(** [(later - earlier).days]: [timedelta] normalises towards minus
    infinity, as [Z.div] does. *)
Definition timedelta_days (later earlier : instant) : Z :=
  (later - earlier) / usec_per_day.

Record t := {
  _min_delay : Z;
  _max_delay : Z;
  _warmup : gmap string Z;
  _started_at : instant;
  _last_send : Q
}.

(** [self._warmup.get(key, dflt)] *)
Definition warmup_get (rl : t) (key : string) (dflt : Z) : Z :=
  default dflt (_warmup rl !! key).

Definition weeks_since_start (rl : t) (now : instant) : Z :=
  timedelta_days now (_started_at rl) / 7 + 1.

Definition get_current_daily_limit (rl : t) (now : instant) : Z :=
  let weeks := weeks_since_start rl now in
  if weeks <=? 1 then warmup_get rl "week_1" 2
  else if weeks <=? 2 then warmup_get rl "week_2" 5
  else if weeks <=? 3 then warmup_get rl "week_3" 8
  else warmup_get rl "week_4_plus" 12.

(** The schedule the orchestrator builds from its settings. *)
Definition warmup_schedule (w1 w2 w3 w4 : Z) : gmap string Z :=
  <["week_1" := w1]> (<["week_2" := w2]> (<["week_3" := w3]>
    (<["week_4_plus" := w4]> ∅))).

(** What one call of [wait] meets: the reading of [time.monotonic()] on
    entry, the draw of [random.uniform(min_delay, max_delay)], and the time
    by which the second reading of the clock is late (oversleeping,
    scheduling), zero for an exact sleep. *)
Record wait_env := {
  w_now : Q;
  w_delay : Q;
  w_lag : Q
}.

(** The argument of [asyncio.sleep], or zero when the call does not sleep. *)
Definition sleep_time (rl : t) (e : wait_env) : Q :=
  let elapsed := (w_now e - _last_send rl)%Q in
  let remaining := (w_delay e - elapsed)%Q in
  if Qlt_le_dec 0 remaining then remaining else 0%Q.

Definition wait (rl : t) (e : wait_env) : t :=
  {| _min_delay := _min_delay rl;
     _max_delay := _max_delay rl;
     _warmup := _warmup rl;
     _started_at := _started_at rl;
     _last_send := (w_now e + sleep_time rl e + w_lag e)%Q |}.

(** The draw lies in the window, the clock does not run backwards. *)
Definition wait_env_ok (rl : t) (e : wait_env) : Prop :=
  (inject_Z (_min_delay rl) <= w_delay e)%Q ∧
  (w_delay e <= inject_Z (_max_delay rl))%Q ∧
  (_last_send rl <= w_now e)%Q ∧
  (0 <= w_lag e)%Q.

(** Time from the completion of the previous call to the completion of
    this one. *)
Definition interval (rl : t) (e : wait_env) : Q :=
  (_last_send (wait rl e) - _last_send rl)%Q.

(** [N] consecutive calls, each on the limiter the previous one left. *)
Fixpoint intervals (rl : t) (es : list wait_env) : list Q :=
  match es with
  | [] => []
  | e :: es' => interval rl e :: intervals (wait rl e) es'
  end.

Fixpoint wait_envs_ok (rl : t) (es : list wait_env) : Prop :=
  match es with
  | [] => True
  | e :: es' => wait_env_ok rl e ∧ wait_envs_ok (wait rl e) es'
  end.

(** The caller came back within [max_delay] of the previous completion
    and the clock is read right when the sleep ends. *)
Definition wait_env_prompt (rl : t) (e : wait_env) : Prop :=
  (w_now e - _last_send rl <= inject_Z (_max_delay rl))%Q ∧
  (w_lag e == 0)%Q.

Fixpoint wait_envs_prompt (rl : t) (es : list wait_env) : Prop :=
  match es with
  | [] => True
  | e :: es' => wait_env_prompt rl e ∧ wait_envs_prompt (wait rl e) es'
  end.

Definition limiter_120_600 : t :=
  {| _min_delay := 120; _max_delay := 600;
     _warmup := warmup_schedule 2 5 8 12;
     _started_at := 0; _last_send := 1000 |}.

Definition two_prompt_calls : list wait_env :=
  [ {| w_now := 1000; w_delay := 300; w_lag := 0 |};
    {| w_now := 1350; w_delay := 450.5; w_lag := 0 |} ].

End RateLimiter.

(** ** Values decoded by [json.loads] *)

Module Json.

#[local] Unset Elimination Schemes.
Inductive value :=
  | JNull
  | JBool (b : bool)
  | JNum (q : Q)
  | JStr (s : string)
  | JArr (items : list value)
  | JObj (members : list (string * value)).
#[local] Set Elimination Schemes.

(** A decoded object is a [dict]: of two members with one key the later
    one stays. *)
Fixpoint dict_get (d : list (string * value)) (key : string) : option value :=
  match d with
  | [] => None
  | (k, v) :: d' =>
      match dict_get d' key with
      | Some v' => Some v'
      | None => if String.eqb k key then Some v else None
      end
  end.

(** Python truth value: [bool(v)]. *)
Definition truthy (v : value) : bool :=
  match v with
  | JNull => false
  | JBool b => b
  | JNum q => negb (Qeq_bool q 0)
  | JStr s => negb (String.eqb s "")
  | JArr items => match items with [] => false | _ => true end
  | JObj members => match members with [] => false | _ => true end
  end.

(** [d.get(key)], [None] when the key is absent; then its truth value. *)
Definition get_truthy (d : list (string * value)) (key : string) : bool :=
  match dict_get d key with
  | Some v => truthy v
  | None => false
  end.

(** The number a value compares as in [v < x] with [x] a float: [int],
    [float] and [bool]; for every other type the comparison raises
    [TypeError]. *)
Definition as_number (v : value) : option Q :=
  match v with
  | JNum q => Some q
  | JBool b => Some (if b then 1%Q else 0%Q)
  | _ => None
  end.

(** [d.get(key)] as Python sees it: [None] for an absent key and for
    [null]. *)
Definition get_opt (d : list (string * value)) (key : string) : option value :=
  match dict_get d key with
  | Some JNull | None => None
  | Some v => Some v
  end.

(** [v or dflt] for a text field. *)
Definition or_else (v : option value) (dflt : string) : value :=
  match v with
  | Some x => if truthy x then x else JStr dflt
  | None => JStr dflt
  end.

(** The [sqlite3] driver binds [None], numbers and strings as parameters
    and raises on lists and dicts. *)
Definition bindable (v : option value) : bool :=
  match v with
  | Some (JArr _) | Some (JObj _) => false
  | _ => true
  end.

End Json.

(** ** Rows ([db/models.py]) *)

Module Channel.
Record t := mk {
  id : option Z;
  telegram_id : option Z;
  username : option string;
  title : option string;
  is_active : bool;
  discovered_from : option string;
  discovered_at : option instant
}.


Definition set_id (i : option Z) (c : t) : t :=
  mk i (telegram_id c) (username c) (title c) (is_active c)
     (discovered_from c) (discovered_at c).
End Channel.

Module Message.
Record t := mk {
  id : option Z;
  telegram_msg_id : Z;
  channel_id : Z;
  sender_id : option Z;
  sender_username : option string;
  text : option string;
  date : option string;
  text_hash : option string
}.

Definition set_id (i : option Z) (m : t) : t :=
  mk i (telegram_msg_id m) (channel_id m) (sender_id m) (sender_username m)
     (text m) (date m) (text_hash m).
End Message.

(** The five classification columns hold what the classifier's JSON
    gave; the annotation [str | None] is not checked at run time. *)
Module Lead.
Record t := mk {
  id : option Z;
  message_id : Z;
  status : string;
  relevance_score : option Q;
  budget : option Json.value;
  stack : option Json.value;
  deadline : option Json.value;
  language : option Json.value;
  summary : option Json.value;
  outreach_text : option string;
  dm_text : option string;
  outreach_msg_id : option Z;
  dm_msg_id : option Z;
  contacted_at : option instant;
  replied_at : option instant;
  forwarded_at : option instant
}.

Definition set_id (i : option Z) (l : t) : t :=
  mk i (message_id l) (status l) (relevance_score l) (budget l) (stack l)
     (deadline l) (language l) (summary l) (outreach_text l) (dm_text l)
     (outreach_msg_id l) (dm_msg_id l) (contacted_at l) (replied_at l)
     (forwarded_at l).

Definition set_status (s : string) (l : t) : t :=
  mk (id l) (message_id l) s (relevance_score l) (budget l) (stack l)
     (deadline l) (language l) (summary l) (outreach_text l) (dm_text l)
     (outreach_msg_id l) (dm_msg_id l) (contacted_at l) (replied_at l)
     (forwarded_at l).

Definition set_forwarded_at (i : option instant) (l : t) : t :=
  mk (id l) (message_id l) (status l) (relevance_score l) (budget l)
     (stack l) (deadline l) (language l) (summary l) (outreach_text l)
     (dm_text l) (outreach_msg_id l) (dm_msg_id l) (contacted_at l)
     (replied_at l) i.

Definition set_replied_at (i : option instant) (l : t) : t :=
  mk (id l) (message_id l) (status l) (relevance_score l) (budget l)
     (stack l) (deadline l) (language l) (summary l) (outreach_text l)
     (dm_text l) (outreach_msg_id l) (dm_msg_id l) (contacted_at l) i
     (forwarded_at l).

(** The five assignments of [_send_outreach] before [status]. *)
Definition set_outreach (thread_text dm : option string)
    (thread_id dm_id : option Z) (at_ : option instant) (l : t) : t :=
  mk (id l) (message_id l) (status l) (relevance_score l) (budget l)
     (stack l) (deadline l) (language l) (summary l) thread_text dm
     thread_id dm_id at_ (replied_at l) (forwarded_at l).

(** [Lead(message_id=..., status=..., ...)]: the other fields default. *)
Definition new (message_id : Z) (status : string) (score : option Q)
    (budget stack deadline language summary : option Json.value) : t :=
  mk None message_id status score budget stack deadline language summary
     None None None None None None None.
End Lead.

Module Reply.
Record t := mk {
  id : option Z;
  lead_id : Z;
  telegram_msg_id : option Z;
  sender_id : option Z;
  text : option string;
  sentiment : option string;
  received_at : option instant
}.
End Reply.

Module DailyBudget.
Record t := mk {
  date : Z;
  sends_used : Z;
  max_sends : Z
}.
End DailyBudget.

(** ** SHA-256 ([hashlib.sha256]) *)

Module Sha256.

Definition mask32 : Z := 0xffffffff.
Definition add32 (x y : Z) : Z := Z.land (x + y) mask32.
Definition rotr (n x : Z) : Z :=
  Z.lor (Z.shiftr x n) (Z.land (Z.shiftl x (32 - n)) mask32).
Definition not32 (x : Z) : Z := Z.lxor x mask32.

Definition Ch (x y z : Z) : Z := Z.lxor (Z.land x y) (Z.land (not32 x) z).
Definition Maj (x y z : Z) : Z :=
  Z.lxor (Z.lxor (Z.land x y) (Z.land x z)) (Z.land y z).
Definition bsig0 (x : Z) : Z :=
  Z.lxor (Z.lxor (rotr 2 x) (rotr 13 x)) (rotr 22 x).
Definition bsig1 (x : Z) : Z :=
  Z.lxor (Z.lxor (rotr 6 x) (rotr 11 x)) (rotr 25 x).
Definition ssig0 (x : Z) : Z :=
  Z.lxor (Z.lxor (rotr 7 x) (rotr 18 x)) (Z.shiftr x 3).
Definition ssig1 (x : Z) : Z :=
  Z.lxor (Z.lxor (rotr 17 x) (rotr 19 x)) (Z.shiftr x 10).

(** The round constants are the first 32 bits of the fractional parts of
    the cube roots of the first 64 primes, the initial hash value those of
    the square roots of the first 8. *)

Definition is_prime (n : Z) : bool :=
  (1 <? n)
  && forallb (fun d => negb (n mod d =? 0))
       (List.map Z.of_nat (seq 2 (Z.to_nat n - 2))).

Definition primes : list Z :=
  List.filter is_prime (List.map Z.of_nat (seq 2 310)).

(** The largest [r] with [r ^ n <= x], found bit by bit from [bits] down. *)
Fixpoint iroot (n : Z) (bits : nat) (x r : Z) : Z :=
  match bits with
  | O => r
  | S bits' =>
      let r' := r + 2 ^ Z.of_nat bits' in
      if r' ^ n <=? x then iroot n bits' x r' else iroot n bits' x r
  end.

Definition frac_root (n p : Z) : Z :=
  Z.land (iroot n 36 (p * 2 ^ (32 * n)) 0) mask32.

Definition K : list Z := Eval vm_compute in List.map (frac_root 3) primes.

Definition H0 : list Z :=
  Eval vm_compute in List.map (frac_root 2) (firstn 8 primes).

Definition bytes_of_string (s : string) : list Z :=
  List.map (fun c => Z.of_N (N_of_ascii c)) (list_ascii_of_string s).

(** The [n] big-endian bytes of [x]. *)
Fixpoint be_bytes (n : nat) (x : Z) : list Z :=
  match n with
  | O => []
  | S n' => Z.land (Z.shiftr x (8 * Z.of_nat n')) 0xff :: be_bytes n' x
  end.

Definition pad (msg : list Z) : list Z :=
  let len := Z.of_nat (List.length msg) in
  let zeros := Z.to_nat ((55 - len) mod 64) in
  msg ++ [0x80] ++ repeat 0 zeros ++ be_bytes 8 (8 * len).

Fixpoint words_of_bytes (bs : list Z) : list Z :=
  match bs with
  | a :: b :: c :: d :: rest =>
      Z.lor (Z.lor (Z.shiftl a 24) (Z.shiftl b 16)) (Z.lor (Z.shiftl c 8) d)
        :: words_of_bytes rest
  | _ => []
  end.

(** The message schedule, latest word first. *)
Fixpoint schedule (n : nat) (w : list Z) : list Z :=
  match n with
  | O => w
  | S n' =>
      let x := add32 (add32 (ssig1 (nth 1 w 0)) (nth 6 w 0))
                     (add32 (ssig0 (nth 14 w 0)) (nth 15 w 0)) in
      schedule n' (x :: w)
  end.

Definition round (st : list Z) (kw : Z * Z) : list Z :=
  match st with
  | [a; b; c; d; e; f; g; h] =>
      let t1 := add32 (add32 (add32 h (bsig1 e)) (add32 (Ch e f g) (fst kw)))
                      (snd kw) in
      let t2 := add32 (bsig0 a) (Maj a b c) in
      [add32 t1 t2; a; b; c; add32 d t1; e; f; g]
  | _ => st
  end.

Definition compress (h : list Z) (block : list Z) : list Z :=
  let w := rev (schedule 48 (rev block)) in
  let st := fold_left round (combine K w) h in
  List.map (fun p => add32 (fst p) (snd p)) (combine h st).

Fixpoint blocks (fuel : nat) (ws : list Z) : list (list Z) :=
  match fuel with
  | O => []
  | S fuel' =>
      match ws with
      | [] => []
      | _ => firstn 16 ws :: blocks fuel' (skipn 16 ws)
      end
  end.

Definition digest_words (msg : list Z) : list Z :=
  let ws := words_of_bytes (pad msg) in
  fold_left compress (blocks (List.length ws) ws) H0.

Definition hex_digit (x : Z) : ascii :=
  nth (Z.to_nat x) (list_ascii_of_string "0123456789abcdef") "0"%char.

Definition hex_of_byte (b : Z) : list ascii :=
  [hex_digit (Z.shiftr b 4); hex_digit (Z.land b 0xf)].

Definition hexdigest (s : string) : string :=
  string_of_list_ascii
    (flat_map hex_of_byte
       (flat_map (be_bytes 4) (digest_words (bytes_of_string s)))).

End Sha256.

(** ** Text normalisation ([Orchestrator._compute_text_hash])

    Texts are ASCII strings: a character is a code point below 128, and
    [encode()] is the identity on them. *)

Module Text.

(** [str.isspace] and the class [\s] on ASCII: tab to carriage return,
    the four separators [\x1c]-[\x1f], and space. *)
Definition isspace (c : ascii) : bool :=
  let n := N_of_ascii c in
  (((9 <=? n) && (n <=? 13)) || ((28 <=? n) && (n <=? 32)))%N.

Definition lower_char (c : ascii) : ascii :=
  let n := N_of_ascii c in
  if ((65 <=? n) && (n <=? 90))%N then ascii_of_N (n + 32) else c.

Fixpoint lstrip (l : list ascii) : list ascii :=
  match l with
  | [] => []
  | c :: l' => if isspace c then lstrip l' else l
  end.

Definition rstrip (l : list ascii) : list ascii := rev (lstrip (rev l)).

(** [text.strip()] *)
Definition strip (l : list ascii) : list ascii := rstrip (lstrip l).

(** [text.lower()] *)
Definition lower (l : list ascii) : list ascii := List.map lower_char l.

(** [re.sub(r"\s+", " ", text)]: [in_run] tells that the previous
    character was a space of a run already replaced. *)
Fixpoint sub_spaces (in_run : bool) (l : list ascii) : list ascii :=
  match l with
  | [] => []
  | c :: l' =>
      if isspace c
      then if in_run then sub_spaces true l' else " "%char :: sub_spaces true l'
      else c :: sub_spaces false l'
  end.

Definition normalize (text : string) : string :=
  string_of_list_ascii
    (sub_spaces false (lower (strip (list_ascii_of_string text)))).

Definition _compute_text_hash (text : string) : string :=
  Sha256.hexdigest (normalize text).


End Text.

(** ** Repository ([db/repository.py]) *)

Module Repository.

(** One row of [daily_budget]; the table is keyed by its [date] column
    (the conflict target of [get_daily_budget]). *)
Record budget_row := {
  row_sends_used : Z;
  row_max_sends : Z
}.

Record t := mk {
  channels : list Channel.t;
  messages : list Message.t;
  leads : list Lead.t;
  replies : list Reply.t;
  daily_budget : gmap Z budget_row
}.

Definition set_channels (x : list Channel.t) (db : t) : t :=
  mk x (messages db) (leads db) (replies db) (daily_budget db).
Definition set_messages (x : list Message.t) (db : t) : t :=
  mk (channels db) x (leads db) (replies db) (daily_budget db).
Definition set_leads (x : list Lead.t) (db : t) : t :=
  mk (channels db) (messages db) x (replies db) (daily_budget db).
Definition set_replies (x : list Reply.t) (db : t) : t :=
  mk (channels db) (messages db) (leads db) x (daily_budget db).
Definition set_daily_budget (x : gmap Z budget_row) (db : t) : t :=
  mk (channels db) (messages db) (leads db) (replies db) x.

(** The rowid SQLite gives the next inserted row. *)
Definition next_id {A} (key : A → option Z) (rows : list A) : Z :=
  1 + fold_right Z.max 0 (List.map (fun r => default 0 (key r)) rows).

(** *** channels *)

Definition get_active_channels (db : t) : list Channel.t :=
  List.filter Channel.is_active (channels db).

Definition get_channel_by_telegram_id (db : t) (telegram_id : Z)
    : option Channel.t :=
  List.find (fun c => bool_decide (Channel.telegram_id c = Some telegram_id))
            (channels db).

(** [SELECT * FROM channels WHERE id=?], as the orchestrator runs it. *)
Definition channel_row (db : t) (channel_id : Z) : option Channel.t :=
  List.find (fun c => bool_decide (Channel.id c = Some channel_id))
            (channels db).


(** [INSERT ... ON CONFLICT(telegram_id) DO UPDATE], then the id of the
    row with that [telegram_id]; [None] where [fetchone] finds no row (a
    NULL [telegram_id] equals nothing) and the subscript raises. *)
Definition upsert_channel (db : t) (ch : Channel.t) : t * option Z :=
  match Channel.telegram_id ch with
  | None =>
      let row := Channel.set_id (Some (next_id Channel.id (channels db))) ch in
      (set_channels (channels db ++ [row]) db, None)
  | Some tid =>
      match get_channel_by_telegram_id db tid with
      | Some old =>
          let upd (c : Channel.t) :=
            if bool_decide (Channel.telegram_id c = Some tid)
            then Channel.mk (Channel.id c) (Channel.telegram_id c)
                   (Channel.username ch) (Channel.title ch)
                   (Channel.is_active ch)
                   (Channel.discovered_from c) (Channel.discovered_at c)
            else c in
          (set_channels (List.map upd (channels db)) db, Channel.id old)
      | None =>
          let i := next_id Channel.id (channels db) in
          (set_channels (channels db ++ [Channel.set_id (Some i) ch]) db,
           Some i)
      end
  end.





(** *** messages *)

(** Modelled from the spec: [schema.sql] is not among the sources; the
    spec gives the constraint it declares on [messages]: the pair
    (channel, platform message id) is unique. *)
Definition message_conflicts (db : t) (msg : Message.t) : bool :=
  existsb (fun m =>
    bool_decide (Message.channel_id m = Message.channel_id msg)
    && bool_decide (Message.telegram_msg_id m = Message.telegram_msg_id msg))
    (messages db).

(** The id of the new row, [None] on [IntegrityError]. *)
Definition insert_message (db : t) (msg : Message.t) : t * option Z :=
  if message_conflicts db msg then (db, None)
  else
    let i := next_id Message.id (messages db) in
    (set_messages (messages db ++ [Message.set_id (Some i) msg]) db, Some i).

Definition has_lead_with_text_hash (db : t) (text_hash : string) : bool :=
  existsb (fun l =>
    existsb (fun m =>
      bool_decide (Some (Lead.message_id l) = Message.id m)
      && bool_decide (Message.text_hash m = Some text_hash))
      (messages db))
    (leads db).

Definition get_message (db : t) (message_id : Z) : option Message.t :=
  List.find (fun m => bool_decide (Message.id m = Some message_id))
            (messages db).

(** *** leads *)

Definition binds (lead : Lead.t) : bool :=
  Json.bindable (Lead.budget lead) && Json.bindable (Lead.stack lead)
  && Json.bindable (Lead.deadline lead) && Json.bindable (Lead.language lead)
  && Json.bindable (Lead.summary lead).

(** [None] where the driver refuses to bind a parameter. *)
Definition insert_lead (db : t) (lead : Lead.t) : option (t * Z) :=
  if binds lead then
    let i := next_id Lead.id (leads db) in
    Some (set_leads (leads db ++ [Lead.set_id (Some i) lead]) db, i)
  else None.

Definition get_leads_by_status (db : t) (status : string) : list Lead.t :=
  List.filter (fun l => String.eqb (Lead.status l) status) (leads db).

Definition get_lead (db : t) (lead_id : Z) : option Lead.t :=
  List.find (fun l => bool_decide (Lead.id l = Some lead_id)) (leads db).

(** [UPDATE leads SET ... WHERE id=?]: every column but [id] and
    [message_id] is written. *)
Definition update_row (lead row : Lead.t) : Lead.t :=
  Lead.mk (Lead.id row) (Lead.message_id row) (Lead.status lead)
    (Lead.relevance_score lead) (Lead.budget lead) (Lead.stack lead)
    (Lead.deadline lead) (Lead.language lead) (Lead.summary lead)
    (Lead.outreach_text lead) (Lead.dm_text lead)
    (Lead.outreach_msg_id lead) (Lead.dm_msg_id lead)
    (Lead.contacted_at lead) (Lead.replied_at lead) (Lead.forwarded_at lead).

Definition update_lead (db : t) (lead : Lead.t) : t :=
  set_leads
    (List.map (fun row =>
       if bool_decide (Lead.id row = Lead.id lead ∧ is_Some (Lead.id lead))
       then update_row lead row else row) (leads db))
    db.


(** [SELECT status, COUNT( * ) FROM leads GROUP BY status], as the [dict]
    built from its rows: a status without leads has no entry. *)
Definition get_daily_stats (db : t) : gmap string Z :=
  fold_right
    (fun l stats =>
       <[Lead.status l := 1 + default 0 (stats !! Lead.status l)]> stats)
    ∅ (leads db).

(** *** replies *)

Definition insert_reply (db : t) (reply : Reply.t) : t * Z :=
  let i := next_id Reply.id (replies db) in
  let row := Reply.mk (Some i) (Reply.lead_id reply)
               (Reply.telegram_msg_id reply) (Reply.sender_id reply)
               (Reply.text reply) (Reply.sentiment reply)
               (Reply.received_at reply) in
  (set_replies (replies db ++ [row]) db, i).

Definition get_replies_for_lead (db : t) (lead_id : option Z)
    : list Reply.t :=
  List.filter (fun r => bool_decide (Some (Reply.lead_id r) = lead_id))
              (replies db).

(** *** daily_budget *)

(** [today] is [date.today()], as a day number. *)
Definition get_daily_budget (db : t) (today : Z) (max_sends : Z)
    : t * DailyBudget.t :=
  match daily_budget db !! today with
  | Some row =>
      (db, DailyBudget.mk today (row_sends_used row) (row_max_sends row))
  | None =>
      (set_daily_budget
         (<[today := {| row_sends_used := 0; row_max_sends := max_sends |}]>
            (daily_budget db)) db,
       DailyBudget.mk today 0 max_sends)
  end.

Definition increment_daily_sends (db : t) (today : Z) : t :=
  match daily_budget db !! today with
  | Some row =>
      set_daily_budget
        (<[today := {| row_sends_used := row_sends_used row + 1;
                       row_max_sends := row_max_sends row |}]>
           (daily_budget db)) db
  | None => db
  end.

(** *** Integrity *)





(** Primary keys: every row has an id and no two rows share one. *)
Definition keyed {A} (key : A → option Z) (rows : list A) : Prop :=
  NoDup (List.map key rows) ∧ ∀ r, In r rows → is_Some (key r).



End Repository.

(** ** Settings ([config.py]), the fields the core reads *)

Module Settings.
Record t := mk {
  rate_min_delay : Z;
  rate_max_delay : Z;
  rate_warmup_week_1 : Z;
  rate_warmup_week_2 : Z;
  rate_warmup_week_3 : Z;
  rate_warmup_week_4_plus : Z;
  classification_min_relevance : Q;
  response_no_reply_ttl_hours : Z;
  discovery_search_keywords : list string;
  discovery_max_channels : Z;
  discovery_backfill_on_discover : Z;
  discovery_scan_forwards : bool;
  discovery_scan_descriptions : bool
}.

(** The defaults of the class. *)
Definition defaults : t :=
  mk 120 600 2 5 8 12 (6 # 10) 72 [] 100 50 true true.
End Settings.

(** ** The classifier ([llm/openrouter.py], [llm/classifier.py]) *)

(** A call either returns or raises. *)
Inductive result (A : Type) :=
  | Return (a : A)
  | Raise.
Arguments Return {A} a.
Arguments Raise {A}.

Module Llm.

(** What one call of [chat_json] does: the transport raises, the text is
    not JSON ([None]), or it decodes. *)
Inductive chat_json :=
  | Transport_error
  | Invalid_json
  | Decoded (v : Json.value).

(** [classify_message]: [None] for no answer and for an answer whose
    [is_order] is falsy; an answer that is not an object has no [get]. *)
Definition classify_message (answer : chat_json)
    : result (option (list (string * Json.value))) :=
  match answer with
  | Transport_error => Raise
  | Invalid_json => Return None
  | Decoded Json.JNull => Return None
  | Decoded (Json.JObj d) =>
      if Json.get_truthy d "is_order" then Return (Some d) else Return None
  | Decoded _ => Raise
  end.

End Llm.

(** ** Collector ([telegram/collector.py]) *)

Module IncomingMessage.
Record t := mk {
  telegram_msg_id : Z;
  chat_id : Z;
  sender_id : option Z;
  sender_username : option string;
  text : string;
  date : string
}.
End IncomingMessage.

Module Collector.
Record t := mk {
  _monitored_chats : gset Z;
  _queue : list IncomingMessage.t
}.

Definition add_chat (c : t) (chat_id : Z) : t :=
  if bool_decide (chat_id ∈ _monitored_chats c) then c
  else mk ({[chat_id]} ∪ _monitored_chats c) (_queue c).


(** [backfill]: the messages with text that [iter_messages] yields are
    queued; whether the iteration then ends or raises, what was queued
    stays (the caller in discovery only logs the error). *)
Definition backfill (c : t) (fetched : list IncomingMessage.t) : t :=
  mk (_monitored_chats c) (_queue c ++ fetched).
End Collector.

(** ** Notifier ([bot/notifier.py]): the texts sent, as their arguments *)

Module Notifier.
Inductive notification :=
  | Positive_reply (lead_summary : Json.value) (reply_text : string)
      (sender_username : option string) (channel_title : option string)
  | Peer_flood.

Definition t := list notification.

Definition notify_positive_reply (n : t) (lead_summary : Json.value)
    (reply_text : string) (sender_username : option string)
    (channel_title : option string) : t :=
  (n ++ [Positive_reply lead_summary reply_text sender_username
          channel_title])%list.

Definition notify_peer_flood (n : t) : t := (n ++ [Peer_flood])%list.
End Notifier.

(** ** Sender ([telegram/sender.py], [utils/retry.py]) *)

Module Sender.

(** What one [client.send_message] does. [Refused] is the error the
    method catches: [ChatWriteForbiddenError] for a thread reply,
    [UserPrivacyRestrictedError] for a private message. *)
Inductive attempt :=
  | Delivered (msg_id : Z)
  | Refused
  | Flood_wait (seconds : Z)
  | Peer_flood_error
  | Other_error.

Inductive raised :=
  | PeerFloodError
  | OtherError.

(** [retry_on_flood(max_retries)] around a send: [call k] is what the
    attempt numbered [k] does; [left] attempts remain. *)
Fixpoint retry_on_flood (left : nat) (k : nat) (call : nat → attempt)
    : option Z + raised :=
  match left with
  | O => inl None
  | S left' =>
      match call k with
      | Delivered i => inl (Some i)
      | Refused => inl None
      | Flood_wait _ =>
          match left' with
          | O => inr OtherError
          | S _ => retry_on_flood left' (S k) call
          end
      | Peer_flood_error => inr PeerFloodError
      | Other_error => inr OtherError
      end
  end.

Definition send_thread_reply (call : nat → attempt) : option Z + raised :=
  retry_on_flood 3 1 call.

Definition send_dm (call : nat → attempt) : option Z + raised :=
  retry_on_flood 3 1 call.

Record SendResult := {
  thread_msg_id : option Z;
  dm_msg_id : option Z;
  peer_flood : bool
}.

(** [if user_id and dm_text] *)
Definition wants_dm (user_id : option Z) (dm_text : string) : bool :=
  match user_id with
  | Some u => negb (u =? 0) && negb (String.eqb dm_text "")
  | None => false
  end.

Definition send_outreach (user_id : option Z) (dm_text : string)
    (thread_call dm_call : nat → attempt) : result SendResult :=
  match send_thread_reply thread_call with
  | inr PeerFloodError => Return (Build_SendResult None None true)
  | inr OtherError => Raise
  | inl thread_id =>
      if wants_dm user_id dm_text then
        match send_dm dm_call with
        | inr PeerFloodError => Return (Build_SendResult None None true)
        | inr OtherError => Raise
        | inl dm_id => Return (Build_SendResult thread_id dm_id false)
        end
      else Return (Build_SendResult thread_id None false)
  end.

End Sender.

(** ** Responder ([telegram/responder.py], [llm/sentiment.py]) *)

Module Responder.

(** [sentiment = "unclear"; if result: sentiment = result.get("sentiment",
    "unclear")] on what [analyze_sentiment] returns. The call raises where
    the transport does, and where the answer is truthy and not an object. *)
Definition sentiment_of (answer : Llm.chat_json) : result Json.value :=
  match answer with
  | Llm.Transport_error => Raise
  | Llm.Invalid_json => Return (Json.JStr "unclear")
  | Llm.Decoded v =>
      if Json.truthy v then
        match v with
        | Json.JObj d =>
            Return (default (Json.JStr "unclear") (Json.dict_get d "sentiment"))
        | _ => Raise
        end
      else Return (Json.JStr "unclear")
  end.

(** The [sentiment] column for a value bound to it: a string or NULL as
    it is, while the driver refuses a list or a dict. A number or a boolean
    is stored as such; the pipeline reads a sentiment only to compare it
    with a tag, which such a value never equals, and the model keeps [None]
    for it. *)
Definition sentiment_column (v : Json.value) : option (option string) :=
  match v with
  | Json.JStr x => Some (Some x)
  | Json.JArr _ | Json.JObj _ => None
  | _ => Some None
  end.

(** What one call of [_process_reply] meets: the answer of the sentiment
    analysis and the two readings of the clock. *)
Record reply_env := {
  rp_answer : Llm.chat_json;
  rp_received : instant;
  rp_replied : instant
}.

(** The database after the call and the lead object as the call leaves
    it, or [Raise] with nothing written.

    Modelled from the spec: [schema.sql] is not among the sources; the
    spec ties a reply to exactly one lead, so a reply for a lead object
    without an id is refused. *)
Definition _process_reply (db : Repository.t) (lead : Lead.t)
    (text : option string) (msg_id : Z) (sender_id : option Z)
    (e : reply_env) : Repository.t * result Lead.t :=
  match sentiment_of (rp_answer e) with
  | Raise => (db, Raise)
  | Return v =>
      match sentiment_column v, Lead.id lead with
      | Some sentiment, Some lead_id =>
          let reply :=
            Reply.mk None lead_id (Some msg_id) sender_id text sentiment
              (Some (rp_received e)) in
          let db1 := fst (Repository.insert_reply db reply) in
          let lead' :=
            Lead.set_replied_at (Some (rp_replied e))
              (Lead.set_status "replied" lead) in
          (Repository.update_lead db1 lead', Return lead')
      | _, _ => (db, Raise)
      end
  end.

(** A message of a thread, and what processing it would meet. *)
Record thread_message := {
  tm_id : Z;
  tm_text : option string;
  tm_sender_id : option Z;
  tm_env : reply_env
}.

(** [not msg.text] *)
Definition no_text (x : option string) : bool :=
  match x with
  | Some v => String.eqb v ""
  | None => true
  end.

(** [any(r.telegram_msg_id == msg.id for r in existing)] *)
Definition already_recorded (db : Repository.t) (lead : Lead.t) (msg_id : Z)
    : bool :=
  existsb (fun r => bool_decide (Reply.telegram_msg_id r = Some msg_id))
    (Repository.get_replies_for_lead db (Lead.id lead)).

(** The body of [async for msg in ...] over the messages the iteration
    yields, on the one lead object of the turn; an exception of
    [_process_reply] leaves the loop. *)
Fixpoint poll_thread (our_user_id : option Z) (db : Repository.t)
    (lead : Lead.t) (msgs : list thread_message) : Repository.t :=
  match msgs with
  | [] => db
  | msg :: rest =>
      if no_text (tm_text msg)
         || bool_decide (tm_sender_id msg = our_user_id)
      then poll_thread our_user_id db lead rest
      else if already_recorded db lead (tm_id msg)
      then poll_thread our_user_id db lead rest
      else
        match _process_reply db lead (tm_text msg) (tm_id msg)
                (tm_sender_id msg) (tm_env msg) with
        | (db', Return lead') => poll_thread our_user_id db' lead' rest
        | (db', Raise) => db'
        end
  end.

(** One turn of [for lead in leads]. [thread] holds the replies to the
    outreach message that the iteration yields before it ends or raises,
    newest first; the request asks for ten. *)
Definition poll_lead (our_user_id : option Z) (db : Repository.t)
    (lead : Lead.t) (thread : list thread_message) : Repository.t :=
  match Lead.outreach_msg_id lead with
  | None => db
  | Some outreach_msg_id =>
      if outreach_msg_id =? 0 then db
      else
        match Repository.get_message db (Lead.message_id lead) with
        | None => db
        | Some original =>
            match Repository.channel_row db (Message.channel_id original) with
            | None => db
            | Some row => poll_thread our_user_id db lead (firstn 10 thread)
            end
        end
  end.

(** [threads i] is the thread under the outreach message of the lead with
    id [i]. *)
Definition poll_thread_replies (our_user_id : option Z) (db : Repository.t)
    (threads : option Z → list thread_message) : Repository.t :=
  fold_left
    (fun db lead => poll_lead our_user_id db lead (threads (Lead.id lead)))
    (Repository.get_leads_by_status db "contacted") db.

(** The handler [register_dm_listener] installs, on a private message:
    the first contacted lead whose original message the sender wrote takes
    the reply. The callback given to [register_dm_listener] is not
    called. *)
Definition on_private_message (our_user_id : option Z) (db : Repository.t)
    (sender_id : option Z) (text : option string) (msg_id : Z)
    (e : reply_env) : Repository.t * result unit :=
  if bool_decide (sender_id = our_user_id) then (db, Return ())
  else
    match
      List.find (fun lead =>
        match Repository.get_message db (Lead.message_id lead) with
        | Some original => bool_decide (Message.sender_id original = sender_id)
        | None => false
        end) (Repository.get_leads_by_status db "contacted")
    with
    | Some lead =>
        match _process_reply db lead text msg_id sender_id e with
        | (db', Return _) => (db', Return ())
        | (db', Raise) => (db', Raise)
        end
    | None => (db, Return ())
    end.

(** No lead has the same platform message recorded twice. *)
Definition replies_distinct (db : Repository.t) : Prop :=
  NoDup (List.map (fun r => (Reply.lead_id r, Reply.telegram_msg_id r))
           (Repository.replies db)).






End Responder.

(** ** Orchestrator ([orchestrator.py]) *)

Module Orchestrator.

Record t := mk {
  _repo : Repository.t;
  _collector : Collector.t;
  _notifier : Notifier.t;
  _rate_limiter : RateLimiter.t;
  _outreach_paused_until : option instant
}.

Definition set_repo (x : Repository.t) (o : t) : t :=
  mk x (_collector o) (_notifier o) (_rate_limiter o)
     (_outreach_paused_until o).
Definition set_notifier (x : Notifier.t) (o : t) : t :=
  mk (_repo o) (_collector o) x (_rate_limiter o) (_outreach_paused_until o).
Definition set_rate_limiter (x : RateLimiter.t) (o : t) : t :=
  mk (_repo o) (_collector o) (_notifier o) x (_outreach_paused_until o).
Definition set_paused_until (x : option instant) (o : t) : t :=
  mk (_repo o) (_collector o) (_notifier o) (_rate_limiter o) x.

(** The limiter [__init__] builds. *)
Definition make_rate_limiter (s : Settings.t) (started_at : instant)
    : RateLimiter.t :=
  {| RateLimiter._min_delay := Settings.rate_min_delay s;
     RateLimiter._max_delay := Settings.rate_max_delay s;
     RateLimiter._warmup :=
       RateLimiter.warmup_schedule
         (Settings.rate_warmup_week_1 s) (Settings.rate_warmup_week_2 s)
         (Settings.rate_warmup_week_3 s) (Settings.rate_warmup_week_4_plus s);
     RateLimiter._started_at := started_at;
     RateLimiter._last_send := 0%Q |}.

(** *** 1. Processor: queue, database, classifier, leads *)

(** How [_process_message] ends. [Failed] is an exception, which
    [_processor_loop] logs. *)
Inductive processed :=
  | Unknown_channel
  | Duplicate_message
  | Duplicate_text
  | Not_classified
  | Low_relevance
  | Created (lead_id : Z)
  | Failed.

(** [result.get("relevance_score", 0)] *)
Definition score_of (result : list (string * Json.value)) : Json.value :=
  default (Json.JNum 0) (Json.dict_get result "relevance_score").

(** [Message(telegram_msg_id=..., channel_id=channel.id, ...)] *)
Definition incoming_row (incoming : IncomingMessage.t) (channel_id : Z)
    : Message.t :=
  Message.mk None (IncomingMessage.telegram_msg_id incoming) channel_id
    (IncomingMessage.sender_id incoming)
    (IncomingMessage.sender_username incoming)
    (Some (IncomingMessage.text incoming))
    (Some (IncomingMessage.date incoming))
    (Some (Text._compute_text_hash (IncomingMessage.text incoming))).

(** [Lead(message_id=msg_id, status="new", relevance_score=score, ...)] *)
Definition lead_of_result (msg_id : Z) (score : Q)
    (result : list (string * Json.value)) : Lead.t :=
  Lead.new msg_id "new" (Some score)
    (Json.get_opt result "budget") (Json.get_opt result "stack")
    (Json.get_opt result "deadline") (Json.get_opt result "language")
    (Json.get_opt result "summary").

Definition _process_message (s : Settings.t) (db : Repository.t)
    (incoming : IncomingMessage.t) (answer : Llm.chat_json)
    : Repository.t * processed :=
  match Repository.get_channel_by_telegram_id db
          (IncomingMessage.chat_id incoming) with
  | None => (db, Unknown_channel)
  | Some channel =>
      match Channel.id channel with
      | None => (db, Duplicate_message) (* no row is without an id *)
      | Some channel_id =>
          let text_hash :=
            Text._compute_text_hash (IncomingMessage.text incoming) in
          let msg := incoming_row incoming channel_id in
          match Repository.insert_message db msg with
          | (db1, None) => (db1, Duplicate_message)
          | (db1, Some msg_id) =>
              if Repository.has_lead_with_text_hash db1 text_hash
              then (db1, Duplicate_text)
              else
                match Llm.classify_message answer with
                | Raise => (db1, Failed)
                | Return None => (db1, Not_classified)
                | Return (Some result) =>
                    match Json.as_number (score_of result) with
                    | None => (db1, Failed)
                    | Some score =>
                        if Qlt_le_dec score
                             (Settings.classification_min_relevance s)
                        then (db1, Low_relevance)
                        else
                          let lead := lead_of_result msg_id score result in
                          match Repository.insert_lead db1 lead with
                          | None => (db1, Failed)
                          | Some (db2, lead_id) => (db2, Created lead_id)
                          end
                    end
                end
          end
      end
  end.

(** What one call of [_process_message] does to the database: nothing,
    or the message is stored under the next id, or, the hash having no
    lead yet, the message is stored and a lead attached to it. *)
Inductive intake_effect (db : Repository.t) (incoming : IncomingMessage.t)
    : Repository.t → processed → Prop :=
  | Effect_dropped r :
      r = Unknown_channel ∨ r = Duplicate_message →
      intake_effect db incoming db r
  | Effect_stored channel_id r :
      r ≠ Unknown_channel → (∀ i, r ≠ Created i) →
      intake_effect db incoming
        (Repository.set_messages
           (Repository.messages db ++
              [Message.set_id
                 (Some (Repository.next_id Message.id (Repository.messages db)))
                 (incoming_row incoming channel_id)]) db) r
  | Effect_created channel_id score result :
      let db1 :=
        Repository.set_messages
          (Repository.messages db ++
             [Message.set_id
                (Some (Repository.next_id Message.id (Repository.messages db)))
                (incoming_row incoming channel_id)]) db in
      Repository.has_lead_with_text_hash db1
        (Text._compute_text_hash (IncomingMessage.text incoming)) = false →
      intake_effect db incoming
        (Repository.set_leads
           (Repository.leads db1 ++
              [Lead.set_id
                 (Some (Repository.next_id Lead.id (Repository.leads db1)))
                 (lead_of_result
                    (Repository.next_id Message.id (Repository.messages db))
                    score result)]) db1)
        (Created (Repository.next_id Lead.id (Repository.leads db1))).

(** One turn of [_processor_loop]: the queue wait times out, or a message
    arrives and the classifier, if called, answers. *)
Inductive queue_event :=
  | Timeout
  | Got (incoming : IncomingMessage.t) (answer : Llm.chat_json).

Definition processor_step (s : Settings.t) (db : Repository.t)
    (ev : queue_event) : Repository.t :=
  match ev with
  | Timeout => db
  | Got incoming answer => fst (_process_message s db incoming answer)
  end.

Definition _processor_loop (s : Settings.t) (db : Repository.t)
    (evs : list queue_event) : Repository.t :=
  fold_left (processor_step s) evs db.

(** What a lead created by the intake looks like: status [new], and a
    score that passed the gate. *)
Definition fresh_lead (s : Settings.t) (l : Lead.t) : Prop :=
  Lead.status l = "new" ∧
  ∃ score, Lead.relevance_score l = Some score ∧
    (Settings.classification_min_relevance s <= score)%Q.

(** The messages and leads of [db'] are those of [db] followed by new
    ones, the new leads fresh; the other tables are the same. *)
Definition grown (s : Settings.t) (db db' : Repository.t) : Prop :=
  (∃ ms, Repository.messages db' = (Repository.messages db ++ ms)%list) ∧
  (∃ ls, Repository.leads db' = (Repository.leads db ++ ls)%list ∧
     Forall (fresh_lead s) ls) ∧
  Repository.channels db' = Repository.channels db ∧
  Repository.replies db' = Repository.replies db ∧
  Repository.daily_budget db' = Repository.daily_budget db.

(** *** 2. Outreach *)

Definition _is_outreach_paused (o : t) (now : instant) : t * bool :=
  match _outreach_paused_until o with
  | None => (o, false)
  | Some until =>
      if until <=? now then (set_paused_until None o, false) else (o, true)
  end.

Definition _pause_outreach (o : t) (now : instant) (hours : Z) : t :=
  set_paused_until (Some (now + hours * usec_per_hour)) o.

(** What one call of [_send_outreach] meets: the two generated texts
    ([None] where the LLM call raises), the attempts of the two sends, the
    clock when the pause or [contacted_at] is stamped, [date.today()] when
    the counter is incremented, and whether sending the peer-flood
    notification raises. *)
Record send_env := {
  se_thread_text : option string;
  se_dm_text : option string;
  se_thread_call : nat → Sender.attempt;
  se_dm_call : nat → Sender.attempt;
  se_now : instant;
  se_today : Z;
  se_notify_raises : bool
}.

(** [not msg.text] *)
Definition no_text (x : option string) : bool :=
  match x with
  | Some s => String.eqb s ""
  | None => true
  end.

(** The state after the call, and whether it raised. *)
Definition _send_outreach (o : t) (lead : Lead.t) (e : send_env)
    : t * result unit :=
  match Repository.get_message (_repo o) (Lead.message_id lead) with
  | None => (o, Return ())
  | Some msg =>
      if no_text (Message.text msg) then (o, Return ())
      else
        match Repository.channel_row (_repo o) (Message.channel_id msg) with
        | None => (o, Return ())
        | Some ch_row =>
            match se_thread_text e, se_dm_text e with
            | Some thread_text, Some dm_text =>
                match Sender.send_outreach (Message.sender_id msg) dm_text
                        (se_thread_call e) (se_dm_call e) with
                | Raise => (o, Raise)
                | Return res =>
                    if Sender.peer_flood res then
                      let o1 := _pause_outreach o (se_now e) 24 in
                      if se_notify_raises e then (o1, Raise)
                      else
                        (set_notifier
                           (Notifier.notify_peer_flood (_notifier o1)) o1,
                         Return ())
                    else
                      let lead' :=
                        Lead.set_status "contacted"
                          (Lead.set_outreach (Some thread_text) (Some dm_text)
                             (Sender.thread_msg_id res) (Sender.dm_msg_id res)
                             (Some (se_now e)) lead) in
                      let db1 := Repository.update_lead (_repo o) lead' in
                      let db2 :=
                        Repository.increment_daily_sends db1 (se_today e) in
                      (set_repo db2 o, Return ())
                end
            | _, _ => (o, Raise)
            end
        end
  end.

(** One turn of the [for lead in leads] loop. *)
Record iter_env := {
  it_now_pause : instant;
  it_now_limit : instant;
  it_today : Z;
  it_send : send_env;
  it_wait : RateLimiter.wait_env
}.

(** The state after the turn, and [true] where the loop breaks. *)
Definition outreach_iter (o : t) (lead : Lead.t) (e : iter_env) : t * bool :=
  let '(o1, paused) := _is_outreach_paused o (it_now_pause e) in
  if paused then (o1, true)
  else
    let limit :=
      RateLimiter.get_current_daily_limit (_rate_limiter o1) (it_now_limit e) in
    let '(db2, budget) :=
      Repository.get_daily_budget (_repo o1) (it_today e) limit in
    let o2 := set_repo db2 o1 in
    if DailyBudget.max_sends budget <=? DailyBudget.sends_used budget
    then (o2, true)
    else
      let o3 := fst (_send_outreach o2 lead (it_send e)) in
      (set_rate_limiter (RateLimiter.wait (_rate_limiter o3) (it_wait e)) o3,
       false).

(** The loop over the fetched leads; it ends with the leads, or with the
    turns the environment describes. *)
Fixpoint outreach_batch (o : t) (leads : list Lead.t) (es : list iter_env)
    : t :=
  match leads, es with
  | lead :: leads', e :: es' =>
      let '(o', broke) := outreach_iter o lead e in
      if broke then o' else outreach_batch o' leads' es'
  | _, _ => o
  end.

(** One turn of [while self._running]. *)
Record cycle_env := {
  cy_now_pause : instant;
  cy_now_limit : instant;
  cy_today : Z;
  cy_iters : list iter_env
}.

Definition outreach_cycle (o : t) (e : cycle_env) : t :=
  let '(o1, paused) := _is_outreach_paused o (cy_now_pause e) in
  if paused then o1
  else
    let limit :=
      RateLimiter.get_current_daily_limit (_rate_limiter o1) (cy_now_limit e) in
    let '(db2, budget) :=
      Repository.get_daily_budget (_repo o1) (cy_today e) limit in
    let o2 := set_repo db2 o1 in
    if DailyBudget.max_sends budget <=? DailyBudget.sends_used budget
    then o2
    else
      outreach_batch o2 (Repository.get_leads_by_status (_repo o2) "new")
        (cy_iters e).

Definition _outreach_loop (o : t) (es : list cycle_env) : t :=
  fold_left outreach_cycle es o.







(** *** 3. Replies: forwarding *)

Definition has_sentiment (tag : string) (r : Reply.t) : bool :=
  match Reply.sentiment r with
  | Some s => String.eqb s tag
  | None => false
  end.

(** The inner [for reply in replies]: the reply at which it breaks, [None]
    where it runs to its [else]. *)
Fixpoint first_positive (replies : list Reply.t) : option Reply.t :=
  match replies with
  | [] => None
  | reply :: rest =>
      if has_sentiment "positive" reply then Some reply
      else first_positive rest
  end.

(** The notification a positive reply of the lead triggers. *)
Definition positive_notification (db : Repository.t) (lead : Lead.t)
    (reply : Reply.t) : Notifier.notification :=
  let msg := Repository.get_message db (Lead.message_id lead) in
  let ch_row :=
    match msg with
    | Some m => Repository.channel_row db (Message.channel_id m)
    | None => None
    end in
  let channel_title :=
    match ch_row with
    | Some c => Channel.title c
    | None => None
    end in
  Notifier.Positive_reply
    (Json.or_else (Lead.summary lead) "")
    (match Reply.text reply with Some x => x | None => "" end)
    (match msg with Some m => Message.sender_username m | None => None end)
    channel_title.

(** The body of [for lead in leads] where sending the notification does
    not raise; [now] is the clock when [forwarded_at] is stamped. *)
Definition forward_lead (o : t) (lead : Lead.t) (now : instant) : t :=
  let replies := Repository.get_replies_for_lead (_repo o) (Lead.id lead) in
  match first_positive replies with
  | Some reply =>
      let o1 :=
        set_notifier
          (_notifier o ++ [positive_notification (_repo o) lead reply])%list
          o in
      let lead' :=
        Lead.set_forwarded_at (Some now) (Lead.set_status "forwarded" lead) in
      set_repo (Repository.update_lead (_repo o1) lead') o1
  | None =>
      if existsb (has_sentiment "negative") replies
      then set_repo
             (Repository.update_lead (_repo o) (Lead.set_status "negative" lead))
             o
      else o
  end.

(** Whether the body sends a notification for the lead. *)
Definition notifies (o : t) (lead : Lead.t) : bool :=
  match first_positive
          (Repository.get_replies_for_lead (_repo o) (Lead.id lead)) with
  | Some _ => true
  | None => false
  end.

(** [clock i] is the reading of the clock when the lead with id [i] is
    forwarded; [raises i] tells that sending its notification raises: the
    exception leaves the loop before the lead is written. *)
Fixpoint forward_leads (o : t) (leads : list Lead.t)
    (clock : option Z → instant) (raises : option Z → bool) : t :=
  match leads with
  | [] => o
  | lead :: rest =>
      if notifies o lead && raises (Lead.id lead) then o
      else
        forward_leads (forward_lead o lead (clock (Lead.id lead))) rest
          clock raises
  end.

Definition _forward_positive_replies (o : t) (clock : option Z → instant)
    (raises : option Z → bool) : t :=
  forward_leads o (Repository.get_leads_by_status (_repo o) "replied")
    clock raises.

(** The row [forward_lead] writes back for a lead, [None] where it writes
    none. *)
Definition forward_write (db : Repository.t) (lead : Lead.t) (now : instant)
    : option Lead.t :=
  let replies := Repository.get_replies_for_lead db (Lead.id lead) in
  match first_positive replies with
  | Some _ =>
      Some (Lead.set_forwarded_at (Some now)
              (Lead.set_status "forwarded" lead))
  | None =>
      if existsb (has_sentiment "negative") replies
      then Some (Lead.set_status "negative" lead)
      else None
  end.

(** The notifications [forward_lead] sends for a lead: one for its first
    positive reply, none without one. *)
Definition forward_notice (db : Repository.t) (lead : Lead.t)
    : list Notifier.notification :=
  match first_positive (Repository.get_replies_for_lead db (Lead.id lead)) with
  | Some reply => [positive_notification db lead reply]
  | None => []
  end.

(** One turn of [_reply_poller]: the poll of the threads, then the
    forwarding pass. *)
Definition reply_poller_turn (o : t) (our_user_id : option Z)
    (threads : option Z → list Responder.thread_message)
    (clock : option Z → instant) (raises : option Z → bool) : t :=
  _forward_positive_replies
    (set_repo (Responder.poll_thread_replies our_user_id (_repo o) threads) o)
    clock raises.

(** What one turn of [_reply_poller] meets: the threads as the platform
    shows them, the clock of the forwarding pass, and the notifications
    that fail to be sent. *)
Record poll_env := {
  pl_threads : option Z → list Responder.thread_message;
  pl_clock : option Z → instant;
  pl_raises : option Z → bool
}.

(** [while self._running]: turn after turn. An exception of the forwarding
    pass is logged and ends the turn. *)
Definition _reply_poller (o : t) (our_user_id : option Z)
    (turns : list poll_env) : t :=
  fold_left
    (fun o e =>
       reply_poller_turn o our_user_id (pl_threads e) (pl_clock e)
         (pl_raises e))
    turns o.

(** *** 4. Janitor *)





(** *** 5. Summary *)

(** [datetime.combine(now.date(), time(21, 0), tzinfo=timezone.utc)],
    a day later when [now >= target]. *)
Definition summary_target (now : instant) : instant :=
  let target := now / usec_per_day * usec_per_day + 21 * usec_per_hour in
  if target <=? now then target + usec_per_day else target.

(** [wait_secs = (target - now).total_seconds()] *)
Definition summary_wait (now : instant) : Q :=
  (summary_target now - now) # 1000000.

End Orchestrator.

(** ** DiscoveryService ([telegram/discovery.py]) *)

Module DiscoveryService.

Record t := mk {
  _repo : Repository.t;
  _collector : Collector.t;
  _known_ids : gset Z;
  _rejected_ids : gset Z;
  _generated_keywords : list string
}.

Definition set_known_ids (x : gset Z) (d : t) : t :=
  mk (_repo d) (_collector d) x (_rejected_ids d) (_generated_keywords d).
Definition set_rejected_ids (x : gset Z) (d : t) : t :=
  mk (_repo d) (_collector d) (_known_ids d) x (_generated_keywords d).
Definition set_generated_keywords (x : list string) (d : t) : t :=
  mk (_repo d) (_collector d) (_known_ids d) (_rejected_ids d) x.

Definition _FALLBACK_KEYWORDS : list string := [
  "freelance orders";
  "freelance jobs";
  "заказы фриланс";
  "фриланс заказы";
  "ищу разработчика";
  "ищу программиста";
  "web developer needed";
  "разработка заказы";
  "freelance developer";
  "замовлення фріланс";
  "trabajo freelance";
  "Freelance Aufträge";
  "commandes freelance";
  "pedidos freelance";
  "zlecenia freelance" ].

(** [list(dict.fromkeys(l))]: the first occurrence of each stays. *)
Fixpoint fromkeys (seen l : list string) : list string :=
  match l with
  | [] => []
  | x :: l' =>
      if existsb (String.eqb x) seen then fromkeys seen l'
      else x :: fromkeys (x :: seen) l'
  end.

Definition _get_all_keywords (s : Settings.t) (d : t) : list string :=
  fromkeys []
    (Settings.discovery_search_keywords s ++ _generated_keywords d
       ++ _FALLBACK_KEYWORDS).

Definition _at_capacity (s : Settings.t) (d : t) : bool :=
  Settings.discovery_max_channels s <=? Z.of_nat (size (_known_ids d)).

(** [{ch.telegram_id for ch in channels if ch.telegram_id}] *)
Definition init (d : t) (generated : list string) : t :=
  let ids :=
    flat_map (fun ch =>
      match Channel.telegram_id ch with
      | Some tid => if tid =? 0 then [] else [tid]
      | None => []
      end) (Repository.get_active_channels (_repo d)) in
  set_generated_keywords generated (set_known_ids (list_to_set ids) d).

(** What [_validate_channel] meets: the texts of the messages
    [iter_messages] yields ([None] for one without text), whether the
    iteration raises, and the answer of the LLM. *)
Record validate_env := {
  ve_messages : list (option string);
  ve_raises : bool;
  ve_answer : Llm.chat_json
}.

(** The first five texts, each cut to 300 characters. *)
Fixpoint take_samples (room : nat) (msgs : list (option string))
    : list string :=
  match room, msgs with
  | O, _ => []
  | _, [] => []
  | S room', Some x :: rest =>
      if String.eqb x "" then take_samples room rest
      else String.substring 0 300 x :: take_samples room' rest
  | S _, None :: rest => take_samples room rest
  end.

Definition _validate_channel (e : validate_env) : bool :=
  if ve_raises e then false
  else
    match take_samples 5 (ve_messages e) with
    | [] => false
    | _ =>
        match ve_answer e with
        | Llm.Decoded (Json.JObj d) =>
            match Json.dict_get d "is_relevant" with
            | Some (Json.JBool b) => b
            | _ => false
            end
        | _ => false
        end
    end.

(** What [_try_register] meets: the entity [get_entity] resolves, as its
    username and title ([None] where the call raises), the validation, the
    clock, and the messages the backfill queues. *)
Record register_env := {
  re_entity : option (option string * option string);
  re_validate : validate_env;
  re_now : instant;
  re_backfill : list IncomingMessage.t
}.

(** [not x] for an optional string. *)
Definition blank (x : option string) : bool :=
  match x with
  | Some v => String.eqb v ""
  | None => true
  end.

Definition _try_register (s : Settings.t) (d : t) (telegram_id : Z)
    (source : string) (username title : option string) (e : register_env)
    : t * bool :=
  if bool_decide (telegram_id ∈ _known_ids d)
     || bool_decide (telegram_id ∈ _rejected_ids d)
  then (d, false)
  else if _at_capacity s d then (d, false)
  else
    match Repository.get_channel_by_telegram_id (_repo d) telegram_id with
    | Some _ => (set_known_ids ({[telegram_id]} ∪ _known_ids d) d, false)
    | None =>
        let resolved :=
          if blank username && blank title then re_entity e
          else Some (username, title) in
        match resolved with
        | None => (d, false)
        | Some (username', title') =>
            if negb (_validate_channel (re_validate e))
            then (set_rejected_ids ({[telegram_id]} ∪ _rejected_ids d) d,
                  false)
            else
              let ch :=
                Channel.mk None (Some telegram_id) username' title' true
                  (Some source) (Some (re_now e)) in
              let db' := fst (Repository.upsert_channel (_repo d) ch) in
              let c1 := Collector.add_chat (_collector d) telegram_id in
              let c2 :=
                if 0 <? Settings.discovery_backfill_on_discover s
                then Collector.backfill c1 (re_backfill e)
                else c1 in
              (mk db' c2 ({[telegram_id]} ∪ _known_ids d) (_rejected_ids d)
                  (_generated_keywords d),
               true)
        end
    end.

(** A chat the platform returns: whether it is a [TgChannel], whether a
    megagroup, and what registering it would meet. *)
Record found_chat := {
  fc_id : Z;
  fc_is_channel : bool;
  fc_megagroup : bool;
  fc_username : option string;
  fc_title : option string;
  fc_env : register_env
}.

(** The state and the count after offering one candidate. *)
Definition offer (s : Settings.t) (acc : t * nat) (source : string)
    (telegram_id : Z) (username title : option string) (e : register_env)
    : t * nat :=
  let '(d', added) := _try_register s (fst acc) telegram_id source
                        username title e in
  (d', if added then S (snd acc) else snd acc).

(** *** Strategy 1 *)

(** The loop over [result.chats]. *)
Definition register_found (s : Settings.t) (source : string)
    (acc : t * nat) (chat : found_chat) : t * nat :=
  if negb (fc_is_channel chat) || fc_megagroup chat then acc
  else offer s acc source (fc_id chat) (fc_username chat) (fc_title chat)
         (fc_env chat).

(** [search k] is what the search for keyword [k] returns, [None] where
    the request raises. *)
Fixpoint search_keywords (s : Settings.t) (acc : t * nat)
    (keywords : list string) (search : string → option (list found_chat))
    : t * nat :=
  match keywords with
  | [] => acc
  | keyword :: rest =>
      if _at_capacity s (fst acc) then acc
      else
        let acc' :=
          match search keyword with
          | Some chats =>
              fold_left (register_found s ("search:" ++ keyword)) chats acc
          | None => acc
          end in
        search_keywords s acc' rest search
  end.

Definition search_by_keywords (s : Settings.t) (d : t)
    (search : string → option (list found_chat)) : t * nat :=
  search_keywords s (d, O) (_get_all_keywords s d) search.

(** *** Strategy 2 *)

(** A message of the scanned chat: the channel it was forwarded from, if
    [fwd_from.from_id] is a [PeerChannel]. *)
Record scanned_message := {
  sm_forward_source : option Z;
  sm_env : register_env
}.

(** [chat] is the text of [chat_id] in the source tag. The messages are
    those the iteration yields before it ends or raises. *)
Fixpoint scan_forwards (s : Settings.t) (acc : t * nat) (chat : string)
    (msgs : list scanned_message) : t * nat :=
  match msgs with
  | [] => acc
  | msg :: rest =>
      if _at_capacity s (fst acc) then acc
      else
        match sm_forward_source msg with
        | None => scan_forwards s acc chat rest
        | Some src_id =>
            scan_forwards s
              (offer s acc ("forward:" ++ chat) src_id None None (sm_env msg))
              chat rest
        end
  end.

Definition extract_from_forwards (s : Settings.t) (d : t) (chat : string)
    (msgs : list scanned_message) : t * nat :=
  scan_forwards s (d, O) chat msgs.

(** *** Strategy 3 *)

(** What scanning a description meets: whether the entity is a
    [TgChannel] ([None] where resolving it or fetching its profile
    raises), and for each handle [_USERNAME_RE] finds in the description
    the chat it resolves to ([None] where that raises). *)
Record description_env := {
  de_is_channel : option bool;
  de_mentions : list (option found_chat)
}.

Fixpoint scan_mentions (s : Settings.t) (acc : t * nat) (chat : string)
    (mentions : list (option found_chat)) : t * nat :=
  match mentions with
  | [] => acc
  | m :: rest =>
      if _at_capacity s (fst acc) then acc
      else
        match m with
        | None => scan_mentions s acc chat rest
        | Some target =>
            scan_mentions s
              (register_found s ("description:" ++ chat) acc target) chat rest
        end
  end.

Definition extract_from_description (s : Settings.t) (d : t) (chat : string)
    (e : description_env) : t * nat :=
  match de_is_channel e with
  | Some true => scan_mentions s (d, O) chat (de_mentions e)
  | _ => (d, O)
  end.

(** *** A full cycle *)

(** [for chat_id in list(self._known_ids)]: one strategy over a snapshot
    of the known ids, until the capacity is reached. *)
Fixpoint scan_known (s : Settings.t) (step : t → Z → t * nat)
    (acc : t * nat) (ids : list Z) : t * nat :=
  match ids with
  | [] => acc
  | chat_id :: rest =>
      let '(d', n) := step (fst acc) chat_id in
      let acc' := (d', (snd acc + n)%nat) in
      if _at_capacity s d' then acc' else scan_known s step acc' rest
  end.

(** [generated] is what [_generate_keywords] returns, the answer of the
    text-generation collaborator ([[]] on any failure). *)
Definition run_cycle (s : Settings.t) (d : t) (generated : list string)
    (search : string → option (list found_chat))
    (forwards : Z → list scanned_message)
    (descriptions : Z → description_env) : t * nat :=
  let acc1 := search_by_keywords s (set_generated_keywords generated d)
                search in
  let acc2 :=
    if Settings.discovery_scan_forwards s then
      scan_known s
        (fun d chat_id =>
           extract_from_forwards s d (pretty chat_id) (forwards chat_id))
        acc1 (elements (_known_ids (fst acc1)))
    else acc1 in
  if Settings.discovery_scan_descriptions s then
    scan_known s
      (fun d chat_id =>
         extract_from_description s d (pretty chat_id) (descriptions chat_id))
      acc2 (elements (_known_ids (fst acc2)))
  else acc2.

(** What one cycle meets. *)
Record cycle_env := {
  ce_generated : list string;
  ce_search : string → option (list found_chat);
  ce_forwards : Z → list scanned_message;
  ce_descriptions : Z → description_env
}.

(** [Orchestrator._discovery_loop]: the cycles it runs, one per
    [discovery_interval]. *)
Definition _discovery_loop (s : Settings.t) (d : t) (es : list cycle_env)
    : t :=
  fold_left
    (fun d e =>
       fst (run_cycle s d (ce_generated e) (ce_search e) (ce_forwards e)
              (ce_descriptions e)))
    es d.

(** The capacity and the number of known ids are both at most [bound]. *)
Definition within (s : Settings.t) (bound : Z) (acc : t * nat) : Prop :=
  Settings.discovery_max_channels s ≤ bound ∧
  Z.of_nat (size (_known_ids (fst acc))) ≤ bound.

(** The count of [acc] is the number of channel rows added since [d0],
    each of them active and carrying a discovery source and date. *)
Definition registered_rows (d0 : t) (acc : t * nat) : Prop :=
  ∃ rows,
    Repository.channels (_repo (fst acc))
    = (Repository.channels (_repo d0) ++ rows)%list ∧
    List.length rows = snd acc ∧
    Forall (fun c =>
      Channel.is_active c = true ∧ is_Some (Channel.discovered_from c) ∧
      is_Some (Channel.discovered_at c)) rows.

End DiscoveryService.

(** ** Concrete scenarios *)

Module Scenario.

Definition channel_a : Channel.t :=
  Channel.mk (Some 1) (Some 100) (Some "jobs_a") (Some "Jobs A") true
    None None.

Definition channel_b : Channel.t :=
  Channel.mk (Some 2) (Some 200) (Some "jobs_b") (Some "Jobs B") true
    None None.

(** Two channels, nothing ingested yet. *)
Definition db0 : Repository.t :=
  Repository.mk [channel_a; channel_b] [] [] [] ∅.

Definition post_a : IncomingMessage.t :=
  IncomingMessage.mk 11 100 (Some 7) (Some "client")
    "Need a Telegram bot, budget $500, deadline 2 weeks"
    "2026-01-05T10:00:00+00:00".

(** The same post on the other channel, in other case and spacing. *)
Definition repost_b : IncomingMessage.t :=
  IncomingMessage.mk 23 200 (Some 8) (Some "reposter")
    "  need a  TELEGRAM bot, budget $500,  deadline 2 weeks "
    "2026-01-05T10:05:00+00:00".

Definition order (score : Q) : Llm.chat_json :=
  Llm.Decoded (Json.JObj [
    ("is_order", Json.JBool true);
    ("relevance_score", Json.JNum score);
    ("budget", Json.JStr "$500");
    ("stack", Json.JNull);
    ("language", Json.JStr "en");
    ("summary", Json.JStr "Telegram bot wanted") ]).

(** Relevant, but not an order. *)
Definition not_an_order : list (string * Json.value) := [
  ("is_order", Json.JBool false);
  ("relevance_score", Json.JNum 0.95);
  ("language", Json.JStr "en");
  ("summary", Json.JStr "Developer looking for work") ].

(** 2026-01-05T10:00:00Z, and that day as a day number. *)
Definition t0 : instant := 1767607200000000.
Definition day1 : Z := 739621.

Definition post_c : IncomingMessage.t :=
  IncomingMessage.mk 12 100 (Some 9) (Some "shop_owner")
    "Looking for a web developer for an online shop"
    "2026-01-05T10:01:00+00:00".

Definition post_d : IncomingMessage.t :=
  IncomingMessage.mk 31 200 (Some 10) (Some "startup")
    "Need automation of reports, Python"
    "2026-01-05T10:02:00+00:00".

(** One lead in status [new]. *)
Definition db_one_lead : Repository.t :=
  fst (Orchestrator._process_message Settings.defaults db0 post_a (order 0.8)).

(** Three leads in status [new]. *)
Definition db_three_leads : Repository.t :=
  Orchestrator._processor_loop Settings.defaults db0
    [ Orchestrator.Got post_a (order 0.8);
      Orchestrator.Got post_c (order 0.9);
      Orchestrator.Got post_d (order 0.7) ].

Definition orchestrator_on (db : Repository.t) : Orchestrator.t :=
  Orchestrator.mk db (Collector.mk (list_to_set [100; 200]) []) []
    (Orchestrator.make_rate_limiter Settings.defaults t0) None.

(** Both sends are delivered. *)
Definition delivered (now : instant) (today : Z) : Orchestrator.send_env :=
  {| Orchestrator.se_thread_text := Some "Hello, I can help with this.";
     Orchestrator.se_dm_text := Some "Hi, I saw your post.";
     Orchestrator.se_thread_call := fun _ => Sender.Delivered 501;
     Orchestrator.se_dm_call := fun _ => Sender.Delivered 502;
     Orchestrator.se_now := now;
     Orchestrator.se_today := today;
     Orchestrator.se_notify_raises := false |}.


(** The account is flagged on the thread reply. *)
Definition flooded (now : instant) (today : Z) : Orchestrator.send_env :=
  {| Orchestrator.se_thread_text := Some "Hello, I can help with this.";
     Orchestrator.se_dm_text := Some "Hi, I saw your post.";
     Orchestrator.se_thread_call := fun _ => Sender.Peer_flood_error;
     Orchestrator.se_dm_call := fun _ => Sender.Delivered 502;
     Orchestrator.se_now := now;
     Orchestrator.se_today := today;
     Orchestrator.se_notify_raises := false |}.

Definition turn (k : Z) : Orchestrator.iter_env :=
  {| Orchestrator.it_now_pause := t0 + k * 200000000;
     Orchestrator.it_now_limit := t0 + k * 200000000;
     Orchestrator.it_today := day1;
     Orchestrator.it_send := delivered (t0 + k * 200000000 + 5000000) day1;
     Orchestrator.it_wait :=
       {| RateLimiter.w_now := inject_Z (1000 + k * 200);
          RateLimiter.w_delay := 150;
          RateLimiter.w_lag := 0 |} |}.

(** One turn of the outreach loop in the first week (two sends a day),
    with the environment ready for three sends. *)
Definition one_cycle : Orchestrator.cycle_env :=
  {| Orchestrator.cy_now_pause := t0;
     Orchestrator.cy_now_limit := t0;
     Orchestrator.cy_today := day1;
     Orchestrator.cy_iters := [turn 1; turn 2; turn 3] |}.

(** The lead of [post_a] in status [replied], with a negative reply and a
    later positive one. *)
Definition replied_lead : Lead.t :=
  Lead.set_status "replied"
    (Lead.set_outreach (Some "Hello, I can help with this.")
       (Some "Hi, I saw your post.") (Some 501) (Some 502) (Some t0)
       (Lead.set_id (Some 1)
          (Lead.new 1 "new" (Some 0.8%Q) (Some (Json.JStr "$500")) None None
             (Some (Json.JStr "en"))
             (Some (Json.JStr "Telegram bot wanted"))))).

Definition db_replied : Repository.t :=
  Repository.mk [channel_a; channel_b]
    [Message.set_id (Some 1) (Orchestrator.incoming_row post_a 1)]
    [replied_lead]
    [ Reply.mk (Some 1) 1 (Some 601) (Some 7) (Some "not sure, maybe later")
        (Some "negative") (Some (t0 + 60000000));
      Reply.mk (Some 2) 1 (Some 602) (Some 7)
        (Some "sounds good, tell me more") (Some "positive")
        (Some (t0 + 120000000)) ]
    ∅.

(** 2026-01-20T10:00:00Z, fifteen days after [t0]. *)
Definition t15 : instant := t0 + 15 * usec_per_day.

(** A channel discovered at [t0] that never produced a lead, one
    discovered at [t0] whose message has a lead, a seed channel without a
    discovery date, and one discovered two days before [t15]. *)
Definition db_channels : Repository.t :=
  Repository.mk
    [ Channel.mk (Some 1) (Some 100) (Some "jobs_a") (Some "Jobs A") true
        (Some "search:freelance jobs") (Some t0);
      Channel.mk (Some 2) (Some 200) (Some "jobs_b") (Some "Jobs B") true
        (Some "forward:100") (Some t0);
      Channel.mk (Some 3) (Some 300) (Some "seeded") (Some "Seeded") true
        None None;
      Channel.mk (Some 4) (Some 400) (Some "fresh") (Some "Fresh") true
        (Some "description:100") (Some (t15 - 2 * usec_per_day)) ]
    [Message.set_id (Some 1) (Orchestrator.incoming_row repost_b 2)]
    [Lead.set_id (Some 1)
       (Lead.new 1 "new" (Some 0.8%Q) None None None None None)]
    [] ∅.


(** The settings with room for two channels only. *)
Definition two_channels : Settings.t :=
  Settings.mk 120 600 2 5 8 12 (6 # 10) 72 [] 2 50 true true.

(** The discovery engine after [init] on [db0]: it knows 100 and 200. *)
Definition discovery0 : DiscoveryService.t :=
  DiscoveryService.init
    (DiscoveryService.mk db0 (Collector.mk (list_to_set [100; 200]) []) ∅ ∅ [])
    [].

(** A candidate whose sampled messages the LLM judges relevant. *)
Definition relevant_candidate : DiscoveryService.register_env :=
  {| DiscoveryService.re_entity := Some (Some "new_jobs", Some "New jobs");
     DiscoveryService.re_validate :=
       {| DiscoveryService.ve_messages :=
            [Some "Need a developer for a shop"; None;
             Some "Looking for a bot developer"];
          DiscoveryService.ve_raises := false;
          DiscoveryService.ve_answer :=
            Llm.Decoded (Json.JObj [
              ("is_relevant", Json.JBool true);
              ("reason", Json.JStr "hiring posts") ]) |};
     DiscoveryService.re_now := t0;
     DiscoveryService.re_backfill := [] |}.

(** The lead of [post_a] after a delivered outreach: status [contacted],
    with the thread reply 501 to poll under. *)
Definition db_contacted : Repository.t :=
  Orchestrator._repo
    (Orchestrator._outreach_loop (orchestrator_on db_one_lead) [one_cycle]).

(** A reply of the client in the thread, a minute after [t0], with the
    sentiment the analysis gives it. *)
Definition thread_reply (msg_id : Z) (sentiment : string)
    : Responder.thread_message :=
  {| Responder.tm_id := msg_id;
     Responder.tm_text := Some "sounds good, tell me more";
     Responder.tm_sender_id := Some 7;
     Responder.tm_env :=
       {| Responder.rp_answer :=
            Llm.Decoded (Json.JObj [
              ("sentiment", Json.JStr sentiment);
              ("wants_to_continue", Json.JBool true) ]);
          Responder.rp_received := t0 + 60000000;
          Responder.rp_replied := t0 + 61000000 |} |}.

End Scenario.

(** * Properties *)

(** ** Warm-up tiers and pacing *)

Module RateLimiterFacts.
Import RateLimiter.




(** Closed comparisons of rationals, by evaluation. *)
Ltac q_closed :=
  vm_compute; first [reflexivity | discriminate | intro; discriminate].

Lemma wait_keeps_config (rl : t) (e : wait_env) :
  _min_delay (wait rl e) = _min_delay rl ∧
  _max_delay (wait rl e) = _max_delay rl.
Proof. split; reflexivity. Qed.

(** The sleep makes up what is missing to the drawn delay, and nothing
    when the caller was already slower. *)
Lemma sleep_time_spec (rl : t) (e : wait_env) :
  let elapsed := (w_now e - _last_send rl)%Q in
  ((elapsed < w_delay e)%Q ∧ (sleep_time rl e == w_delay e - elapsed)%Q) ∨
  ((w_delay e <= elapsed)%Q ∧ (sleep_time rl e == 0)%Q).
Proof.
  unfold sleep_time. cbv zeta.
  destruct (Qlt_le_dec 0 (w_delay e - (w_now e - _last_send rl))) as [H|H].
  - left. split; [lra | reflexivity].
  - right. split; [lra | reflexivity].
Qed.

Lemma interval_lower (rl : t) (e : wait_env) :
  wait_env_ok rl e →
  (w_delay e <= interval rl e)%Q ∧
  (inject_Z (_min_delay rl) <= interval rl e)%Q.
Proof.
  intros (Hmin & Hmax & Hmono & Hlag).
  unfold interval. cbn [wait _last_send].
  destruct (sleep_time_spec rl e) as [[H1 H2]|[H1 H2]];
    cbv zeta in H1; split; lra.
Qed.

Lemma interval_upper (rl : t) (e : wait_env) :
  wait_env_ok rl e → wait_env_prompt rl e →
  (interval rl e <= inject_Z (_max_delay rl))%Q.
Proof.
  intros (Hmin & Hmax & Hmono & Hlag) (Hgap & Hzero).
  unfold interval. cbn [wait _last_send].
  destruct (sleep_time_spec rl e) as [[H1 H2]|[H1 H2]];
    cbv zeta in H1; lra.
Qed.

(** C4, as the code has it. Over [N] consecutive calls of [wait] with
    draws in the window and a clock that does not run backwards, every
    interval between consecutive completions is at least [min_delay]; it is
    at most [max_delay] when, in addition, every call starts within
    [max_delay] of the previous completion and no wake-up is late. *)
Theorem intervals_bounds (rl : t) (es : list wait_env) :
  wait_envs_ok rl es →
  Forall (fun x => (inject_Z (_min_delay rl) <= x)%Q) (intervals rl es) ∧
  (wait_envs_prompt rl es →
   Forall (fun x => (x <= inject_Z (_max_delay rl))%Q) (intervals rl es)).
Proof.
  revert rl. induction es as [|e es IH]; intros rl Hok.
  - split; [constructor | intros _; constructor].
  - destruct Hok as [He Hes]. cbn [intervals].
    destruct (IH (wait rl e) Hes) as [IHlo IHhi]. split.
    + constructor; [apply interval_lower, He | exact IHlo].
    + intros [Hp Hps]. constructor; [by apply interval_upper | by apply IHhi].
Qed.

Lemma intervals_bounds_witness :
  Forall (fun x => (120 <= x)%Q) (intervals limiter_120_600 two_prompt_calls) ∧
  Forall (fun x => (x <= 600)%Q) (intervals limiter_120_600 two_prompt_calls).
Proof.
  assert (Hok : wait_envs_ok limiter_120_600 two_prompt_calls).
  { cbn. unfold wait_env_ok. repeat split; q_closed. }
  assert (Hp : wait_envs_prompt limiter_120_600 two_prompt_calls).
  { cbn. unfold wait_env_prompt. repeat split; q_closed. }
  destruct (intervals_bounds limiter_120_600 two_prompt_calls Hok) as [Hlo Hhi].
  split; [exact Hlo | exact (Hhi Hp)].
Defined.

(** C4 as stated fails: a call that starts 1000 s after the previous
    completion does not sleep, and the interval is 1000 s, above
    [max_delay = 600]. *)
Lemma interval_above_max_delay :
  let late_call := {| w_now := 2000; w_delay := 300; w_lag := 0 |} in
  wait_envs_ok limiter_120_600 [late_call] ∧
  (sleep_time limiter_120_600 late_call == 0)%Q ∧
  ¬ Forall (fun x => (inject_Z (_min_delay limiter_120_600) <= x)%Q ∧
                     (x <= inject_Z (_max_delay limiter_120_600))%Q)
      (intervals limiter_120_600 [late_call]).
Proof.
  cbv zeta. split; [|split].
  - cbn. unfold wait_env_ok. repeat split; q_closed.
  - q_closed.
  - intros H. inversion H as [|x l [_ Hx] _]; subst.
    vm_compute in Hx. by apply Hx.
Qed.

End RateLimiterFacts.

(** ** Text normalisation *)

Module TextFacts.
Import Text.

(** The digests [hashlib] gives for the empty string and for ["abc"]. *)
Example hexdigest_empty :
  Sha256.hexdigest ""
  = "e3b0c44298fc1c149afbf4c8996fb92427ae41e4649b934ca495991b7852b855".
Proof. vm_compute. reflexivity. Qed.

Example hexdigest_abc :
  Sha256.hexdigest "abc"
  = "ba7816bf8f01cfea414140de5dae2223b00361a396177a9cb410ff61f20015ad".
Proof. vm_compute. reflexivity. Qed.

Example normalize_post :
  normalize "  need a  TELEGRAM bot, budget $500,  deadline 2 weeks "
  = "need a telegram bot, budget $500, deadline 2 weeks".
Proof. vm_compute. reflexivity. Qed.

Lemma isspace_lower_char (c : ascii) : isspace (lower_char c) = isspace c.
Proof.
  unfold lower_char.
  destruct ((65 <=? N_of_ascii c)%N && (N_of_ascii c <=? 90)%N) eqn:E;
    [|reflexivity].
  apply andb_true_iff in E as [E1 E2].
  apply N.leb_le in E1, E2. unfold isspace.
  rewrite N_ascii_embedding by lia.
  repeat match goal with
         | |- context [(?a <=? ?b)%N] => destruct (N.leb_spec a b)
         end; try reflexivity; lia.
Qed.

Lemma lower_char_space : lower_char " " = " "%char.
Proof. reflexivity. Qed.

Lemma sub_spaces_lower (b : bool) (l : list ascii) :
  sub_spaces b (lower l) = lower (sub_spaces b l).
Proof.
  revert b. induction l as [|c l IH]; intros b; [reflexivity|].
  cbn [lower List.map sub_spaces]. fold (lower l).
  rewrite isspace_lower_char. destruct (isspace c).
  - destruct b; cbn [List.map]; by rewrite IH.
  - cbn [List.map]. fold (lower (sub_spaces false l)). by rewrite IH.
Qed.

Lemma lstrip_lower (l : list ascii) : lstrip (lower l) = lower (lstrip l).
Proof.
  induction l as [|c l IH]; [reflexivity|].
  cbn [lower List.map lstrip]. fold (lower l).
  rewrite isspace_lower_char. by destruct (isspace c).
Qed.

Lemma strip_lower (l : list ascii) : strip (lower l) = lower (strip l).
Proof.
  unfold strip, rstrip, lower.
  fold (lower l). rewrite lstrip_lower. unfold lower.
  rewrite <- map_rev. fold (lower (rev (lstrip l))).
  rewrite lstrip_lower. unfold lower. by rewrite map_rev.
Qed.

Lemma forallb_rev_eq {A} (p : A → bool) (l : list A) :
  forallb p (rev l) = forallb p l.
Proof.
  induction l as [|x l IH]; [reflexivity|]. cbn.
  rewrite forallb_app, IH. cbn. rewrite andb_true_r. apply andb_comm.
Qed.

(** [rstrip], from the front. *)
Lemma rstrip_cons (c : ascii) (l : list ascii) :
  rstrip (c :: l)
  = if forallb isspace (c :: l) then [] else c :: rstrip l.
Proof.
  unfold rstrip. cbn [rev forallb].
  assert (H : ∀ k : list ascii,
            lstrip (k ++ [c])
            = if forallb isspace k
              then (if isspace c then [] else [c])
              else (lstrip k ++ [c])%list).
  { induction k as [|x k IH]; cbn; [by destruct (isspace c)|].
    destruct (isspace x); [exact IH | reflexivity]. }
  rewrite H, forallb_rev_eq.
  destruct (forallb isspace l) eqn:Hl; rewrite ?andb_true_r, ?andb_false_r.
  - destruct (isspace c); [reflexivity|].
    assert (Hn : lstrip (rev l) = []).
    { clear H. assert (Hr : forallb isspace (rev l) = true)
        by (by rewrite forallb_rev_eq).
      induction (rev l) as [|x k IH]; [reflexivity|]. cbn in *.
      apply andb_true_iff in Hr as [-> Hr]. by apply IH. }
    by rewrite Hn.
  - by rewrite rev_app_distr.
Qed.

Lemma forallb_isspace_sub_spaces (b : bool) (l : list ascii) :
  forallb isspace (sub_spaces b l) = forallb isspace l.
Proof.
  revert b. induction l as [|c l IH]; intros b; [reflexivity|].
  cbn [sub_spaces forallb]. destruct (isspace c) eqn:Hc.
  - destruct b; cbn [forallb]; by rewrite IH.
  - cbn [forallb]. by rewrite Hc.
Qed.

Lemma rstrip_sub_spaces (b : bool) (l : list ascii) :
  rstrip (sub_spaces b l) = sub_spaces b (rstrip l).
Proof.
  revert b. induction l as [|c l IH]; intros b; [reflexivity|].
  rewrite (rstrip_cons c l). cbn [sub_spaces forallb].
  destruct (isspace c) eqn:Hc; cbn [andb].
  - destruct (forallb isspace l) eqn:Hl.
    + assert (Hall : forallb isspace (sub_spaces true l) = true)
        by (by rewrite forallb_isspace_sub_spaces).
      destruct b.
      * destruct (sub_spaces true l) as [|x k] eqn:E; [reflexivity|].
        rewrite rstrip_cons, Hall. reflexivity.
      * rewrite rstrip_cons. cbn [forallb]. rewrite Hall. reflexivity.
    + cbn [sub_spaces]. rewrite Hc.
      assert (Hall : forallb isspace (sub_spaces true l) = false)
        by (by rewrite forallb_isspace_sub_spaces).
      destruct b.
      * apply IH.
      * rewrite rstrip_cons. cbn [forallb]. rewrite Hall, andb_false_r.
        by rewrite IH.
  - cbn [sub_spaces]. rewrite Hc, rstrip_cons. cbn [forallb].
    rewrite Hc. cbn [andb]. by rewrite IH.
Qed.

Lemma lstrip_sub_spaces (b : bool) (l : list ascii) :
  lstrip (sub_spaces b l) = sub_spaces false (lstrip l).
Proof.
  revert b. induction l as [|c l IH]; intros b; [reflexivity|].
  cbn [sub_spaces lstrip]. destruct (isspace c) eqn:Hc.
  - destruct b; [apply IH|]. cbn [lstrip].
    replace (isspace " ") with true by reflexivity. apply IH.
  - cbn [lstrip sub_spaces]. by rewrite Hc.
Qed.

Lemma strip_sub_spaces (l : list ascii) :
  strip (sub_spaces false l) = sub_spaces false (strip l).
Proof.
  unfold strip. by rewrite lstrip_sub_spaces, rstrip_sub_spaces.
Qed.


End TextFacts.

(** ** Intake: relevance gate and cross-channel dedup *)

Module IntakeFacts.
Import Repository.

Lemma next_id_above {A} (key : A → option Z) (rows : list A) (r : A) (k : Z) :
  In r rows → key r = Some k → k < next_id key rows.
Proof.
  unfold next_id. induction rows as [|x rows IH]; cbn; [tauto|].
  intros [->|Hin] Hk.
  - rewrite Hk. cbn. lia.
  - specialize (IH Hin Hk). lia.
Qed.

Lemma insert_message_cases (db : t) (msg : Message.t) :
  insert_message db msg = (db, None) ∨
  insert_message db msg =
    (set_messages
       (messages db ++ [Message.set_id (Some (next_id Message.id (messages db))) msg])
       db,
     Some (next_id Message.id (messages db))).
Proof. unfold insert_message. destruct (message_conflicts db msg); auto. Qed.






Lemma _process_message_effect (s : Settings.t) (db : t)
    (incoming : IncomingMessage.t) (answer : Llm.chat_json) :
  Orchestrator.intake_effect db incoming
    (fst (Orchestrator._process_message s db incoming answer))
    (snd (Orchestrator._process_message s db incoming answer)).
Proof.
  unfold Orchestrator._process_message.
  destruct (get_channel_by_telegram_id db _) as [channel|];
    [|constructor; auto].
  destruct (Channel.id channel) as [channel_id|]; [|constructor; auto].
  destruct (insert_message_cases db
              (Orchestrator.incoming_row incoming channel_id)) as [E|E];
    rewrite E; [constructor; auto|].
  destruct (has_lead_with_text_hash _ _) eqn:Hdup;
    [by apply Orchestrator.Effect_stored|].
  destruct (Llm.classify_message answer) as [[result|]|];
    [|by apply Orchestrator.Effect_stored..].
  destruct (Json.as_number _) as [score|]; [|by apply Orchestrator.Effect_stored].
  destruct (Qlt_le_dec _ _); [by apply Orchestrator.Effect_stored|].
  unfold insert_lead.
  destruct (binds _); [|by apply Orchestrator.Effect_stored].
  cbn [fst snd]. by apply Orchestrator.Effect_created.
Qed.










Lemma intake_effect_messages (db db' : t) (incoming : IncomingMessage.t)
    (r : Orchestrator.processed) (m : Message.t) :
  Orchestrator.intake_effect db incoming db' r → In m (messages db) → In m (messages db').
Proof.
  intros [r' _|channel_id r' _ _|channel_id score result db1 _] Hm;
    [exact Hm | cbn; apply in_or_app; by left..].
Qed.

Lemma _processor_loop_messages (s : Settings.t)
    (evs : list Orchestrator.queue_event) (db : t) (m : Message.t) :
  In m (messages db) → In m (messages (Orchestrator._processor_loop s db evs)).
Proof.
  unfold Orchestrator._processor_loop. revert db.
  induction evs as [|ev evs IH]; intros db Hm; [exact Hm|].
  cbn [fold_left]. apply IH. destruct ev as [|incoming answer]; [exact Hm|].
  eapply intake_effect_messages; [apply _process_message_effect | exact Hm].
Qed.









(** C10. An answer of the classifier whose [is_order] is falsy makes
    [classify_message] return [None], so the score is never read: no lead
    is created, whatever the score. *)
Theorem not_an_order_never_a_lead (s : Settings.t) (db : t)
    (incoming : IncomingMessage.t) (d : list (string * Json.value)) :
  Json.get_truthy d "is_order" = false →
  let p :=
    Orchestrator._process_message s db incoming
      (Llm.Decoded (Json.JObj d)) in
  Llm.classify_message (Llm.Decoded (Json.JObj d)) = Return None ∧
  leads (fst p) = leads db ∧
  ∀ i, snd p ≠ Orchestrator.Created i.
Proof.
  intros Hfalsy p.
  assert (Hcls : Llm.classify_message (Llm.Decoded (Json.JObj d)) = Return None)
    by (cbn; by rewrite Hfalsy).
  split; [exact Hcls|].
  unfold p, Orchestrator._process_message.
  destruct (get_channel_by_telegram_id db _) as [channel|]; [|by split].
  destruct (Channel.id channel) as [channel_id|]; [|by split].
  destruct (insert_message_cases db
              (Orchestrator.incoming_row incoming channel_id)) as [E|E];
    rewrite E; [by split|].
  destruct (has_lead_with_text_hash _ _); [by split|].
  rewrite Hcls. by split.
Qed.

Lemma not_an_order_never_a_lead_witness :
  Json.as_number (Orchestrator.score_of Scenario.not_an_order) = Some 0.95%Q ∧
  (Settings.classification_min_relevance Settings.defaults <= 0.95)%Q ∧
  leads (fst (Orchestrator._process_message Settings.defaults Scenario.db0
                Scenario.post_a
                (Llm.Decoded (Json.JObj Scenario.not_an_order)))) = [].
Proof.
  split; [reflexivity|]. split; [vm_compute; discriminate|].
  exact (proj1 (proj2 (not_an_order_never_a_lead Settings.defaults
                         Scenario.db0 Scenario.post_a Scenario.not_an_order
                         eq_refl))).
Defined.

End IntakeFacts.

(** ** Outreach: the daily budget and the state of a contacted lead *)

Module OutreachFacts.
Import Repository.








Lemma _is_outreach_paused_keeps (o : Orchestrator.t) (now : instant) :
  Orchestrator._repo (fst (Orchestrator._is_outreach_paused o now))
  = Orchestrator._repo o ∧
  Orchestrator._rate_limiter (fst (Orchestrator._is_outreach_paused o now))
  = Orchestrator._rate_limiter o.
Proof.
  unfold Orchestrator._is_outreach_paused.
  destruct (Orchestrator._outreach_paused_until o) as [u|]; [|done].
  by destruct (u <=? now).
Qed.
















End OutreachFacts.

(** ** Replies: the forwarding pass *)

Module ForwardingFacts.
Import Repository.

Lemma first_positive_spec (replies : list Reply.t) :
  match Orchestrator.first_positive replies with
  | Some reply =>
      ∃ before after,
        replies = (before ++ reply :: after)%list ∧
        Orchestrator.has_sentiment "positive" reply = true ∧
        Forall (fun r => Orchestrator.has_sentiment "positive" r = false) before
  | None =>
      Forall (fun r => Orchestrator.has_sentiment "positive" r = false) replies
  end.
Proof.
  induction replies as [|r rs IH]; cbn; [constructor|].
  destruct (Orchestrator.has_sentiment "positive" r) eqn:Hr.
  - exists [], rs. by repeat split.
  - destruct (Orchestrator.first_positive rs) as [reply|].
    + destruct IH as (before & after & -> & Hp & Hb).
      exists (r :: before), after. repeat split; [done|]. by constructor.
    + by constructor.
Qed.

Lemma first_positive_some (replies : list Reply.t) :
  (∃ r, In r replies ∧ Orchestrator.has_sentiment "positive" r = true) ↔
  is_Some (Orchestrator.first_positive replies).
Proof.
  pose proof (first_positive_spec replies) as H.
  destruct (Orchestrator.first_positive replies) as [reply|]; split.
  - by eexists.
  - intros _. destruct H as (before & after & -> & Hp & _).
    exists reply. split; [|done]. apply in_or_app. right. by left.
  - intros (r & Hin & Hp). rewrite List.Forall_forall in H.
    rewrite (H r Hin) in Hp. discriminate.
  - intros [? ?]. discriminate.
Qed.

(** [forward_lead], by what it writes and what it sends. *)
Lemma forward_lead_spec (o : Orchestrator.t) (lead : Lead.t) (now : instant) :
  Orchestrator.forward_lead o lead now
  = Orchestrator.set_repo
      (match Orchestrator.forward_write (Orchestrator._repo o) lead now with
       | Some lead' => update_lead (Orchestrator._repo o) lead'
       | None => Orchestrator._repo o
       end)
      (Orchestrator.set_notifier
         (Orchestrator._notifier o
          ++ Orchestrator.forward_notice (Orchestrator._repo o) lead)%list o).
Proof.
  unfold Orchestrator.forward_lead, Orchestrator.forward_write,
    Orchestrator.forward_notice.
  destruct (Orchestrator.first_positive _) as [reply|]; [reflexivity|].
  rewrite app_nil_r. destruct o. by destruct (existsb _ _).
Qed.

Lemma forward_write_id (db : t) (lead lead' : Lead.t) (now : instant) :
  Orchestrator.forward_write db lead now = Some lead' →
  Lead.id lead' = Lead.id lead.
Proof.
  unfold Orchestrator.forward_write.
  destruct (Orchestrator.first_positive _); [by intros [= <-]|].
  destruct (existsb _ _); [by intros [= <-] | discriminate].
Qed.


Lemma find_map_fix {A} (p : A → bool) (f : A → A) (l : list A) :
  (∀ x, p (f x) = p x) → (∀ x, p x = true → f x = x) →
  List.find p (List.map f l) = List.find p l.
Proof.
  intros Hp Hf. induction l as [|x l IH]; [reflexivity|].
  cbn. rewrite Hp. destruct (p x) eqn:Hx; [by rewrite Hf | exact IH].
Qed.

Lemma get_lead_update_other (db : t) (i : Z) (lead : Lead.t) :
  Lead.id lead ≠ Some i →
  get_lead (update_lead db lead) i = get_lead db i.
Proof.
  unfold get_lead, update_lead. cbn [leads set_leads]. intros Hne.
  apply find_map_fix.
  - intros x.
    by destruct (bool_decide (Lead.id x = Lead.id lead ∧ is_Some (Lead.id lead))).
  - intros x Hx. apply bool_decide_eq_true in Hx.
    rewrite bool_decide_eq_false_2; [done|]. intros [Heq _]. congruence.
Qed.

(** Where no notification raises, the pass is the fold of its body. *)
Lemma forward_leads_fold (clock : option Z → instant)
    (raises : option Z → bool) (ls : list Lead.t) :
  (∀ i, raises i = false) →
  ∀ (o : Orchestrator.t),
  Orchestrator.forward_leads o ls clock raises
  = fold_left
      (fun o lead => Orchestrator.forward_lead o lead (clock (Lead.id lead)))
      ls o.
Proof.
  intros Hok. induction ls as [|l ls IH]; intros o; [reflexivity|].
  cbn [Orchestrator.forward_leads fold_left].
  by rewrite Hok, andb_false_r, IH.
Qed.




Lemma NoDup_map_filter {A B} (f : A → B) (q : A → bool) (l : list A) :
  NoDup (List.map f l) → NoDup (List.map f (List.filter q l)).
Proof.
  induction l as [|a l IH]; [done|]. cbn. intros Hnd.
  inversion Hnd as [|? ? Hnotin Hnd']; subst.
  destruct (q a); [|by apply IH]. cbn. constructor; [|by apply IH].
  intros Hin. apply Hnotin. apply list_elem_of_In in Hin.
  apply in_map_iff in Hin as (y & Hy & Hin). apply filter_In in Hin as [Hin _].
  apply list_elem_of_In. rewrite <- Hy. by apply in_map.
Qed.



End ForwardingFacts.

(** ** Janitor: the dead-channel sweep *)

Module JanitorFacts.
Import Repository.

#[local] Set Warnings "-clear-no-such-hyp".

Lemma keyed_inj {A} (key : A → option Z) (rows : list A) (a b : A) :
  keyed key rows → In a rows → In b rows → key a = key b → a = b.
Proof.
  intros [Hnd _]. induction rows as [|r rows IH]; [done|].
  cbn in Hnd. inversion Hnd as [|? ? Hnotin Hnd']; subst.
  intros [->|Ha] [->|Hb] Heq; [done | | |by apply IH].
  - exfalso. apply Hnotin. rewrite Heq. apply list_elem_of_In. by apply in_map.
  - exfalso. apply Hnotin. rewrite <- Heq. apply list_elem_of_In.
    by apply in_map.
Qed.








End JanitorFacts.

(** ** Discovery: the capacity ceiling *)

Module DiscoveryFacts.
Import DiscoveryService.

Lemma _try_register_full (s : Settings.t) (d : t) (telegram_id : Z)
    (source : string) (username title : option string) (e : register_env) :
  _at_capacity s d = true →
  _try_register s d telegram_id source username title e = (d, false).
Proof.
  intros Hfull. unfold _try_register. rewrite Hfull.
  by destruct (bool_decide _ || bool_decide _).
Qed.

Lemma search_keywords_full (s : Settings.t) (acc : t * nat)
    (keywords : list string) (search : string → option (list found_chat)) :
  _at_capacity s (fst acc) = true →
  search_keywords s acc keywords search = acc.
Proof. intros Hfull. destruct keywords; cbn; [done|]. by rewrite Hfull. Qed.

Lemma scan_forwards_full (s : Settings.t) (acc : t * nat) (chat : string)
    (msgs : list scanned_message) :
  _at_capacity s (fst acc) = true → scan_forwards s acc chat msgs = acc.
Proof. intros Hfull. destruct msgs; cbn; [done|]. by rewrite Hfull. Qed.

Lemma scan_mentions_full (s : Settings.t) (acc : t * nat) (chat : string)
    (mentions : list (option found_chat)) :
  _at_capacity s (fst acc) = true → scan_mentions s acc chat mentions = acc.
Proof. intros Hfull. destruct mentions; cbn; [done|]. by rewrite Hfull. Qed.

Lemma extract_from_description_full (s : Settings.t) (d : t) (chat : string)
    (e : description_env) :
  _at_capacity s d = true → extract_from_description s d chat e = (d, O).
Proof.
  intros Hfull. unfold extract_from_description.
  destruct (de_is_channel e) as [[]|]; [|done..].
  by apply scan_mentions_full.
Qed.

Lemma scan_known_full (s : Settings.t) (step : t → Z → t * nat) (d : t)
    (n : nat) (ids : list Z) :
  _at_capacity s d = true → (∀ chat_id, step d chat_id = (d, O)) →
  scan_known s step (d, n) ids = (d, n).
Proof.
  intros Hfull Hstep. destruct ids as [|chat_id rest]; cbn; [done|].
  rewrite Hstep, Hfull. by rewrite Nat.add_0_r.
Qed.

(** C5. Once the known ids fill the capacity, [_try_register] returns
    [False] for every candidate and leaves the engine, the database and the
    collector as they were, whatever the validation would answer; each of
    the three strategies stops at its first capacity check, having
    registered nothing; and so does a full cycle, which only replaces the
    generated keywords. *)
Theorem discovery_capacity (s : Settings.t) (d : t) :
  _at_capacity s d = true →
  (∀ telegram_id source username title e,
     _try_register s d telegram_id source username title e = (d, false)) ∧
  (∀ search, search_by_keywords s d search = (d, O)) ∧
  (∀ chat msgs, extract_from_forwards s d chat msgs = (d, O)) ∧
  (∀ chat e, extract_from_description s d chat e = (d, O)) ∧
  (∀ generated search forwards descriptions,
     run_cycle s d generated search forwards descriptions
     = (set_generated_keywords generated d, O)).
Proof.
  intros Hfull. split; [|split; [|split; [|split]]].
  - intros. by apply _try_register_full.
  - intros. by apply search_keywords_full.
  - intros. by apply scan_forwards_full.
  - intros. by apply extract_from_description_full.
  - intros generated search forwards descriptions. unfold run_cycle.
    set (d' := set_generated_keywords generated d).
    assert (Hfull' : _at_capacity s d' = true) by exact Hfull.
    unfold search_by_keywords.
    rewrite (search_keywords_full s (d', O)) by exact Hfull'. cbn [fst].
    assert (Hf : (if Settings.discovery_scan_forwards s
                  then scan_known s
                         (fun d0 chat_id =>
                            extract_from_forwards s d0 (pretty chat_id)
                              (forwards chat_id))
                         (d', O) (elements (_known_ids d'))
                  else (d', O)) = (d', O)).
    { destruct (Settings.discovery_scan_forwards s); [|done].
      apply scan_known_full; [done|]. intros chat_id.
      by apply scan_forwards_full. }
    rewrite Hf. cbn [fst].
    destruct (Settings.discovery_scan_descriptions s); [|done].
    apply scan_known_full; [done|]. intros chat_id.
    by apply extract_from_description_full.
Qed.

Lemma discovery_capacity_witness :
  DiscoveryService._validate_channel
    (re_validate Scenario.relevant_candidate) = true ∧
  snd (_try_register Settings.defaults Scenario.discovery0 999
         "search:freelance jobs" (Some "new_jobs") (Some "New jobs")
         Scenario.relevant_candidate) = true ∧
  _try_register Scenario.two_channels Scenario.discovery0 999
    "search:freelance jobs" (Some "new_jobs") (Some "New jobs")
    Scenario.relevant_candidate
  = (Scenario.discovery0, false).
Proof.
  split; [vm_compute; reflexivity|]. split; [vm_compute; reflexivity|].
  apply (discovery_capacity Scenario.two_channels Scenario.discovery0).
  vm_compute. reflexivity.
Defined.

(** The known ids only grow, and never beyond a bound that the capacity
    and their present number respect. *)
Lemma _try_register_bounded (s : Settings.t) (d : t) (telegram_id : Z)
    (source : string) (username title : option string) (e : register_env)
    (bound : Z) :
  Settings.discovery_max_channels s ≤ bound →
  Z.of_nat (size (_known_ids d)) ≤ bound →
  Z.of_nat
    (size (_known_ids
             (fst (_try_register s d telegram_id source username title e))))
  ≤ bound.
Proof.
  intros Hmax Hsize. unfold _try_register.
  destruct (bool_decide (telegram_id ∈ _known_ids d)) eqn:Hk; [done|].
  apply bool_decide_eq_false in Hk.
  destruct (bool_decide (telegram_id ∈ _rejected_ids d)); [done|].
  cbn [orb]. unfold _at_capacity.
  destruct (Z.leb_spec (Settings.discovery_max_channels s)
              (Z.of_nat (size (_known_ids d)))) as [|Hroom]; [done|].
  assert (Hadd : Z.of_nat (size ({[telegram_id]} ∪ _known_ids d)) ≤ bound).
  { rewrite size_union by set_solver. rewrite size_singleton. lia. }
  destruct (Repository.get_channel_by_telegram_id _ _); [done|].
  destruct (if blank username && blank title then re_entity e
            else Some (username, title)) as [[u t']|]; [|done].
  by destruct (negb (_validate_channel (re_validate e))).
Qed.

Lemma offer_within (s : Settings.t) (bound : Z) (acc : t * nat)
    (source : string) (telegram_id : Z) (username title : option string)
    (e : register_env) :
  within s bound acc →
  within s bound (offer s acc source telegram_id username title e).
Proof.
  intros [Hmax Hsize]. unfold offer.
  pose proof (_try_register_bounded s (fst acc) telegram_id source username
                title e bound Hmax Hsize) as H.
  destruct (_try_register _ _ _ _ _ _ _) as [d' added]. by split.
Qed.

Lemma register_found_within (s : Settings.t) (bound : Z) (source : string)
    (acc : t * nat) (chat : found_chat) :
  within s bound acc → within s bound (register_found s source acc chat).
Proof.
  intros H. unfold register_found.
  destruct (negb (fc_is_channel chat) || fc_megagroup chat); [done|].
  by apply offer_within.
Qed.

Lemma search_keywords_within (s : Settings.t) (bound : Z)
    (search : string → option (list found_chat)) (keywords : list string) :
  ∀ acc, within s bound acc →
         within s bound (search_keywords s acc keywords search).
Proof.
  induction keywords as [|k ks IH]; intros acc H; cbn; [done|].
  destruct (_at_capacity s (fst acc)); [done|]. apply IH.
  destruct (search k) as [chats|]; [|done].
  revert acc H. induction chats as [|c cs IHc]; intros acc H; cbn; [done|].
  apply IHc. by apply register_found_within.
Qed.

Lemma scan_forwards_within (s : Settings.t) (bound : Z) (chat : string)
    (msgs : list scanned_message) :
  ∀ acc, within s bound acc → within s bound (scan_forwards s acc chat msgs).
Proof.
  induction msgs as [|m ms IH]; intros acc H; cbn; [done|].
  destruct (_at_capacity s (fst acc)); [done|].
  destruct (sm_forward_source m); apply IH; [by apply offer_within | done].
Qed.

Lemma scan_mentions_within (s : Settings.t) (bound : Z) (chat : string)
    (mentions : list (option found_chat)) :
  ∀ acc, within s bound acc →
         within s bound (scan_mentions s acc chat mentions).
Proof.
  induction mentions as [|m ms IH]; intros acc H; cbn; [done|].
  destruct (_at_capacity s (fst acc)); [done|].
  destruct m; apply IH; [by apply register_found_within | done].
Qed.

Lemma scan_known_within (s : Settings.t) (bound : Z)
    (step : t → Z → t * nat) (ids : list Z) :
  (∀ d chat_id, within s bound (d, O) → within s bound (step d chat_id)) →
  ∀ acc, within s bound acc → within s bound (scan_known s step acc ids).
Proof.
  intros Hstep. induction ids as [|i ids IH]; intros acc H; cbn; [done|].
  pose proof (Hstep (fst acc) i H) as H'.
  destruct (step (fst acc) i) as [d' n].
  destruct (_at_capacity s d'); [done|]. by apply IH.
Qed.

(** However many candidates a full cycle meets, the known ids never
    outgrow the larger of the capacity and their number before it. *)
Lemma run_cycle_bounded (s : Settings.t) (d : t) (generated : list string)
    (search : string → option (list found_chat))
    (forwards : Z → list scanned_message)
    (descriptions : Z → description_env) :
  Z.of_nat
    (size (_known_ids
             (fst (run_cycle s d generated search forwards descriptions))))
  ≤ Z.max (Settings.discovery_max_channels s) (Z.of_nat (size (_known_ids d))).
Proof.
  set (bound := Z.max _ _).
  assert (H0 : within s bound (set_generated_keywords generated d, O))
    by (split; cbn; lia).
  unfold run_cycle.
  pose proof (search_keywords_within s bound search
                (_get_all_keywords s (set_generated_keywords generated d))
                _ H0) as H1.
  fold (search_by_keywords s (set_generated_keywords generated d) search) in H1.
  set (acc1 := search_by_keywords s _ search) in *.
  assert (H2 : within s bound
            (if Settings.discovery_scan_forwards s
             then scan_known s
                    (fun d0 chat_id =>
                       extract_from_forwards s d0 (pretty chat_id)
                         (forwards chat_id))
                    acc1 (elements (_known_ids (fst acc1)))
             else acc1)).
  { destruct (Settings.discovery_scan_forwards s); [|done].
    apply scan_known_within; [|done]. intros d0 chat_id Hd.
    by apply scan_forwards_within. }
  destruct (Settings.discovery_scan_descriptions s); [|apply H2].
  apply scan_known_within; [|done]. intros d0 chat_id Hd.
  unfold extract_from_description.
  destruct (de_is_channel (descriptions chat_id)) as [[]|]; [|done..].
  by apply scan_mentions_within.
Qed.

End DiscoveryFacts.

(** * Further properties *)

(** ** The repository: round trips *)

Module RepositoryFacts.
Import Repository.

Lemma next_id_fresh {A} (key : A → option Z) (rows : list A) :
  List.find (fun r => bool_decide (key r = Some (next_id key rows))) rows = None.
Proof.
  destruct (List.find _ rows) as [r|] eqn:Hf; [|done].
  apply List.find_some in Hf as [Hin Hk].
  apply bool_decide_eq_true in Hk.
  pose proof (IntakeFacts.next_id_above key rows r _ Hin Hk). lia.
Qed.

Lemma find_app_new {A} (p : A → bool) (rows : list A) (row : A) :
  List.find p rows = None → p row = true →
  List.find p (rows ++ [row]) = Some row.
Proof.
  induction rows as [|r rows IH]; simpl; intros Hf Hp.
  - by rewrite Hp.
  - destruct (p r); [done|]. by apply IH.
Qed.

Lemma find_app_old {A} (p : A → bool) (rows : list A) (row : A) :
  p row = false → List.find p (rows ++ [row]) = List.find p rows.
Proof.
  induction rows as [|r rows IH]; simpl; intros Hp.
  - by rewrite Hp.
  - destruct (p r); [done|]. by apply IH.
Qed.

(** X1. A stored message is found again under the id [insert_message]
    returned, every other id finds what it found before, and inserting
    the same (channel, platform id) pair again is refused and changes
    nothing. *)
Theorem insert_message_get_message (db db' : t) (msg : Message.t) (i : Z) :
  insert_message db msg = (db', Some i) →
  get_message db i = None ∧
  get_message db' i = Some (Message.set_id (Some i) msg) ∧
  (∀ j, j ≠ i → get_message db' j = get_message db j) ∧
  ∀ again,
    Message.channel_id again = Message.channel_id msg →
    Message.telegram_msg_id again = Message.telegram_msg_id msg →
    insert_message db' again = (db', None).
Proof.
  unfold insert_message. destruct (message_conflicts db msg) eqn:Hc; [done|].
  intros [= <- <-].
  assert (Hfresh : get_message db (next_id Message.id (messages db)) = None)
    by apply next_id_fresh.
  split; [done|]. split; [|split].
  - unfold get_message in *. simpl. apply find_app_new; [done|].
    by apply bool_decide_eq_true.
  - intros j Hj. unfold get_message. simpl. apply find_app_old.
    apply bool_decide_eq_false. simpl. congruence.
  - intros again Hch Hid. unfold message_conflicts at 1. simpl.
    rewrite existsb_app. simpl. rewrite Hch, Hid.
    rewrite !bool_decide_eq_true_2 by done. simpl.
    by rewrite orb_true_r.
Qed.

Lemma insert_message_get_message_witness :
  get_message Scenario.db0 1 = None ∧
  get_message
    (fst (insert_message Scenario.db0
            (Orchestrator.incoming_row Scenario.post_a 1))) 1
  = Some (Message.set_id (Some 1)
            (Orchestrator.incoming_row Scenario.post_a 1)) ∧
  insert_message
    (fst (insert_message Scenario.db0
            (Orchestrator.incoming_row Scenario.post_a 1)))
    (Message.mk None 11 1 None None None None None)
  = (fst (insert_message Scenario.db0
            (Orchestrator.incoming_row Scenario.post_a 1)), None).
Proof.
  pose proof (insert_message_get_message Scenario.db0
    (fst (insert_message Scenario.db0
            (Orchestrator.incoming_row Scenario.post_a 1)))
    (Orchestrator.incoming_row Scenario.post_a 1) 1 eq_refl)
    as (H1 & H2 & _ & H4).
  refine (conj H1 (conj H2 _)).
  exact (H4 (Message.mk None 11 1 None None None None None) eq_refl eq_refl).
Defined.

Lemma find_map_hit {A} (p : A → bool) (f : A → A) (l : list A) (x : A) :
  (∀ y, p (f y) = p y) → List.find p l = Some x →
  List.find p (List.map f l) = Some (f x).
Proof.
  intros Hp. induction l as [|y l IH]; simpl; [done|].
  rewrite Hp. destruct (p y); [congruence|done].
Qed.

Lemma find_map_miss {A} (p : A → bool) (f : A → A) (l : list A) :
  (∀ y, p (f y) = p y) → (∀ y, p y = true → f y = y) →
  List.find p (List.map f l) = List.find p l.
Proof.
  intros Hp Hf. induction l as [|y l IH]; simpl; [done|].
  rewrite Hp. destruct (p y) eqn:Hy; [by rewrite Hf|done].
Qed.

(** X2. After [upsert_channel] the channel is found by its platform id
    with the name, title and activity flag just given, and the id returned
    is that row's. A row that was already there keeps its id and its
    discovery source and date, and no row is added; otherwise one row is
    appended under a fresh id. Channels with another platform id are found
    as before. *)
Theorem upsert_channel_lookup (db : t) (ch : Channel.t) (tid : Z) :
  Channel.telegram_id ch = Some tid →
  let db' := fst (upsert_channel db ch) in
  ∃ row,
    get_channel_by_telegram_id db' tid = Some row ∧
    snd (upsert_channel db ch) = Channel.id row ∧
    Channel.telegram_id row = Some tid ∧
    Channel.username row = Channel.username ch ∧
    Channel.title row = Channel.title ch ∧
    Channel.is_active row = Channel.is_active ch ∧
    match get_channel_by_telegram_id db tid with
    | Some old =>
        Channel.id row = Channel.id old ∧
        Channel.discovered_from row = Channel.discovered_from old ∧
        Channel.discovered_at row = Channel.discovered_at old ∧
        List.length (channels db') = List.length (channels db)
    | None =>
        row = Channel.set_id (Some (next_id Channel.id (channels db))) ch ∧
        channels db' = (channels db ++ [row])%list
    end ∧
    ∀ other, other ≠ tid →
      get_channel_by_telegram_id db' other
      = get_channel_by_telegram_id db other.
Proof.
  intros Htid. unfold upsert_channel. rewrite Htid.
  destruct (get_channel_by_telegram_id db tid) as [old|] eqn:Hold; simpl.
  - set (upd := fun c : Channel.t => if bool_decide (Channel.telegram_id c = Some tid)
                 then _ else c).
    assert (Hsame : ∀ other y,
      bool_decide (Channel.telegram_id (upd y) = Some other)
      = bool_decide (Channel.telegram_id y = Some other)).
    { intros other y. unfold upd.
      by destruct (bool_decide (Channel.telegram_id y = Some tid)). }
    exists (upd old).
    pose proof Hold as Hold'. unfold get_channel_by_telegram_id in Hold'.
    apply List.find_some in Hold' as [_ Hk]. apply bool_decide_eq_true in Hk.
    split.
    { unfold get_channel_by_telegram_id. simpl.
      apply (find_map_hit _ upd); [intros y; apply Hsame|exact Hold]. }
    unfold upd at 1 2 3 4 5 6 7 8 9.
    rewrite !bool_decide_eq_true_2 by done. simpl.
    repeat split; try done.
    + by rewrite length_map.
    + intros other Hother. unfold get_channel_by_telegram_id. simpl.
      apply find_map_miss; [intros y; apply Hsame|].
      intros y Hy. apply bool_decide_eq_true in Hy. unfold upd.
      rewrite bool_decide_eq_false_2; [done|congruence].
  - exists (Channel.set_id (Some (next_id Channel.id (channels db))) ch).
    split.
    { unfold get_channel_by_telegram_id in *. simpl.
      apply find_app_new; [done|]. by apply bool_decide_eq_true. }
    repeat split; try done.
    intros other Hother. unfold get_channel_by_telegram_id. simpl.
    apply find_app_old. apply bool_decide_eq_false. simpl. congruence.
Qed.

Lemma upsert_channel_lookup_witness :
  ∃ row,
    get_channel_by_telegram_id
      (fst (upsert_channel Scenario.db_channels
              (Channel.mk None (Some 100) (Some "jobs_new") (Some "Jobs")
                 false (Some "seed") None))) 100 = Some row ∧
    Channel.id row = Some 1 ∧
    Channel.username row = Some "jobs_new" ∧
    Channel.is_active row = false ∧
    Channel.discovered_from row = Some "search:freelance jobs" ∧
    Channel.discovered_at row = Some Scenario.t0.
Proof.
  destruct (upsert_channel_lookup Scenario.db_channels
    (Channel.mk None (Some 100) (Some "jobs_new") (Some "Jobs") false
       (Some "seed") None) 100 eq_refl)
    as (row & H1 & _ & _ & H4 & _ & H6 & H7 & _).
  exists row. change (get_channel_by_telegram_id Scenario.db_channels 100)
    with (Some (Channel.mk (Some 1) (Some 100) (Some "jobs_a") (Some "Jobs A")
                  true (Some "search:freelance jobs") (Some Scenario.t0))) in H7.
  destruct H7 as (H7 & H8 & H9 & _).
  refine (conj H1 (conj H7 (conj H4 (conj H6 (conj H8 H9))))).
Defined.

Lemma increments_budget (db : t) (today : Z) (row : budget_row) (k : nat) :
  daily_budget db !! today = Some row →
  let db' := Nat.iter k (fun db => increment_daily_sends db today) db in
  daily_budget db' !! today
  = Some {| row_sends_used := row_sends_used row + Z.of_nat k;
            row_max_sends := row_max_sends row |} ∧
  ∀ d, d ≠ today → daily_budget db' !! d = daily_budget db !! d.
Proof.
  intros Hrow. induction k as [|k [IH1 IH2]].
  - simpl. rewrite Z.add_0_r. split; [by destruct row|done].
  - cbn zeta. rewrite Nat.iter_succ. unfold increment_daily_sends at 1 3.
    cbv zeta in IH1. rewrite IH1. simpl. split.
    + rewrite lookup_insert_eq. do 2 f_equal. lia.
    + intros d Hd. rewrite lookup_insert_ne by done. by apply IH2.
Qed.

(** X3. The allowance of a date is fixed by the first [get_daily_budget]
    of that date: after it and any number of [increment_daily_sends], a
    later call with whatever limit writes nothing and returns the first
    allowance, with a counter that is the first one plus the number of
    increments. Rows of other dates are not touched. *)
Theorem get_daily_budget_first_call_fixes (db : t) (today limit later : Z)
    (k : nat) :
  let first := get_daily_budget db today limit in
  let db1 := Nat.iter k (fun db => increment_daily_sends db today) (fst first) in
  let again := get_daily_budget db1 today later in
  fst again = db1 ∧
  snd again
  = DailyBudget.mk today
      (DailyBudget.sends_used (snd first) + Z.of_nat k)
      (DailyBudget.max_sends (snd first)) ∧
  (daily_budget db !! today = None → snd first = DailyBudget.mk today 0 limit) ∧
  ∀ d, d ≠ today → daily_budget db1 !! d = daily_budget db !! d.
Proof.
  intros first db1 again.
  assert (Hrow : daily_budget (fst first) !! today
    = Some {| row_sends_used := DailyBudget.sends_used (snd first);
              row_max_sends := DailyBudget.max_sends (snd first) |}
    ∧ ∀ d, d ≠ today → daily_budget (fst first) !! d = daily_budget db !! d).
  { unfold first, get_daily_budget.
    destruct (daily_budget db !! today) as [row|] eqn:E; simpl.
    - rewrite E. split; [by destruct row|done].
    - rewrite lookup_insert_eq. split; [done|].
      intros d Hd. by rewrite lookup_insert_ne. }
  destruct Hrow as [Hrow Hother].
  destruct (increments_budget (fst first) today _ k Hrow) as [H1 H2].
  fold db1 in H1, H2. simpl in H1.
  unfold again, get_daily_budget. rewrite H1. simpl.
  repeat split; try done.
  - intros E. unfold first, get_daily_budget. by rewrite E.
  - intros d Hd. rewrite H2 by done. by apply Hother.
Qed.

(** X4. [insert_reply] puts the reply last among the replies of its lead,
    under the id it returns and with the fields given, and leaves the
    replies of every other lead as they were: [get_replies_for_lead]
    returns the replies of a lead in the order of their insertion. *)
Theorem insert_reply_is_last (db : t) (reply : Reply.t) :
  let db' := fst (insert_reply db reply) in
  let row :=
    Reply.mk (Some (snd (insert_reply db reply))) (Reply.lead_id reply)
      (Reply.telegram_msg_id reply) (Reply.sender_id reply)
      (Reply.text reply) (Reply.sentiment reply) (Reply.received_at reply) in
  get_replies_for_lead db' (Some (Reply.lead_id reply))
  = (get_replies_for_lead db (Some (Reply.lead_id reply)) ++ [row])%list ∧
  (∀ r, In r (replies db) → Reply.id r ≠ Reply.id row) ∧
  ∀ other, other ≠ Some (Reply.lead_id reply) →
    get_replies_for_lead db' other = get_replies_for_lead db other.
Proof.
  unfold insert_reply, get_replies_for_lead. simpl. split; [|split].
  - rewrite List.filter_app. simpl. by rewrite bool_decide_eq_true_2.
  - intros r Hin Heq. simpl in Heq.
    pose proof (IntakeFacts.next_id_above Reply.id (replies db) r _ Hin Heq).
    lia.
  - intros other Hother. rewrite List.filter_app. simpl.
    rewrite bool_decide_eq_false_2 by congruence. by rewrite app_nil_r.
Qed.

End RepositoryFacts.

(** ** The intake: what it adds and what it leaves *)

Module IngestionFacts.
Import Repository.

Lemma grown_refl (s : Settings.t) (db : t) : Orchestrator.grown s db db.
Proof.
  repeat split; try done.
  - exists []. by rewrite app_nil_r.
  - exists []. by rewrite app_nil_r.
Qed.

Lemma grown_trans (s : Settings.t) (a b c : t) :
  Orchestrator.grown s a b → Orchestrator.grown s b c → Orchestrator.grown s a c.
Proof.
  intros ([m1 Hm1] & (l1 & Hl1 & F1) & Hc1 & Hr1 & Hb1)
         ([m2 Hm2] & (l2 & Hl2 & F2) & Hc2 & Hr2 & Hb2).
  repeat split; try congruence.
  - exists (m1 ++ m2)%list. by rewrite Hm2, Hm1, <- app_assoc.
  - exists (l1 ++ l2)%list. split.
    + by rewrite Hl2, Hl1, <- app_assoc.
    + by apply Forall_app.
Qed.

Lemma _process_message_grown (s : Settings.t) (db : t)
    (incoming : IncomingMessage.t) (answer : Llm.chat_json) :
  Orchestrator.grown s db (fst (Orchestrator._process_message s db incoming answer)).
Proof.
  unfold Orchestrator._process_message.
  destruct (get_channel_by_telegram_id db _) as [channel|];
    [|apply grown_refl].
  destruct (Channel.id channel) as [channel_id|]; [|apply grown_refl].
  destruct (IntakeFacts.insert_message_cases db
              (Orchestrator.incoming_row incoming channel_id)) as [E|E];
    rewrite E; [apply grown_refl|].
  set (db1 := set_messages _ db).
  assert (G1 : Orchestrator.grown s db db1).
  { repeat split; try done.
    - by eexists.
    - exists []. by rewrite app_nil_r. }
  destruct (has_lead_with_text_hash _ _); [done|].
  destruct (Llm.classify_message answer) as [[result|]|]; [|done..].
  destruct (Json.as_number _) as [score|]; [|done].
  destruct (Qlt_le_dec _ _) as [|Hle]; [done|].
  unfold insert_lead. destruct (binds _); [|done].
  cbn [fst]. apply (grown_trans s db db1); [done|].
  repeat split; try done.
  - exists []. by rewrite app_nil_r.
  - eexists. split; [done|]. constructor; [|constructor].
    split; [done|]. by exists score.
Qed.

(** X5. The intake only appends: whatever the queue delivers and the
    classifier answers, the messages and leads that were stored stay as
    they are and in place, channels, replies and budgets are not written,
    and every lead the loop adds has status [new] and a relevance score of
    at least [classification_min_relevance]. *)
Theorem _processor_loop_appends (s : Settings.t)
    (evs : list Orchestrator.queue_event) (db : t) :
  let db' := Orchestrator._processor_loop s db evs in
  (∃ ms, messages db' = (messages db ++ ms)%list) ∧
  (∃ ls, leads db' = (leads db ++ ls)%list ∧
     Forall (fun l =>
       Lead.status l = "new" ∧
       ∃ score, Lead.relevance_score l = Some score ∧
         (Settings.classification_min_relevance s <= score)%Q) ls) ∧
  channels db' = channels db ∧ replies db' = replies db ∧
  daily_budget db' = daily_budget db.
Proof.
  change (Orchestrator.grown s db (Orchestrator._processor_loop s db evs)).
  unfold Orchestrator._processor_loop.
  revert db. induction evs as [|ev evs IH]; intros db; simpl.
  - apply grown_refl.
  - apply (grown_trans s db (Orchestrator.processor_step s db ev)); [|apply IH].
    destruct ev as [|incoming answer]; simpl.
    + apply grown_refl.
    + apply _process_message_grown.
Qed.

Lemma keyed_app_next {A} (key : A → option Z) (rows : list A) (row : A) :
  keyed key rows → key row = Some (next_id key rows) →
  keyed key (rows ++ [row]).
Proof.
  intros [Hnd Hsome] Hrow. split.
  - rewrite map_app. apply NoDup_app. split; [done|]. split.
    + intros k Hk Hk'. simpl in Hk'. apply list_elem_of_singleton in Hk'.
      subst k. apply list_elem_of_In, in_map_iff in Hk as (r & Hr & Hin).
      rewrite Hrow in Hr.
      pose proof (IntakeFacts.next_id_above key rows r _ Hin Hr). lia.
    + simpl. apply NoDup_singleton.
  - intros r Hin. apply in_app_or in Hin as [Hin|[<-|[]]]; [by apply Hsome|].
    by rewrite Hrow.
Qed.

Lemma intake_effect_keyed (db db' : t) (incoming : IncomingMessage.t)
    (r : Orchestrator.processed) :
  Orchestrator.intake_effect db incoming db' r →
  keyed Message.id (messages db) → keyed Lead.id (leads db) →
  keyed Message.id (messages db') ∧ keyed Lead.id (leads db').
Proof.
  intros He Hm Hl. destruct He; simpl.
  - done.
  - split; [|done]. by apply keyed_app_next.
  - split; by apply keyed_app_next.
Qed.

(** X6. Row ids stay unique through the intake: if every stored message
    and lead has an id of its own, the same holds after the processor loop
    has run on any events. *)
Theorem _processor_loop_keyed (s : Settings.t)
    (evs : list Orchestrator.queue_event) (db : t) :
  keyed Message.id (messages db) → keyed Lead.id (leads db) →
  keyed Message.id (messages (Orchestrator._processor_loop s db evs)) ∧
  keyed Lead.id (leads (Orchestrator._processor_loop s db evs)).
Proof.
  unfold Orchestrator._processor_loop.
  revert db. induction evs as [|ev evs IH]; intros db Hm Hl; simpl; [done|].
  destruct ev as [|incoming answer]; simpl; [by apply IH|].
  pose proof (IntakeFacts._process_message_effect s db incoming answer) as He.
  destruct (intake_effect_keyed _ _ _ _ He Hm Hl). by apply IH.
Qed.

Lemma keyed_nil {A} (key : A → option Z) : keyed key [].
Proof. split; [constructor|intros r []]. Qed.

Lemma _processor_loop_keyed_witness :
  List.map Message.id (messages Scenario.db_three_leads)
  = [Some 1; Some 2; Some 3] ∧
  keyed Message.id (messages Scenario.db_three_leads) ∧
  keyed Lead.id (leads Scenario.db_three_leads).
Proof.
  split; [vm_compute; reflexivity|].
  exact (_processor_loop_keyed Settings.defaults
           [ Orchestrator.Got Scenario.post_a (Scenario.order 0.8);
             Orchestrator.Got Scenario.post_c (Scenario.order 0.9);
             Orchestrator.Got Scenario.post_d (Scenario.order 0.7) ]
           Scenario.db0 (keyed_nil _) (keyed_nil _)).
Defined.

Lemma message_conflicts_after (s : Settings.t) (db : t)
    (incoming : IncomingMessage.t) (answer : Llm.chat_json)
    (channel : Channel.t) (channel_id : Z) :
  get_channel_by_telegram_id db (IncomingMessage.chat_id incoming)
  = Some channel →
  Channel.id channel = Some channel_id →
  message_conflicts
    (fst (Orchestrator._process_message s db incoming answer))
    (Orchestrator.incoming_row incoming channel_id) = true.
Proof.
  intros Hch Hid. unfold Orchestrator._process_message. rewrite Hch, Hid.
  unfold insert_message.
  destruct (message_conflicts db _) eqn:Hc; [done|].
  set (db1 := set_messages _ db).
  assert (H1 : message_conflicts db1
                 (Orchestrator.incoming_row incoming channel_id) = true).
  { unfold message_conflicts, db1. simpl. rewrite existsb_app. simpl.
    rewrite !bool_decide_eq_true_2 by done. simpl. by rewrite orb_true_r. }
  destruct (has_lead_with_text_hash _ _); [done|].
  destruct (Llm.classify_message answer) as [[result|]|]; [|done..].
  destruct (Json.as_number _) as [score|]; [|done].
  destruct (Qlt_le_dec _ _); [done|].
  unfold insert_lead. by destruct (binds _).
Qed.

(** X7. Idempotent re-ingestion: once a message has been through
    [_process_message], delivering the same message again, at once or
    after any other events, writes nothing; the call ends at the unknown
    channel or at the duplicate (channel, message id) pair, before the
    classifier is asked. *)
Theorem reingestion_is_dropped (s : Settings.t) (db : t)
    (incoming : IncomingMessage.t) (a1 a2 : Llm.chat_json)
    (evs : list Orchestrator.queue_event) :
  let p1 := Orchestrator._process_message s db incoming a1 in
  let db' := Orchestrator._processor_loop s (fst p1) evs in
  let p2 := Orchestrator._process_message s db' incoming a2 in
  fst p2 = db' ∧
  (snd p2 = Orchestrator.Unknown_channel ∨
   snd p2 = Orchestrator.Duplicate_message).
Proof.
  intros p1 db' p2.
  assert (Hch : channels db' = channels db).
  { pose proof (_processor_loop_appends s evs (fst p1)) as (_ & _ & H & _).
    fold db' in H. rewrite H.
    by pose proof (_process_message_grown s db incoming a1) as (_ & _ & H' & _). }
  assert (Hlook : get_channel_by_telegram_id db'
                    (IncomingMessage.chat_id incoming)
                  = get_channel_by_telegram_id db
                      (IncomingMessage.chat_id incoming)).
  { unfold get_channel_by_telegram_id. by rewrite Hch. }
  assert (Hp2 : p2 = (db', Orchestrator.Unknown_channel)
                ∨ p2 = (db', Orchestrator.Duplicate_message)).
  { unfold p2, Orchestrator._process_message. rewrite Hlook.
    destruct (get_channel_by_telegram_id db _) as [channel|] eqn:Hc; [|auto].
    destruct (Channel.id channel) as [channel_id|] eqn:Hid; [|auto].
    pose proof (message_conflicts_after s db incoming a1 _ _ Hc Hid) as Hcf.
    fold p1 in Hcf.
    assert (Hcf' : message_conflicts db'
                     (Orchestrator.incoming_row incoming channel_id) = true).
    { unfold message_conflicts in *.
      apply existsb_exists in Hcf as (m & Hin & Hm).
      apply existsb_exists. exists m. split; [|done].
      by apply IntakeFacts._processor_loop_messages. }
    unfold insert_message. rewrite Hcf'. auto. }
  destruct Hp2 as [-> | ->]; simpl; auto.
Qed.

End IngestionFacts.

(** ** Sending: retries and the result of an outreach *)

Module SenderFacts.
Import Sender.

Lemma retry_on_flood_skip (left : nat) (k : nat) (call : nat → attempt)
    (seconds : Z) :
  call k = Flood_wait seconds → (0 < left)%nat →
  retry_on_flood (S left) k call = retry_on_flood left (S k) call.
Proof.
  intros Hc Hl. simpl. rewrite Hc. destruct left; [lia|done].
Qed.

(** X8. [retry_on_flood] makes at most [max_retries] attempts. It returns
    what the first attempt that meets no flood wait does: the id of a
    delivered message, [None] for the refusal the method catches, the
    peer-flood or other error raised. After [max_retries] flood waits in a
    row it raises the last of them. Attempts past [max_retries] are never
    made: two runs that agree on the first [max_retries] attempts end the
    same. *)
Theorem retry_on_flood_attempts (max_retries first : nat)
    (call : nat → attempt) :
  (∀ n, (n < max_retries)%nat →
     (∀ j, (j < n)%nat → ∃ seconds, call (first + j)%nat = Flood_wait seconds) →
     (∀ seconds, call (first + n)%nat ≠ Flood_wait seconds) →
     retry_on_flood max_retries first call
     = match call (first + n)%nat with
       | Delivered msg_id => inl (Some msg_id)
       | Refused => inl None
       | Peer_flood_error => inr PeerFloodError
       | Flood_wait _ | Other_error => inr OtherError
       end) ∧
  ((0 < max_retries)%nat →
   (∀ j, (j < max_retries)%nat →
      ∃ seconds, call (first + j)%nat = Flood_wait seconds) →
   retry_on_flood max_retries first call = inr OtherError) ∧
  (∀ call',
     (∀ j, (j < max_retries)%nat → call' (first + j)%nat = call (first + j)%nat) →
     retry_on_flood max_retries first call'
     = retry_on_flood max_retries first call).
Proof.
  revert first. induction max_retries as [|left IH]; intros first.
  { split; [intros n Hn; lia|]. split; [lia|done]. }
  destruct (IH (S first)) as (IH1 & IH2 & IH3). split; [|split].
  - intros [|n] Hn Hflood Hlast.
    + rewrite Nat.add_0_r in *. simpl.
      destruct (call first) eqn:Hc; try done. by destruct (Hlast seconds).
    + destruct (Hflood O ltac:(lia)) as [seconds Hc].
      rewrite Nat.add_0_r in Hc.
      rewrite (retry_on_flood_skip _ _ _ _ Hc) by lia.
      replace (first + S n)%nat with (S first + n)%nat in * by lia.
      apply IH1; [lia| |done].
      intros j Hj. destruct (Hflood (S j) ltac:(lia)) as [sec Hsec].
      exists sec. by replace (S first + j)%nat with (first + S j)%nat by lia.
  - intros _ Hflood. destruct (Hflood O ltac:(lia)) as [seconds Hc].
    rewrite Nat.add_0_r in Hc. destruct left as [|left].
    + simpl. by rewrite Hc.
    + rewrite (retry_on_flood_skip _ _ _ _ Hc) by lia.
      apply IH2; [lia|]. intros j Hj.
      destruct (Hflood (S j) ltac:(lia)) as [sec Hsec].
      exists sec. by replace (S first + j)%nat with (first + S j)%nat by lia.
  - intros call' Hsame. simpl.
    pose proof (Hsame O ltac:(lia)) as H0. rewrite Nat.add_0_r in H0.
    rewrite H0. destruct (call first); try done.
    destruct left as [|left]; [done|]. apply IH3.
    intros j Hj. replace (S first + j)%nat with (first + S j)%nat by lia.
    apply Hsame. lia.
Qed.

Lemma send_outreach_flood (user_id : option Z) (dm_text : string)
    (thread_call dm_call : nat → attempt) (res : SendResult) :
  send_outreach user_id dm_text thread_call dm_call = Return res →
  peer_flood res = true →
  res = {| thread_msg_id := None; dm_msg_id := None; peer_flood := true |}.
Proof.
  unfold send_outreach.
  destruct (send_thread_reply thread_call) as [thread_id|[]]; [| |done].
  - destruct (wants_dm user_id dm_text).
    + destruct (send_dm dm_call) as [dm_id|[]]; [| |done];
        by intros [= <-].
    + by intros [= <-].
  - by intros [= <-].
Qed.

(** X9. What [send_outreach] reports. A result that signals a peer flood
    carries no message id, also when the thread reply had been delivered
    before the private message met the flood. Without the signal the
    thread id is what [send_thread_reply] returned, and the private message
    is sent only to a sender with a non-zero id and with a non-empty text:
    otherwise [send_dm] is not called and the result has no [dm_msg_id]. *)
Theorem send_outreach_result (user_id : option Z) (dm_text : string)
    (thread_call dm_call : nat → attempt) (res : SendResult) :
  send_outreach user_id dm_text thread_call dm_call = Return res →
  (peer_flood res = true →
   thread_msg_id res = None ∧ dm_msg_id res = None ∧
   (send_thread_reply thread_call = inr PeerFloodError ∨
    ((∃ thread_id, send_thread_reply thread_call = inl thread_id) ∧
     wants_dm user_id dm_text = true ∧
     send_dm dm_call = inr PeerFloodError))) ∧
  (peer_flood res = false →
   send_thread_reply thread_call = inl (thread_msg_id res) ∧
   (wants_dm user_id dm_text = true → send_dm dm_call = inl (dm_msg_id res)) ∧
   (wants_dm user_id dm_text = false →
    dm_msg_id res = None ∧
    ∀ other_call,
      send_outreach user_id dm_text thread_call other_call = Return res)).
Proof.
  unfold send_outreach.
  destruct (send_thread_reply thread_call) as [thread_id|[]] eqn:Ht;
    [| |done].
  - destruct (wants_dm user_id dm_text) eqn:Hw.
    + destruct (send_dm dm_call) as [dm_id|[]] eqn:Hd; [| |done].
      * intros [= <-]. simpl. split; [done|]. by intros _.
      * intros [= <-]. simpl. split; [|done]. intros _.
        repeat split; try done. right. eauto.
    + intros [= <-]. simpl. split; [done|]. intros _.
      repeat split; try done.
  - intros [= <-]. simpl. split; [|done]. intros _.
    repeat split; try done. by left.
Qed.

Lemma send_outreach_result_witness :
  let lost := send_outreach (Some 7) "Hi, I saw your post."
                (fun _ => Delivered 501) (fun _ => Peer_flood_error) in
  lost = Return {| thread_msg_id := None; dm_msg_id := None;
                   peer_flood := true |} ∧
  send_thread_reply (fun _ => Delivered 501) = inl (Some 501) ∧
  send_dm (fun _ : nat => Peer_flood_error) = inr PeerFloodError.
Proof.
  destruct (send_outreach_result (Some 7) "Hi, I saw your post."
              (fun _ => Delivered 501) (fun _ => Peer_flood_error)
              {| thread_msg_id := None; dm_msg_id := None;
                 peer_flood := true |} eq_refl) as [H _].
  destruct (H eq_refl) as (_ & _ & [Hf|(_ & _ & Hd)]); [discriminate Hf|].
  refine (conj eq_refl (conj eq_refl Hd)).
Defined.

End SenderFacts.

(** ** Outreach: failures, the pause, and the leads it touches *)

Module SendingFacts.
Import Repository.

(** X10. [_send_outreach] records all or nothing. The repository is
    written only by a call whose send returned without a peer-flood
    signal, and then both writes happen: the lead is updated and the
    day's counter incremented. A call that raises, that meets a flood, or
    that finds no message, no text or no channel leaves the repository as
    it was. The pause changes only on a flood, to 24 hours after the
    clock reading. Messages, channels and replies are never written. *)
Theorem _send_outreach_all_or_nothing (o : Orchestrator.t) (lead : Lead.t)
    (e : Orchestrator.send_env) :
  let o' := fst (Orchestrator._send_outreach o lead e) in
  let outcome := snd (Orchestrator._send_outreach o lead e) in
  (Orchestrator._repo o' ≠ Orchestrator._repo o →
   ∃ msg thread_text dm_text res,
     get_message (Orchestrator._repo o) (Lead.message_id lead) = Some msg ∧
     Orchestrator.se_thread_text e = Some thread_text ∧
     Orchestrator.se_dm_text e = Some dm_text ∧
     Sender.send_outreach (Message.sender_id msg) dm_text
       (Orchestrator.se_thread_call e) (Orchestrator.se_dm_call e)
     = Return res ∧
     Sender.peer_flood res = false ∧ outcome = Return () ∧
     Orchestrator._repo o'
     = increment_daily_sends
         (update_lead (Orchestrator._repo o)
            (Lead.set_status "contacted"
               (Lead.set_outreach (Some thread_text) (Some dm_text)
                  (Sender.thread_msg_id res) (Sender.dm_msg_id res)
                  (Some (Orchestrator.se_now e)) lead)))
         (Orchestrator.se_today e)) ∧
  (outcome = Raise → Orchestrator._repo o' = Orchestrator._repo o) ∧
  (Orchestrator._outreach_paused_until o'
   ≠ Orchestrator._outreach_paused_until o →
   Orchestrator._repo o' = Orchestrator._repo o ∧
   Orchestrator._outreach_paused_until o'
   = Some (Orchestrator.se_now e + 24 * usec_per_hour) ∧
   ∃ msg dm_text,
     get_message (Orchestrator._repo o) (Lead.message_id lead) = Some msg ∧
     Orchestrator.se_dm_text e = Some dm_text ∧
     Sender.send_outreach (Message.sender_id msg) dm_text
       (Orchestrator.se_thread_call e) (Orchestrator.se_dm_call e)
     = Return {| Sender.thread_msg_id := None; Sender.dm_msg_id := None;
                 Sender.peer_flood := true |}) ∧
  messages (Orchestrator._repo o') = messages (Orchestrator._repo o) ∧
  channels (Orchestrator._repo o') = channels (Orchestrator._repo o) ∧
  replies (Orchestrator._repo o') = replies (Orchestrator._repo o).
Proof.
  unfold Orchestrator._send_outreach.
  destruct (get_message _ _) as [msg|] eqn:Hmsg; [|by simpl].
  destruct (Orchestrator.no_text _); [by simpl|].
  destruct (channel_row _ _) as [ch_row|]; [|by simpl].
  destruct (Orchestrator.se_thread_text e) as [thread_text|] eqn:Ht;
    [|by simpl].
  destruct (Orchestrator.se_dm_text e) as [dm_text|] eqn:Hd; [|by simpl].
  destruct (Sender.send_outreach _ _ _ _) as [res|] eqn:Hs; [|by simpl].
  destruct (Sender.peer_flood res) eqn:Hf.
  - assert (Hres : res = {| Sender.thread_msg_id := None;
                            Sender.dm_msg_id := None;
                            Sender.peer_flood := true |}).
    { by apply (SenderFacts.send_outreach_flood _ _ _ _ _ Hs). }
    subst res.
    destruct (Orchestrator.se_notify_raises e); simpl.
    all: split; [by intros []|]; split; [done|]; split; [|done].
    all: intros _; split; [done|]; split; [done|]; eauto.
  - cbv zeta. cbn [fst snd Orchestrator._repo Orchestrator.set_repo
                    Orchestrator._outreach_paused_until].
    split; [|split; [done|split; [by intros []|]]].
    + intros _. exists msg, thread_text, dm_text, res. by repeat split.
    + unfold increment_daily_sends. by case_match.
Qed.

Lemma paused_iter (o : Orchestrator.t) (until : instant) (lead : Lead.t)
    (e : Orchestrator.iter_env) :
  Orchestrator._outreach_paused_until o = Some until →
  Orchestrator.it_now_pause e < until →
  Orchestrator.outreach_iter o lead e = (o, true).
Proof.
  intros Hp Hlt. unfold Orchestrator.outreach_iter, Orchestrator._is_outreach_paused.
  rewrite Hp. destruct (Z.leb_spec until (Orchestrator.it_now_pause e)); [lia|done].
Qed.

(** X11. The pause after a peer flood. From [_pause_outreach] at [now]
    for [hours], every check of [_is_outreach_paused] whose clock reads
    before [now + hours] answers [True] and keeps the pause; an outreach
    cycle that starts then, and a turn of the batch loop that comes then,
    leave the orchestrator exactly as it is: no lead is contacted, no
    budget row is created. The first check at or after [now + hours]
    answers [False] and clears the pause, and from then on every check
    answers [False], whatever the clock reads. *)
Theorem pause_stops_outreach (o : Orchestrator.t) (now : instant) (hours : Z) :
  let o1 := Orchestrator._pause_outreach o now hours in
  let until := now + hours * usec_per_hour in
  (∀ t, t < until → Orchestrator._is_outreach_paused o1 t = (o1, true)) ∧
  (∀ e, Orchestrator.cy_now_pause e < until →
        Orchestrator.outreach_cycle o1 e = o1) ∧
  (∀ lead leads e es, Orchestrator.it_now_pause e < until →
        Orchestrator.outreach_batch o1 (lead :: leads) (e :: es) = o1) ∧
  (∀ t, until ≤ t →
        let o2 := fst (Orchestrator._is_outreach_paused o1 t) in
        snd (Orchestrator._is_outreach_paused o1 t) = false ∧
        Orchestrator._outreach_paused_until o2 = None ∧
        Orchestrator._repo o2 = Orchestrator._repo o ∧
        ∀ t', Orchestrator._is_outreach_paused o2 t' = (o2, false)).
Proof.
  intros o1 until.
  assert (Hp : Orchestrator._outreach_paused_until o1 = Some until) by done.
  split; [|split; [|split]].
  - intros t Ht. unfold Orchestrator._is_outreach_paused. rewrite Hp.
    destruct (Z.leb_spec until t); [lia|done].
  - intros e He. unfold Orchestrator.outreach_cycle,
      Orchestrator._is_outreach_paused. rewrite Hp.
    destruct (Z.leb_spec until (Orchestrator.cy_now_pause e)); [lia|done].
  - intros lead leads e es He. simpl.
    by rewrite (paused_iter o1 until lead e Hp He).
  - intros t Ht. unfold Orchestrator._is_outreach_paused. rewrite Hp.
    destruct (Z.leb_spec until t); [|lia]. by simpl.
Qed.

Lemma get_lead_same_leads (db db' : t) (i : Z) :
  leads db' = leads db → get_lead db' i = get_lead db i.
Proof. unfold get_lead. by intros ->. Qed.

Lemma _send_outreach_other_lead (o : Orchestrator.t) (lead : Lead.t)
    (e : Orchestrator.send_env) (i : Z) :
  Lead.id lead ≠ Some i →
  get_lead (Orchestrator._repo (fst (Orchestrator._send_outreach o lead e))) i
  = get_lead (Orchestrator._repo o) i.
Proof.
  intros Hid. unfold Orchestrator._send_outreach.
  destruct (get_message _ _) as [msg|]; [|done].
  destruct (Orchestrator.no_text _); [done|].
  destruct (channel_row _ _) as [ch_row|]; [|done].
  destruct (Orchestrator.se_thread_text e) as [thread_text|]; [|done].
  destruct (Orchestrator.se_dm_text e) as [dm_text|]; [|done].
  destruct (Sender.send_outreach _ _ _ _) as [res|]; [|done].
  destruct (Sender.peer_flood res).
  - by destruct (Orchestrator.se_notify_raises e).
  - cbv zeta. cbn [fst Orchestrator._repo Orchestrator.set_repo].
    set (lead' := Lead.set_status _ _).
    rewrite <- (ForwardingFacts.get_lead_update_other (Orchestrator._repo o) i lead')
      by done.
    apply get_lead_same_leads.
    unfold increment_daily_sends. by destruct (daily_budget _ !! _).
Qed.

Lemma outreach_iter_other_lead (o : Orchestrator.t) (lead : Lead.t)
    (e : Orchestrator.iter_env) (i : Z) :
  Lead.id lead ≠ Some i →
  get_lead (Orchestrator._repo (fst (Orchestrator.outreach_iter o lead e))) i
  = get_lead (Orchestrator._repo o) i.
Proof.
  intros Hid. unfold Orchestrator.outreach_iter.
  destruct (Orchestrator._is_outreach_paused o _) as [o1 paused] eqn:Hp.
  assert (H1 : Orchestrator._repo o1 = Orchestrator._repo o).
  { pose proof (OutreachFacts._is_outreach_paused_keeps o
                  (Orchestrator.it_now_pause e)) as [H _].
    by rewrite Hp in H. }
  destruct paused; [cbn [fst]; by rewrite H1|].
  destruct (get_daily_budget _ _ _) as [db2 budget] eqn:Hb.
  assert (H2 : leads db2 = leads (Orchestrator._repo o)).
  { rewrite <- H1. unfold get_daily_budget in Hb.
    destruct (daily_budget _ !! _); by injection Hb as <- _. }
  destruct (_ <=? _).
  - simpl. by apply get_lead_same_leads.
  - cbn [fst Orchestrator._repo Orchestrator.set_rate_limiter].
    rewrite _send_outreach_other_lead by done. simpl.
    by apply get_lead_same_leads.
Qed.

Lemma outreach_batch_other_lead (i : Z) (es : list Orchestrator.iter_env) :
  ∀ (ls : list Lead.t) (o : Orchestrator.t),
  (∀ l, In l ls → Lead.id l ≠ Some i) →
  get_lead (Orchestrator._repo (Orchestrator.outreach_batch o ls es)) i
  = get_lead (Orchestrator._repo o) i.
Proof.
  induction es as [|e es IH]; intros ls o Hls; [by destruct ls|].
  destruct ls as [|lead ls]; [done|]. simpl.
  pose proof (outreach_iter_other_lead o lead e i (Hls lead (or_introl eq_refl)))
    as Hi.
  destruct (Orchestrator.outreach_iter o lead e) as [o' broke].
  simpl in Hi. destruct broke; [done|].
  rewrite IH; [done|]. intros l Hl. apply Hls. by right.
Qed.

Lemma update_lead_ids (db : t) (lead : Lead.t) :
  List.map Lead.id (leads (update_lead db lead)) = List.map Lead.id (leads db).
Proof.
  unfold update_lead. simpl. rewrite List.map_map. apply List.map_ext.
  intros row. by case_bool_decide.
Qed.

Lemma _send_outreach_ids (o : Orchestrator.t) (lead : Lead.t)
    (e : Orchestrator.send_env) :
  List.map Lead.id
    (leads (Orchestrator._repo (fst (Orchestrator._send_outreach o lead e))))
  = List.map Lead.id (leads (Orchestrator._repo o)).
Proof.
  unfold Orchestrator._send_outreach.
  destruct (get_message _ _) as [msg|]; [|done].
  destruct (Orchestrator.no_text _); [done|].
  destruct (channel_row _ _) as [ch_row|]; [|done].
  destruct (Orchestrator.se_thread_text e) as [thread_text|]; [|done].
  destruct (Orchestrator.se_dm_text e) as [dm_text|]; [|done].
  destruct (Sender.send_outreach _ _ _ _) as [res|]; [|done].
  destruct (Sender.peer_flood res).
  - by destruct (Orchestrator.se_notify_raises e).
  - cbv zeta. cbn [fst Orchestrator._repo Orchestrator.set_repo].
    rewrite <- (update_lead_ids (Orchestrator._repo o)
      (Lead.set_status "contacted"
         (Lead.set_outreach (Some thread_text) (Some dm_text)
            (Sender.thread_msg_id res) (Sender.dm_msg_id res)
            (Some (Orchestrator.se_now e)) lead))).
    unfold increment_daily_sends. by case_match.
Qed.

Lemma outreach_iter_ids (o : Orchestrator.t) (lead : Lead.t)
    (e : Orchestrator.iter_env) :
  List.map Lead.id
    (leads (Orchestrator._repo (fst (Orchestrator.outreach_iter o lead e))))
  = List.map Lead.id (leads (Orchestrator._repo o)).
Proof.
  unfold Orchestrator.outreach_iter.
  destruct (Orchestrator._is_outreach_paused o _) as [o1 paused] eqn:Hp.
  assert (H1 : Orchestrator._repo o1 = Orchestrator._repo o).
  { pose proof (OutreachFacts._is_outreach_paused_keeps o
                  (Orchestrator.it_now_pause e)) as [H _].
    by rewrite Hp in H. }
  destruct paused; [cbn [fst]; by rewrite H1|].
  destruct (get_daily_budget _ _ _) as [db2 budget] eqn:Hb.
  assert (H2 : leads db2 = leads (Orchestrator._repo o)).
  { rewrite <- H1. unfold get_daily_budget in Hb.
    destruct (daily_budget _ !! _); by injection Hb as <- _. }
  destruct (_ <=? _).
  - simpl. by rewrite H2.
  - cbn [fst Orchestrator._repo Orchestrator.set_rate_limiter].
    rewrite _send_outreach_ids. simpl. by rewrite H2.
Qed.

Lemma outreach_batch_ids (es : list Orchestrator.iter_env) :
  ∀ (ls : list Lead.t) (o : Orchestrator.t),
  List.map Lead.id
    (leads (Orchestrator._repo (Orchestrator.outreach_batch o ls es)))
  = List.map Lead.id (leads (Orchestrator._repo o)).
Proof.
  induction es as [|e es IH]; intros ls o; [by destruct ls|].
  destruct ls as [|lead ls]; [done|]. simpl.
  pose proof (outreach_iter_ids o lead e) as Hi.
  destruct (Orchestrator.outreach_iter o lead e) as [o' broke].
  simpl in Hi. destruct broke; [done|]. by rewrite IH.
Qed.

Lemma keyed_same_ids {A} (key : A → option Z) (rows rows' : list A) :
  List.map key rows' = List.map key rows → keyed key rows → keyed key rows'.
Proof.
  intros Hids [Hnd Hsome]. split; [by rewrite Hids|].
  intros r Hin. apply (in_map key) in Hin. rewrite Hids in Hin.
  apply in_map_iff in Hin as (r' & <- & Hin'). by apply Hsome.
Qed.

Lemma get_lead_in (db : t) (i : Z) (l : Lead.t) :
  get_lead db i = Some l → In l (leads db) ∧ Lead.id l = Some i.
Proof.
  unfold get_lead. intros H. apply List.find_some in H as [Hin Hk].
  by apply bool_decide_eq_true in Hk.
Qed.

Lemma outreach_cycle_other_status (o : Orchestrator.t)
    (e : Orchestrator.cycle_env) (i : Z) (l : Lead.t) :
  keyed Lead.id (leads (Orchestrator._repo o)) →
  get_lead (Orchestrator._repo o) i = Some l → Lead.status l ≠ "new" →
  keyed Lead.id (leads (Orchestrator._repo (Orchestrator.outreach_cycle o e))) ∧
  get_lead (Orchestrator._repo (Orchestrator.outreach_cycle o e)) i = Some l.
Proof.
  intros Hk Hl Hst. unfold Orchestrator.outreach_cycle.
  destruct (Orchestrator._is_outreach_paused o _) as [o1 paused] eqn:Hp.
  assert (H1 : Orchestrator._repo o1 = Orchestrator._repo o).
  { pose proof (OutreachFacts._is_outreach_paused_keeps o
                  (Orchestrator.cy_now_pause e)) as [H _].
    by rewrite Hp in H. }
  destruct paused; [cbn [fst]; by rewrite H1|].
  destruct (get_daily_budget _ _ _) as [db2 budget] eqn:Hb.
  assert (H2 : leads db2 = leads (Orchestrator._repo o)).
  { rewrite <- H1. unfold get_daily_budget in Hb.
    destruct (daily_budget _ !! _); by injection Hb as <- _. }
  destruct (_ <=? _).
  - simpl. rewrite H2. split; [done|].
    by rewrite (get_lead_same_leads _ _ _ H2).
  - split.
    + apply (keyed_same_ids _ (leads (Orchestrator._repo o))); [|done].
      rewrite outreach_batch_ids. simpl. by rewrite H2.
    + rewrite outreach_batch_other_lead.
      * simpl. by rewrite (get_lead_same_leads _ _ _ H2).
      * intros l' Hin Hid. unfold get_leads_by_status in Hin. simpl in Hin.
        apply filter_In in Hin as [Hin Hnew]. rewrite H2 in Hin.
        apply String.eqb_eq in Hnew.
        apply get_lead_in in Hl as [Hin' Hid'].
        assert (l' = l)
          by (apply (JanitorFacts.keyed_inj Lead.id _ _ _ Hk Hin Hin');
              congruence).
        congruence.
Qed.

(** X12. The outreach loop writes to leads in status [new] only. With
    unique lead ids, a lead in any other status (contacted, replied,
    forwarded, negative, no_reply) is the same row, field by field, after
    any number of cycles, whatever the sends do. *)
Theorem _outreach_loop_only_new (es : list Orchestrator.cycle_env)
    (o : Orchestrator.t) (i : Z) (l : Lead.t) :
  keyed Lead.id (leads (Orchestrator._repo o)) →
  get_lead (Orchestrator._repo o) i = Some l → Lead.status l ≠ "new" →
  get_lead (Orchestrator._repo (Orchestrator._outreach_loop o es)) i = Some l.
Proof.
  unfold Orchestrator._outreach_loop. revert o.
  induction es as [|e es IH]; intros o Hk Hl Hst; simpl; [done|].
  destruct (outreach_cycle_other_status o e i l Hk Hl Hst) as [Hk' Hl'].
  by apply IH.
Qed.

Lemma _outreach_loop_only_new_witness :
  let contacted :=
    Lead.set_status "contacted"
      (Lead.set_id (Some 1)
         (Lead.new 1 "new" (Some 0.8%Q) None None None None None)) in
  let db :=
    set_leads
      (contacted
       :: List.map (fun l => Lead.set_id (Some 2) l)
            (leads Scenario.db_one_lead))
      Scenario.db_three_leads in
  List.map Lead.status
    (leads (Orchestrator._repo
       (Orchestrator._outreach_loop (Scenario.orchestrator_on db)
          [Scenario.one_cycle])))
  = ["contacted"; "contacted"] ∧
  get_lead
    (Orchestrator._repo
       (Orchestrator._outreach_loop (Scenario.orchestrator_on db)
          [Scenario.one_cycle])) 1
  = Some contacted.
Proof.
  split; [vm_compute; reflexivity|].
  apply _outreach_loop_only_new.
  - split; [|intros r Hr; vm_compute in Hr; by destruct Hr as [<-|[<-|[]]]].
    vm_compute. apply NoDup_cons. split; [|apply NoDup_singleton].
    intros H. by apply list_elem_of_singleton in H.
  - vm_compute. reflexivity.
  - discriminate.
Defined.

End SendingFacts.

(** ** Loops that write leads back: the stale sweep and forwarding *)

Module WriteBackFacts.
Import Repository.

#[local] Set Warnings "-clear-no-such-hyp".

(** One write of a loop that writes rows back by id. *)
Lemma update_row_id (lead row : Lead.t) :
  Lead.id (update_row lead row) = Lead.id row.
Proof. done. Qed.

Lemma update_lead_fields (db : t) (lead : Lead.t) :
  messages (update_lead db lead) = messages db ∧
  channels (update_lead db lead) = channels db ∧
  replies (update_lead db lead) = replies db ∧
  daily_budget (update_lead db lead) = daily_budget db.
Proof. done. Qed.

Lemma map_same {A} (f : A → A) (l : list A) :
  (∀ x, f x = x) → List.map f l = l.
Proof.
  intros Hf. induction l as [|x l IH]; simpl; [done|]. by rewrite Hf, IH.
Qed.

(** A loop over rows fetched from the table, each written back at most
    once: the table after it, row by row. *)
Lemma fold_update_lead_map (write : Lead.t → option Lead.t)
    (ls : list Lead.t) :
  (∀ l l', write l = Some l' → Lead.id l' = Lead.id l) →
  ∀ db,
  keyed Lead.id (leads db) → (∀ l, In l ls → In l (leads db)) →
  NoDup (List.map Lead.id ls) →
  let db' :=
    fold_left
      (fun db l => match write l with
                   | Some l' => update_lead db l'
                   | None => db
                   end) ls db in
  leads db'
  = List.map (fun row =>
      if bool_decide (Lead.id row ∈ List.map Lead.id ls)
      then match write row with
           | Some l' => update_row l' row
           | None => row
           end
      else row) (leads db) ∧
  messages db' = messages db ∧ channels db' = channels db ∧
  replies db' = replies db ∧ daily_budget db' = daily_budget db.
Proof.
  intros Hid. induction ls as [|l ls IH]; intros db Hk Hin Hnd.
  { simpl. split; [|done]. symmetry. apply map_same.
    by intros row. }
  simpl in Hnd. apply NoDup_cons in Hnd as [Hl Hnd].
  set (g := fun row : Lead.t =>
    if bool_decide (Lead.id row = Lead.id l)
    then match write l with Some l' => update_row l' row | None => row end
    else row).
  set (db1 := match write l with
              | Some l' => update_lead db l'
              | None => db
              end).
  assert (Hl_in : In l (leads db)) by (apply Hin; by left).
  assert (Hl_some : is_Some (Lead.id l)) by (by apply Hk).
  assert (Hg_id : ∀ row, Lead.id (g row) = Lead.id row).
  { intros row. unfold g. case_bool_decide; [|done]. by destruct (write l). }
  assert (H1 : leads db1 = List.map g (leads db)
               ∧ messages db1 = messages db ∧ channels db1 = channels db
               ∧ replies db1 = replies db
               ∧ daily_budget db1 = daily_budget db).
  { unfold db1, g. destruct (write l) as [l'|] eqn:Hw.
    - split; [|done]. unfold update_lead. simpl. apply List.map_ext.
      intros row. rewrite (Hid _ _ Hw).
      rewrite (bool_decide_ext
                 (Lead.id row = Lead.id l ∧ is_Some (Lead.id l))
                 (Lead.id row = Lead.id l)) by tauto.
      done.
    - split; [|done]. symmetry. apply map_same.
      intros row. by case_bool_decide. }
  destruct H1 as (H1 & Hm1 & Hc1 & Hr1 & Hb1).
  assert (Hk1 : keyed Lead.id (leads db1)).
  { destruct Hk as [Hk1 Hk2]. rewrite H1. split.
    - rewrite List.map_map.
      rewrite (List.map_ext _ Lead.id Hg_id). done.
    - intros r Hr. apply in_map_iff in Hr as (r0 & <- & Hr0).
      rewrite Hg_id. by apply Hk2. }
  assert (Hin1 : ∀ x, In x ls → In x (leads db1)).
  { intros x Hx. rewrite H1. apply in_map_iff. exists x. split; [|apply Hin; by right].
    unfold g. rewrite bool_decide_eq_false_2; [done|].
    intros Heq. apply Hl. rewrite <- Heq.
    apply list_elem_of_In. by apply in_map. }
  destruct (IH db1 Hk1 Hin1 Hnd) as (IHl & IHm & IHc & IHr & IHb).
  simpl. fold db1. cbv zeta in IHl. rewrite IHl, IHm, IHc, IHr, IHb.
  split; [|by rewrite Hm1, Hc1, Hr1, Hb1].
  rewrite H1, List.map_map. apply map_ext_in. intros row Hrow.
  rewrite Hg_id. unfold g.
  destruct (decide (Lead.id row = Lead.id l)) as [Heq|Hne].
  - assert (row = l)
      by (by apply (JanitorFacts.keyed_inj Lead.id (leads db) row l)).
    subst row.
    rewrite (bool_decide_eq_true_2 (Lead.id l = Lead.id l)) by done.
    rewrite (bool_decide_eq_false_2 (Lead.id l ∈ List.map Lead.id ls)) by done.
    rewrite bool_decide_eq_true_2; [done|]. simpl. apply list_elem_of_here.
  - rewrite (bool_decide_eq_false_2 (Lead.id row = Lead.id l)) by done.
    rewrite (bool_decide_ext (Lead.id row ∈ List.map Lead.id (l :: ls))
               (Lead.id row ∈ List.map Lead.id ls)); [done|].
    simpl. rewrite elem_of_cons. tauto.
Qed.


Lemma filter_ids_keyed (p : Lead.t → bool) (rows : list Lead.t) (row : Lead.t) :
  keyed Lead.id rows → In row rows →
  (Lead.id row ∈ List.map Lead.id (List.filter p rows) ↔ p row = true).
Proof.
  intros Hk Hin. split.
  - intros H. apply list_elem_of_In, in_map_iff in H as (r & Hr & Hf).
    apply filter_In in Hf as [Hf Hp].
    by rewrite <- (JanitorFacts.keyed_inj Lead.id rows r row Hk Hf Hin Hr).
  - intros Hp. apply list_elem_of_In, in_map. by apply filter_In.
Qed.



Lemma forward_write_replies (db db' : t) (l : Lead.t) (now : instant) :
  replies db' = replies db →
  Orchestrator.forward_write db' l now = Orchestrator.forward_write db l now.
Proof.
  intros H. unfold Orchestrator.forward_write, get_replies_for_lead.
  by rewrite H.
Qed.

Lemma forward_lead_repo (o : Orchestrator.t) (l : Lead.t) (now : instant) :
  Orchestrator._repo (Orchestrator.forward_lead o l now)
  = match Orchestrator.forward_write (Orchestrator._repo o) l now with
    | Some l' => update_lead (Orchestrator._repo o) l'
    | None => Orchestrator._repo o
    end.
Proof. by rewrite ForwardingFacts.forward_lead_spec. Qed.

Lemma forward_fold_repo (clock : option Z → instant) (db0 : t)
    (ls : list Lead.t) :
  ∀ o, replies (Orchestrator._repo o) = replies db0 →
  Orchestrator._repo
    (fold_left
       (fun o lead => Orchestrator.forward_lead o lead (clock (Lead.id lead)))
       ls o)
  = fold_left
      (fun db l =>
         match Orchestrator.forward_write db0 l (clock (Lead.id l)) with
         | Some l' => update_lead db l'
         | None => db
         end) ls (Orchestrator._repo o).
Proof.
  induction ls as [|l ls IH]; intros o Hr; simpl; [done|].
  rewrite IH.
  - by rewrite forward_lead_repo, (forward_write_replies db0 _ _ _ Hr).
  - rewrite forward_lead_repo. by destruct (Orchestrator.forward_write _ _ _).
Qed.

Lemma forward_write_status (db : t) (l l' : Lead.t) (now : instant) :
  Orchestrator.forward_write db l now = Some l' →
  Lead.status l' ≠ "replied".
Proof.
  unfold Orchestrator.forward_write.
  destruct (Orchestrator.first_positive _); [by intros [= <-]|].
  destruct (existsb _ _); [by intros [= <-]|done].
Qed.

Lemma forward_write_none (db : t) (l : Lead.t) (now now' : instant) :
  Orchestrator.forward_write db l now = None →
  Orchestrator.forward_write db l now' = None ∧
  Orchestrator.forward_notice db l = [].
Proof.
  unfold Orchestrator.forward_write, Orchestrator.forward_notice.
  destruct (Orchestrator.first_positive _); [done|].
  by destruct (existsb _ _).
Qed.

Lemma forward_leads_idle (clock : option Z → instant)
    (raises : option Z → bool) (o : Orchestrator.t) (ls : list Lead.t) :
  (∀ l, In l ls →
     Orchestrator.forward_write (Orchestrator._repo o) l (clock (Lead.id l))
     = None) →
  Orchestrator.forward_leads o ls clock raises = o.
Proof.
  induction ls as [|l ls IH]; intros Hls; simpl; [done|].
  destruct (forward_write_none _ _ _ (clock (Lead.id l))
              (Hls l (or_introl eq_refl))) as [Hw Hn].
  assert (Hstep : Orchestrator.forward_lead o l (clock (Lead.id l)) = o).
  { rewrite ForwardingFacts.forward_lead_spec, Hw, Hn, app_nil_r.
    by destruct o. }
  assert (Hnot : Orchestrator.notifies o l = false).
  { unfold Orchestrator.notifies. unfold Orchestrator.forward_notice in Hn.
    by destruct (Orchestrator.first_positive _). }
  rewrite Hnot, Hstep. simpl. apply IH. intros l' Hl'. apply Hls. by right.
Qed.

(** X14. The forwarding pass is idempotent. With unique lead ids, after
    a pass in which no notification failed, a second pass writes nothing
    and notifies nobody, whatever its clock and whether or not the
    notifier would fail: every lead the first pass met is forwarded,
    negative, or has neither a positive nor a negative reply. No positive
    reply is announced twice. *)
Theorem forwarding_is_idempotent (o : Orchestrator.t)
    (clock clock' : option Z → instant) (raises raises' : option Z → bool) :
  keyed Lead.id (leads (Orchestrator._repo o)) →
  (∀ j, raises j = false) →
  let o1 := Orchestrator._forward_positive_replies o clock raises in
  Orchestrator._forward_positive_replies o1 clock' raises' = o1.
Proof.
  intros Hk Hraises o1.
  set (db0 := Orchestrator._repo o).
  set (ls := get_leads_by_status db0 "replied").
  assert (Ho1 : Orchestrator._repo o1
    = fold_left
        (fun db l =>
           match Orchestrator.forward_write db0 l (clock (Lead.id l)) with
           | Some l' => update_lead db l'
           | None => db
           end) ls db0).
  { unfold o1, Orchestrator._forward_positive_replies.
    rewrite ForwardingFacts.forward_leads_fold by done.
    by apply forward_fold_repo. }
  destruct (fold_update_lead_map
              (fun l => Orchestrator.forward_write db0 l (clock (Lead.id l)))
              ls) with (db := db0) as (Hl & _ & _ & Hr & _).
  { intros l l' H. by apply ForwardingFacts.forward_write_id in H. }
  { done. }
  { intros l Hl. by apply filter_In in Hl as [? _]. }
  { apply ForwardingFacts.NoDup_map_filter. apply Hk. }
  cbv beta iota zeta in Hl, Hr. rewrite <- Ho1 in Hl, Hr.
  unfold Orchestrator._forward_positive_replies at 1.
  apply forward_leads_idle. intros l2 Hl2.
  apply filter_In in Hl2 as [Hin Hst]. apply String.eqb_eq in Hst.
  rewrite Hl in Hin. apply in_map_iff in Hin as (row & Hrow & Hin).
  rewrite (forward_write_replies db0 _ _ _ Hr).
  pose proof (filter_ids_keyed
                (fun l => String.eqb (Lead.status l) "replied")
                _ row Hk Hin) as Hiff.
  fold db0 in Hiff. fold (get_leads_by_status db0 "replied") in Hiff.
  fold ls in Hiff.
  case_bool_decide as Hmem.
  - destruct (Orchestrator.forward_write db0 row (clock (Lead.id row)))
      as [l'|] eqn:Hw.
    + apply forward_write_status in Hw. subst l2. by destruct Hw.
    + subst l2. by apply (forward_write_none _ _ _ _ Hw).
  - subst l2. destruct Hmem. apply Hiff. by apply String.eqb_eq.
Qed.

Lemma forwarding_is_idempotent_witness :
  let o1 :=
    Orchestrator._forward_positive_replies
      (Scenario.orchestrator_on Scenario.db_replied)
      (fun _ => Scenario.t0 + 180000000) (fun _ => false) in
  List.length (Orchestrator._notifier o1) = 1%nat ∧
  Orchestrator._forward_positive_replies o1
    (fun _ => Scenario.t0 + 360000000) (fun _ => true) = o1.
Proof.
  split; [vm_compute; reflexivity|].
  apply forwarding_is_idempotent; [|done].
  split.
  - apply (bool_decide_unpack _). vm_compute. exact I.
  - intros r Hr. vm_compute in Hr. by destruct Hr as [<-|[]].
Defined.

End WriteBackFacts.

(** ** Discovery: registration and whole cycles *)

Module RegistrationFacts.
Import DiscoveryService.

#[local] Set Warnings "-clear-no-such-hyp".

(** X15. [_try_register] accepts all or nothing. When it returns [True],
    the id was neither known nor rejected, there was room, the database
    had no channel with that platform id, and the validation passed; the
    channel is then stored as one new active row carrying the discovery
    source and date, the id is known and monitored by the collector. When
    it returns [False], neither the database nor the collector is
    touched, and no known or rejected id is forgotten. *)
Theorem _try_register_all_or_nothing (s : Settings.t) (d : t)
    (telegram_id : Z) (source : string) (username title : option string)
    (e : register_env) :
  let d' := fst (_try_register s d telegram_id source username title e) in
  let added := snd (_try_register s d telegram_id source username title e) in
  (added = true →
   (telegram_id ∉ _known_ids d) ∧ (telegram_id ∉ _rejected_ids d) ∧
   _at_capacity s d = false ∧
   Repository.get_channel_by_telegram_id (_repo d) telegram_id = None ∧
   _validate_channel (re_validate e) = true ∧
   _known_ids d' = {[telegram_id]} ∪ _known_ids d ∧
   _rejected_ids d' = _rejected_ids d ∧
   telegram_id ∈ Collector._monitored_chats (_collector d') ∧
   ∃ row,
     Repository.channels (_repo d') = (Repository.channels (_repo d) ++ [row])%list ∧
     Repository.get_channel_by_telegram_id (_repo d') telegram_id = Some row ∧
     Channel.telegram_id row = Some telegram_id ∧
     Channel.is_active row = true ∧
     Channel.discovered_from row = Some source ∧
     Channel.discovered_at row = Some (re_now e)) ∧
  (added = false →
   _repo d' = _repo d ∧ _collector d' = _collector d ∧
   _known_ids d ⊆ _known_ids d' ∧ _rejected_ids d ⊆ _rejected_ids d').
Proof.
  unfold _try_register.
  destruct (decide (telegram_id ∈ _known_ids d)) as [Hk|Hk].
  { rewrite bool_decide_eq_true_2 by done. simpl. by split. }
  rewrite (bool_decide_eq_false_2 _ Hk).
  destruct (decide (telegram_id ∈ _rejected_ids d)) as [Hr|Hr].
  { rewrite bool_decide_eq_true_2 by done. simpl. by split. }
  rewrite (bool_decide_eq_false_2 _ Hr). simpl.
  destruct (_at_capacity s d) eqn:Hcap; [by split|].
  destruct (Repository.get_channel_by_telegram_id _ _) as [old|] eqn:Hold.
  { simpl. split; [done|]. intros _. repeat split; try done. set_solver. }
  destruct (if blank username && blank title then re_entity e
            else Some (username, title)) as [[username' title']|];
    [|by split].
  destruct (_validate_channel (re_validate e)) eqn:Hv; simpl.
  - split; [|done]. intros _. repeat split; try done.
    + unfold Collector.add_chat.
      destruct (0 <? _); simpl; case_bool_decide; simpl; set_solver.
    + unfold Repository.upsert_channel. simpl. rewrite Hold. simpl.
      eexists. split; [done|]. split.
      * unfold Repository.get_channel_by_telegram_id in *. simpl.
        apply RepositoryFacts.find_app_new; [done|].
        by apply bool_decide_eq_true.
      * done.
  - split; [done|]. intros _. repeat split; try done. set_solver.
Qed.

(** X16. A candidate is decided once. A call of [_try_register] that
    changes anything leaves the id known or rejected, so every later call
    for that id returns [False] and changes nothing, with whatever
    settings, source, names and environment: a channel whose validation
    failed, also by an error of the platform or of the LLM, is not
    validated again, and an accepted one is not stored twice. *)
Theorem _try_register_decides_once (s : Settings.t) (d : t)
    (telegram_id : Z) (source : string) (username title : option string)
    (e : register_env) :
  let d' := fst (_try_register s d telegram_id source username title e) in
  d' ≠ d →
  (telegram_id ∈ _known_ids d' ∨ telegram_id ∈ _rejected_ids d') ∧
  ∀ s' source' username' title' e',
    _try_register s' d' telegram_id source' username' title' e' = (d', false).
Proof.
  intros d' Hne.
  assert (H : telegram_id ∈ _known_ids d' ∨ telegram_id ∈ _rejected_ids d').
  { revert Hne. unfold d', _try_register.
    destruct (bool_decide _ || bool_decide _); [done|].
    destruct (_at_capacity s d); [done|].
    destruct (Repository.get_channel_by_telegram_id _ _) as [old|].
    { intros _. left. simpl. set_solver. }
    destruct (if blank username && blank title then re_entity e
              else Some (username, title)) as [[username' title']|]; [|done].
    destruct (_validate_channel (re_validate e)); simpl; intros _.
    - left. set_solver.
    - right. set_solver. }
  split; [done|]. intros s' source' username' title' e'.
  unfold _try_register.
  destruct H as [H|H].
  - by rewrite (bool_decide_eq_true_2 _ H).
  - rewrite (bool_decide_eq_true_2 (telegram_id ∈ _rejected_ids d') H).
    by rewrite orb_true_r.
Qed.

Lemma _try_register_decides_once_witness :
  let irrelevant :=
    {| re_entity := Some (Some "chat", Some "Chat");
       re_validate :=
         {| ve_messages := [Some "good morning"];
            ve_raises := true;
            ve_answer := Llm.Transport_error |};
       re_now := Scenario.t0;
       re_backfill := [] |} in
  let d' :=
    fst (_try_register Settings.defaults Scenario.discovery0 999
           "search:freelance jobs" (Some "chat") (Some "Chat") irrelevant) in
  _rejected_ids d' = {[999]} ∧
  _try_register Settings.defaults d' 999 "forward:100" (Some "new_jobs")
    (Some "New jobs") Scenario.relevant_candidate = (d', false).
Proof.
  intros irrelevant d'.
  destruct (_try_register_decides_once Settings.defaults Scenario.discovery0
              999 "search:freelance jobs" (Some "chat") (Some "Chat")
              irrelevant) as [_ H].
  - intros Heq. apply (f_equal _rejected_ids) in Heq.
    apply (f_equal (fun x : gset Z => bool_decide (999 ∈ x))) in Heq.
    vm_compute in Heq. discriminate Heq.
  - split; [|apply H].
    apply set_eq. intros x. vm_compute. set_solver.
Defined.

(** *** Whole cycles *)

Section Preserved.
Variable s : Settings.t.
Variable P : t → Prop.
Hypothesis P_try_register :
  ∀ d telegram_id source username title e,
    P d → P (fst (_try_register s d telegram_id source username title e)).

Lemma offer_preserves (acc : t * nat) (source : string) (telegram_id : Z)
    (username title : option string) (e : register_env) :
  P (fst acc) → P (fst (offer s acc source telegram_id username title e)).
Proof.
  intros H. unfold offer.
  pose proof (P_try_register (fst acc) telegram_id source username title e H).
  by destruct (_try_register _ _ _ _ _ _ _).
Qed.

Lemma register_found_preserves (source : string) (acc : t * nat)
    (chat : found_chat) :
  P (fst acc) → P (fst (register_found s source acc chat)).
Proof.
  intros H. unfold register_found.
  destruct (_ || _); [done|]. by apply offer_preserves.
Qed.

Lemma register_all_preserves (source : string) (chats : list found_chat) :
  ∀ acc, P (fst acc) →
         P (fst (fold_left (register_found s source) chats acc)).
Proof.
  induction chats as [|chat chats IH]; intros acc H; simpl; [done|].
  apply IH. by apply register_found_preserves.
Qed.

Lemma search_keywords_preserves
    (search : string → option (list found_chat)) (keywords : list string) :
  ∀ acc, P (fst acc) → P (fst (search_keywords s acc keywords search)).
Proof.
  induction keywords as [|k ks IH]; intros acc H; simpl; [done|].
  destruct (_at_capacity s (fst acc)); [done|]. apply IH.
  destruct (search k); [|done]. by apply register_all_preserves.
Qed.

Lemma scan_forwards_preserves (chat : string) (msgs : list scanned_message) :
  ∀ acc, P (fst acc) → P (fst (scan_forwards s acc chat msgs)).
Proof.
  induction msgs as [|m ms IH]; intros acc H; simpl; [done|].
  destruct (_at_capacity s (fst acc)); [done|].
  destruct (sm_forward_source m); [|by apply IH].
  apply IH. by apply offer_preserves.
Qed.

Lemma scan_mentions_preserves (chat : string)
    (mentions : list (option found_chat)) :
  ∀ acc, P (fst acc) → P (fst (scan_mentions s acc chat mentions)).
Proof.
  induction mentions as [|m ms IH]; intros acc H; simpl; [done|].
  destruct (_at_capacity s (fst acc)); [done|].
  destruct m; [|by apply IH]. apply IH. by apply register_found_preserves.
Qed.

Lemma scan_known_preserves (step : t → Z → t * nat) (ids : list Z) :
  (∀ d chat_id, P d → P (fst (step d chat_id))) →
  ∀ acc, P (fst acc) → P (fst (scan_known s step acc ids)).
Proof.
  intros Hstep. induction ids as [|c ids IH]; intros acc H; simpl; [done|].
  pose proof (Hstep (fst acc) c H) as H'.
  destruct (step (fst acc) c) as [d' n]. simpl in H'.
  destruct (_at_capacity s d'); [done|]. by apply IH.
Qed.

Lemma run_cycle_preserves (d : t) (generated : list string)
    (search : string → option (list found_chat))
    (forwards : Z → list scanned_message)
    (descriptions : Z → description_env) :
  P (set_generated_keywords generated d) →
  P (fst (run_cycle s d generated search forwards descriptions)).
Proof.
  intros H. unfold run_cycle.
  set (acc1 := search_by_keywords s _ search).
  assert (H1 : P (fst acc1)) by (by apply search_keywords_preserves).
  set (acc2 := if Settings.discovery_scan_forwards s then _ else acc1).
  assert (H2 : P (fst acc2)).
  { unfold acc2. destruct (Settings.discovery_scan_forwards s); [|done].
    apply scan_known_preserves; [|done].
    intros d0 c H0. by apply scan_forwards_preserves. }
  destruct (Settings.discovery_scan_descriptions s); [|done].
  apply scan_known_preserves; [|done].
  intros d0 c H0. unfold extract_from_description.
  destruct (de_is_channel _) as [[|]|]; [|done..].
  by apply scan_mentions_preserves.
Qed.
End Preserved.

Lemma _try_register_sets (s : Settings.t) (d : t) (telegram_id : Z)
    (source : string) (username title : option string) (e : register_env) :
  let d' := fst (_try_register s d telegram_id source username title e) in
  (_known_ids d' = _known_ids d ∧ _rejected_ids d' = _rejected_ids d) ∨
  (_known_ids d' = {[telegram_id]} ∪ _known_ids d ∧
   _rejected_ids d' = _rejected_ids d ∧ telegram_id ∉ _rejected_ids d) ∨
  (_known_ids d' = _known_ids d ∧
   _rejected_ids d' = {[telegram_id]} ∪ _rejected_ids d ∧
   telegram_id ∉ _known_ids d).
Proof.
  unfold _try_register.
  destruct (decide (telegram_id ∈ _known_ids d)) as [Hk|Hk].
  { rewrite bool_decide_eq_true_2 by done. by left. }
  rewrite (bool_decide_eq_false_2 _ Hk).
  destruct (decide (telegram_id ∈ _rejected_ids d)) as [Hr|Hr].
  { rewrite bool_decide_eq_true_2 by done. by left. }
  rewrite (bool_decide_eq_false_2 _ Hr). simpl.
  destruct (_at_capacity s d); [by left|].
  destruct (Repository.get_channel_by_telegram_id _ _) as [old|].
  { right. by left. }
  destruct (if blank username && blank title then re_entity e
            else Some (username, title)) as [[username' title']|];
    [|by left].
  destruct (_validate_channel (re_validate e)); simpl.
  - right. by left.
  - right. by right.
Qed.

(** X17. Discovery never forgets and never contradicts a decision. Over
    a whole cycle, whatever the platform and the LLM answer, every id that
    was known stays known and every rejected id stays rejected; and if no
    id was both known and rejected before the cycle, none is after it. *)
Theorem run_cycle_keeps_decisions (s : Settings.t) (d : t)
    (generated : list string) (search : string → option (list found_chat))
    (forwards : Z → list scanned_message)
    (descriptions : Z → description_env) :
  let d' := fst (run_cycle s d generated search forwards descriptions) in
  _known_ids d ⊆ _known_ids d' ∧ _rejected_ids d ⊆ _rejected_ids d' ∧
  (_known_ids d ## _rejected_ids d → _known_ids d' ## _rejected_ids d').
Proof.
  apply (run_cycle_preserves s (fun d' =>
    _known_ids d ⊆ _known_ids d' ∧ _rejected_ids d ⊆ _rejected_ids d' ∧
    (_known_ids d ## _rejected_ids d → _known_ids d' ## _rejected_ids d'))).
  - intros d0 tid source username title e (Hk & Hr & Hd).
    destruct (_try_register_sets s d0 tid source username title e)
      as [[E1 E2]|[(E1 & E2 & Hn)|(E1 & E2 & Hn)]]; rewrite E1, E2.
    + done.
    + split; [set_solver|]. split; [done|]. intros H. specialize (Hd H).
      set_solver.
    + split; [done|]. split; [set_solver|]. intros H. specialize (Hd H).
      set_solver.
  - done.
Qed.

Lemma registered_rows_refl (d : t) (n : nat) :
  n = O → registered_rows d (d, n).
Proof. intros ->. exists []. by rewrite app_nil_r. Qed.

Lemma registered_rows_trans (d0 d1 d2 : t) (n m : nat) :
  registered_rows d0 (d1, n) → registered_rows d1 (d2, m) →
  registered_rows d0 (d2, (n + m)%nat).
Proof.
  intros (r1 & H1 & L1 & F1) (r2 & H2 & L2 & F2). simpl in *.
  exists (r1 ++ r2)%list. simpl. repeat split.
  - by rewrite H2, H1, <- app_assoc.
  - rewrite length_app. lia.
  - by apply Forall_app.
Qed.

Lemma _try_register_rows (s : Settings.t) (d : t) (telegram_id : Z)
    (source : string) (username title : option string) (e : register_env) :
  let p := _try_register s d telegram_id source username title e in
  registered_rows d (fst p, if snd p then 1%nat else O).
Proof.
  unfold _try_register.
  destruct (bool_decide _ || bool_decide _); [by apply registered_rows_refl|].
  destruct (_at_capacity s d); [by apply registered_rows_refl|].
  destruct (Repository.get_channel_by_telegram_id _ _) as [old|] eqn:Hold.
  { exists []. by rewrite app_nil_r. }
  destruct (if blank username && blank title then re_entity e
            else Some (username, title)) as [[username' title']|];
    [|by apply registered_rows_refl].
  destruct (_validate_channel (re_validate e)); simpl.
  - unfold Repository.upsert_channel. simpl. rewrite Hold.
    eexists. simpl. split; [done|]. split; [done|].
    constructor; [|constructor]. simpl. eauto.
  - exists []. by rewrite app_nil_r.
Qed.

Lemma offer_rows (s : Settings.t) (d0 : t) (acc : t * nat) (source : string)
    (telegram_id : Z) (username title : option string) (e : register_env) :
  registered_rows d0 acc →
  registered_rows d0 (offer s acc source telegram_id username title e).
Proof.
  intros H. unfold offer.
  pose proof (_try_register_rows s (fst acc) telegram_id source username
                title e) as H'. cbv zeta in H'.
  destruct (_try_register _ _ _ _ _ _ _) as [d' added]. simpl in H'.
  destruct acc as [d n]. simpl in *.
  pose proof (registered_rows_trans _ _ _ _ _ H H') as Ht.
  destruct added; [|by rewrite Nat.add_0_r in Ht].
  by replace (S n) with (n + 1)%nat by lia.
Qed.

Lemma register_found_rows (s : Settings.t) (d0 : t) (source : string)
    (acc : t * nat) (chat : found_chat) :
  registered_rows d0 acc → registered_rows d0 (register_found s source acc chat).
Proof.
  intros H. unfold register_found.
  destruct (_ || _); [done|]. by apply offer_rows.
Qed.

Lemma search_keywords_rows (s : Settings.t) (d0 : t)
    (search : string → option (list found_chat)) (keywords : list string) :
  ∀ acc, registered_rows d0 acc →
         registered_rows d0 (search_keywords s acc keywords search).
Proof.
  induction keywords as [|k ks IH]; intros acc H; simpl; [done|].
  destruct (_at_capacity s (fst acc)); [done|]. apply IH.
  destruct (search k) as [chats|]; [|done].
  revert acc H. induction chats as [|c chats IHc]; intros acc H; simpl;
    [done|].
  apply IHc. by apply register_found_rows.
Qed.

Lemma scan_forwards_rows (s : Settings.t) (d0 : t) (chat : string)
    (msgs : list scanned_message) :
  ∀ acc, registered_rows d0 acc →
         registered_rows d0 (scan_forwards s acc chat msgs).
Proof.
  induction msgs as [|m ms IH]; intros acc H; simpl; [done|].
  destruct (_at_capacity s (fst acc)); [done|].
  destruct (sm_forward_source m); [|by apply IH].
  apply IH. by apply offer_rows.
Qed.

Lemma scan_mentions_rows (s : Settings.t) (d0 : t) (chat : string)
    (mentions : list (option found_chat)) :
  ∀ acc, registered_rows d0 acc →
         registered_rows d0 (scan_mentions s acc chat mentions).
Proof.
  induction mentions as [|m ms IH]; intros acc H; simpl; [done|].
  destruct (_at_capacity s (fst acc)); [done|].
  destruct m; [|by apply IH]. apply IH. by apply register_found_rows.
Qed.

Lemma scan_known_rows (s : Settings.t) (d0 : t) (step : t → Z → t * nat)
    (ids : list Z) :
  (∀ d chat_id, registered_rows d (step d chat_id)) →
  ∀ acc, registered_rows d0 acc →
         registered_rows d0 (scan_known s step acc ids).
Proof.
  intros Hstep. induction ids as [|c ids IH]; intros acc H; simpl; [done|].
  pose proof (Hstep (fst acc) c) as H'.
  destruct (step (fst acc) c) as [d' n]. destruct acc as [d m].
  pose proof (registered_rows_trans _ _ _ _ _ H H') as Ht.
  destruct (_at_capacity s d'); [done|]. by apply IH.
Qed.

(** X18. The number [run_cycle] returns is the number of channel rows the
    cycle added: the channels table after it is the table before it
    followed by exactly that many rows, every one of them active and
    carrying a discovery source and date. No existing row is changed. *)
Theorem run_cycle_counts_rows (s : Settings.t) (d : t)
    (generated : list string) (search : string → option (list found_chat))
    (forwards : Z → list scanned_message)
    (descriptions : Z → description_env) :
  let d' := fst (run_cycle s d generated search forwards descriptions) in
  let n := snd (run_cycle s d generated search forwards descriptions) in
  ∃ rows,
    Repository.channels (_repo d') = (Repository.channels (_repo d) ++ rows)%list ∧
    List.length rows = n ∧
    Forall (fun c =>
      Channel.is_active c = true ∧ is_Some (Channel.discovered_from c) ∧
      is_Some (Channel.discovered_at c)) rows.
Proof.
  change (registered_rows d
            (run_cycle s d generated search forwards descriptions)).
  unfold run_cycle.
  set (acc1 := search_by_keywords s _ search).
  assert (H1 : registered_rows d acc1).
  { apply search_keywords_rows. exists []. simpl. by rewrite app_nil_r. }
  set (acc2 := if Settings.discovery_scan_forwards s then _ else acc1).
  assert (H2 : registered_rows d acc2).
  { unfold acc2. destruct (Settings.discovery_scan_forwards s); [|done].
    apply scan_known_rows; [|done].
    intros d0 c. apply scan_forwards_rows. by apply registered_rows_refl. }
  destruct (Settings.discovery_scan_descriptions s); [|done].
  apply scan_known_rows; [|done].
  intros d0 c. unfold extract_from_description.
  destruct (de_is_channel _) as [[|]|]; try by apply registered_rows_refl.
  apply scan_mentions_rows. by apply registered_rows_refl.
Qed.

End RegistrationFacts.

(** ** Text normalisation *)

Module NormalizeFacts.
Import Text.

Lemma lower_char_idem (c : ascii) : lower_char (lower_char c) = lower_char c.
Proof.
  destruct c as [[] [] [] [] [] [] [] []]; vm_compute; reflexivity.
Qed.

Lemma lower_idem (l : list ascii) : lower (lower l) = lower l.
Proof.
  unfold lower. rewrite List.map_map. apply List.map_ext.
  apply lower_char_idem.
Qed.

Lemma sub_spaces_idem (l : list ascii) :
  ∀ b, sub_spaces b (sub_spaces b l) = sub_spaces b l.
Proof.
  induction l as [|c l IH]; intros b; simpl; [done|].
  destruct (isspace c) eqn:Hc.
  - destruct b; [apply IH|]. simpl. by rewrite (IH true).
  - simpl. rewrite Hc. by rewrite (IH false).
Qed.

Lemma lstrip_idem (l : list ascii) : lstrip (lstrip l) = lstrip l.
Proof.
  induction l as [|c l IH]; simpl; [done|].
  destruct (isspace c) eqn:Hc; [done|]. simpl. by rewrite Hc.
Qed.

Lemma rstrip_idem (l : list ascii) : rstrip (rstrip l) = rstrip l.
Proof. unfold rstrip. by rewrite rev_involutive, lstrip_idem. Qed.

Lemma lstrip_head (l : list ascii) :
  lstrip l = [] ∨ ∃ c l', lstrip l = c :: l' ∧ isspace c = false.
Proof.
  induction l as [|c l IH]; simpl; [by left|].
  destruct (isspace c) eqn:Hc; [done|]. right. eauto.
Qed.

Lemma strip_idem (l : list ascii) : strip (strip l) = strip l.
Proof.
  unfold strip.
  assert (H : lstrip (rstrip (lstrip l)) = rstrip (lstrip l)).
  { destruct (lstrip_head l) as [->|(c & l' & -> & Hc)]; [done|].
    rewrite TextFacts.rstrip_cons. simpl. rewrite Hc. simpl. by rewrite Hc. }
  by rewrite H, rstrip_idem.
Qed.

(** X19. The normalisation behind the text hash is idempotent:
    normalising a normalised text changes nothing, so a text and its
    normal form (trimmed, lower case, every run of whitespace one space)
    have the same hash, and any two texts with the same normal form are
    duplicates of each other for the intake. *)
Theorem normalize_idempotent (text : string) :
  normalize (normalize text) = normalize text ∧
  _compute_text_hash (normalize text) = _compute_text_hash text.
Proof.
  assert (H : normalize (normalize text) = normalize text).
  { unfold normalize. rewrite list_ascii_of_string_of_list_ascii. f_equal.
    rewrite TextFacts.strip_sub_spaces, TextFacts.strip_lower, strip_idem.
    rewrite <- TextFacts.sub_spaces_lower, lower_idem.
    apply sub_spaces_idem. }
  split; [done|]. unfold _compute_text_hash. by rewrite H.
Qed.

End NormalizeFacts.

(** ** Discovery: keywords and validation *)

Module KeywordFacts.
Import DiscoveryService.

Lemma existsb_eqb_elem (x : string) (seen : list string) :
  existsb (String.eqb x) seen = true ↔ x ∈ seen.
Proof.
  rewrite existsb_exists. split.
  - intros (y & Hin & Heq). apply String.eqb_eq in Heq. subst y.
    by apply list_elem_of_In.
  - intros H. exists x. split; [by apply list_elem_of_In|].
    apply String.eqb_refl.
Qed.

Lemma fromkeys_elem (l : list string) :
  ∀ seen x, x ∈ fromkeys seen l ↔ x ∈ l ∧ x ∉ seen.
Proof.
  induction l as [|y l IH]; intros seen x; simpl.
  - rewrite elem_of_nil. tauto.
  - destruct (existsb (String.eqb y) seen) eqn:Hy.
    + apply existsb_eqb_elem in Hy. rewrite IH, elem_of_cons.
      split; [tauto|]. intros [[->|H] Hn]; [done|tauto].
    + assert (Hy' : y ∉ seen).
      { intros H. apply existsb_eqb_elem in H. congruence. }
      rewrite !elem_of_cons, IH, elem_of_cons.
      destruct (decide (x = y)) as [->|Hne]; [tauto|]. tauto.
Qed.

Lemma fromkeys_NoDup (l : list string) :
  ∀ seen, NoDup (fromkeys seen l).
Proof.
  induction l as [|y l IH]; intros seen; simpl; [constructor|].
  destruct (existsb (String.eqb y) seen); [apply IH|].
  apply NoDup_cons. split; [|apply IH].
  rewrite fromkeys_elem, elem_of_cons. tauto.
Qed.

Lemma fromkeys_prefix (a : list string) :
  ∀ seen b,
  NoDup a → (∀ x, x ∈ a → x ∉ seen) →
  fromkeys seen (a ++ b) = (a ++ fromkeys (rev a ++ seen) b)%list.
Proof.
  induction a as [|y a IH]; intros seen b Hnd Hseen; simpl; [done|].
  apply NoDup_cons in Hnd as [Hy Hnd].
  assert (Hy' : existsb (String.eqb y) seen = false).
  { destruct (existsb _ _) eqn:E; [|done].
    apply existsb_eqb_elem in E. destruct (Hseen y); [left|done]. }
  rewrite Hy'. f_equal. rewrite IH; [by rewrite <- app_assoc|done|].
  intros x Hx. rewrite elem_of_cons. intros [->|Hs]; [done|].
  apply (Hseen x); [by right|done].
Qed.

(** X20. The keywords of a search. [_get_all_keywords] returns every
    configured, generated and fallback keyword, each exactly once; the
    fifteen fallback keywords are always among them, so a search never runs
    on an empty list; and configured keywords, when they are distinct, come
    first and in their configured order. *)
Theorem _get_all_keywords_merge (s : Settings.t) (d : t) :
  NoDup (_get_all_keywords s d) ∧
  (∀ k, k ∈ _get_all_keywords s d ↔
        k ∈ Settings.discovery_search_keywords s ∨
        k ∈ _generated_keywords d ∨ k ∈ _FALLBACK_KEYWORDS) ∧
  (15 ≤ List.length (_get_all_keywords s d))%nat ∧
  (NoDup (Settings.discovery_search_keywords s) →
   ∃ rest,
     _get_all_keywords s d
     = (Settings.discovery_search_keywords s ++ rest)%list).
Proof.
  unfold _get_all_keywords.
  assert (Hmem : ∀ k,
    k ∈ fromkeys []
          (Settings.discovery_search_keywords s
           ++ _generated_keywords d ++ _FALLBACK_KEYWORDS) ↔
    k ∈ Settings.discovery_search_keywords s ∨
    k ∈ _generated_keywords d ∨ k ∈ _FALLBACK_KEYWORDS).
  { intros k. rewrite fromkeys_elem, !elem_of_app, elem_of_nil. tauto. }
  split; [apply fromkeys_NoDup|]. split; [done|]. split.
  - assert (Hfb : NoDup _FALLBACK_KEYWORDS)
      by (apply (bool_decide_unpack _); vm_compute; exact I).
    change 15%nat with (List.length _FALLBACK_KEYWORDS).
    apply submseteq_length, NoDup_submseteq; [done|].
    intros k Hk. apply Hmem. tauto.
  - intros Hnd. eexists. apply fromkeys_prefix; [done|].
    intros x _. apply not_elem_of_nil.
Qed.

Lemma substring_length (n : nat) :
  ∀ x, (String.length (String.substring 0 n x) ≤ n)%nat.
Proof.
  induction n as [|n IH]; intros x.
  - destruct x; simpl; lia.
  - destruct x as [|c x]; simpl; [lia|]. specialize (IH x). lia.
Qed.

Lemma substring_nonempty (n : nat) (x : string) :
  x ≠ "" → String.substring 0 (S n) x ≠ "".
Proof. by destruct x. Qed.

Lemma take_samples_bounds (msgs : list (option string)) :
  ∀ room,
  (List.length (take_samples room msgs) ≤ room)%nat ∧
  Forall (fun x =>
    x ≠ "" ∧ (String.length x ≤ 300)%nat ∧
    ∃ full, In (Some full) msgs ∧ x = String.substring 0 300 full)
    (take_samples room msgs).
Proof.
  induction msgs as [|m msgs IH]; intros room.
  - destruct room; simpl; split; (lia || constructor).
  - destruct room as [|room]; [simpl; split; [lia|constructor]|].
    assert (Hweak : ∀ r,
      Forall (fun x => x ≠ "" ∧ (String.length x ≤ 300)%nat ∧
                ∃ full, In (Some full) msgs ∧ x = String.substring 0 300 full)
        (take_samples r msgs) →
      Forall (fun x => x ≠ "" ∧ (String.length x ≤ 300)%nat ∧
                ∃ full, In (Some full) (m :: msgs)
                        ∧ x = String.substring 0 300 full)
        (take_samples r msgs)).
    { intros r. apply List.Forall_impl.
      intros x (H1 & H2 & full & H3 & H4). repeat split; try done.
      exists full. split; [by right|done]. }
    destruct m as [x|]; simpl.
    + destruct (String.eqb_spec x "") as [->|Hx].
      * destruct (IH (S room)) as [H1 H2]. split; [done|by apply Hweak].
      * destruct (IH room) as [H1 H2]. split; [simpl; lia|].
        constructor; [|by apply Hweak]. split; [by apply substring_nonempty|].
        split; [apply substring_length|]. exists x. split; [by left|done].
    + destruct (IH (S room)) as [H1 H2]. split; [done|by apply Hweak].
Qed.

(** X21. The validation of a candidate channel is conservative. It
    answers [True] only if reading the sample raised nothing, at least one
    message had text, and the LLM answered an object whose [is_relevant]
    is the boolean [true] itself; a missing key, a number, a string, a
    failed or unparsable answer all reject. The sample holds at most five
    texts, each a non-empty message text cut to its first 300 characters. *)
Theorem _validate_channel_conservative (e : validate_env) :
  (_validate_channel e = true ↔
   ve_raises e = false ∧ take_samples 5 (ve_messages e) ≠ [] ∧
   ∃ d, ve_answer e = Llm.Decoded (Json.JObj d) ∧
        Json.dict_get d "is_relevant" = Some (Json.JBool true)) ∧
  (List.length (take_samples 5 (ve_messages e)) ≤ 5)%nat ∧
  Forall (fun x =>
    x ≠ "" ∧ (String.length x ≤ 300)%nat ∧
    ∃ full, In (Some full) (ve_messages e) ∧ x = String.substring 0 300 full)
    (take_samples 5 (ve_messages e)).
Proof.
  split; [|apply take_samples_bounds].
  unfold _validate_channel.
  destruct (ve_raises e); [split; [done|by intros [? _]]|].
  destruct (take_samples 5 (ve_messages e)) as [|x xs];
    [split; [done|by intros (_ & ? & _)]|].
  destruct (ve_answer e) as [| |[]];
    try (split; [done|by intros (_ & _ & d & ? & _)]).
  destruct (Json.dict_get members "is_relevant") as [[]|] eqn:Hd;
    try (split; [done|intros (_ & _ & d & [= <-] & Hd'); congruence]).
  destruct b.
  - split; [|done]. intros _. repeat split; try done. by exists members.
  - split; [done|]. intros (_ & _ & d & [= <-] & Hd'). congruence.
Qed.

End KeywordFacts.

(** ** The warm-up schedule over time *)

Module WarmupFacts.
Import RateLimiter.

Lemma weeks_since_start_mono (rl : t) (now now' : instant) :
  now ≤ now' → weeks_since_start rl now ≤ weeks_since_start rl now'.
Proof.
  intros H. unfold weeks_since_start, timedelta_days, usec_per_day.
  apply Z.add_le_mono_r. apply Z.div_le_mono; [lia|].
  apply Z.div_le_mono; lia.
Qed.

(** X22. The daily limit over time. While the clock reads less than
    seven days after the start, also when it reads before the start, the
    limit is the first tier. If the four tiers do not decrease from one to
    the next, the limit never decreases as time passes. *)
Theorem get_current_daily_limit_monotone (rl : t) :
  (∀ now, now < _started_at rl + 7 * usec_per_day →
          get_current_daily_limit rl now = warmup_get rl "week_1" 2) ∧
  (warmup_get rl "week_1" 2 ≤ warmup_get rl "week_2" 5 →
   warmup_get rl "week_2" 5 ≤ warmup_get rl "week_3" 8 →
   warmup_get rl "week_3" 8 ≤ warmup_get rl "week_4_plus" 12 →
   ∀ now now', now ≤ now' →
     get_current_daily_limit rl now ≤ get_current_daily_limit rl now').
Proof.
  split.
  - intros now Hnow. unfold get_current_daily_limit.
    assert (H : weeks_since_start rl now ≤ 1).
    { unfold weeks_since_start, timedelta_days, usec_per_day in *.
      assert ((now - _started_at rl) / 86400000000 < 7)
        by (apply Z.div_lt_upper_bound; lia).
      assert ((now - _started_at rl) / 86400000000 / 7 < 1)
        by (apply Z.div_lt_upper_bound; lia).
      lia. }
    destruct (Z.leb_spec (weeks_since_start rl now) 1); [done|lia].
  - intros H12 H23 H34 now now' Hle.
    pose proof (weeks_since_start_mono rl now now' Hle) as Hw.
    unfold get_current_daily_limit.
    repeat match goal with
           | |- context [?a <=? ?b] => destruct (Z.leb_spec a b)
           end; lia.
Qed.

End WarmupFacts.

(** ** The daily summary: when it is sent *)

Module SummaryFacts.

Lemma day_split (t : Z) :
  ∃ q r, t = q * 86400000000 + r ∧ 0 ≤ r < 86400000000
         ∧ t / usec_per_day = q ∧ t mod usec_per_day = r.
Proof.
  exists (t / usec_per_day), (t mod usec_per_day). unfold usec_per_day.
  pose proof (Z.div_mod t 86400000000 ltac:(lia)).
  pose proof (Z.mod_pos_bound t 86400000000 ltac:(lia)). lia.
Qed.

Lemma mod_day_unique (q r : Z) :
  0 ≤ r < 86400000000 → (q * 86400000000 + r) mod usec_per_day = r.
Proof.
  intros Hr. unfold usec_per_day. symmetry.
  apply (Z.mod_unique _ _ q); [lia|lia].
Qed.

(** X23. When the daily summary is due. The target the summary loop
    computes is the first 21:00 UTC strictly after the clock reading: it
    lies after [now] and at most a day later, it is a 21:00, and no 21:00
    lies between; so the sleep is positive and at most 86400 seconds. A
    loop that wakes at or after its target, and less than a day after it,
    next aims at the 21:00 of the following day: at most one summary is
    sent per day. *)
Theorem summary_target_is_next_21h (now : instant) :
  let target := Orchestrator.summary_target now in
  now < target ≤ now + usec_per_day ∧
  target mod usec_per_day = 21 * usec_per_hour ∧
  (∀ t, now < t → t mod usec_per_day = 21 * usec_per_hour → target ≤ t) ∧
  (0 < Orchestrator.summary_wait now)%Q ∧
  (Orchestrator.summary_wait now <= 86400)%Q ∧
  (∀ woke, target ≤ woke < target + usec_per_day →
           Orchestrator.summary_target woke = target + usec_per_day).
Proof.
  intros target.
  destruct (day_split now) as (q & r & Hnow & Hr & Hq & _).
  assert (Ht : (r < 75600000000 ∧ target = q * 86400000000 + 75600000000)
               ∨ (75600000000 ≤ r
                  ∧ target = (q + 1) * 86400000000 + 75600000000)).
  { unfold target, Orchestrator.summary_target. rewrite Hq.
    unfold usec_per_day, usec_per_hour.
    destruct (Z.leb_spec (q * 86400000000 + 21 * 3600000000) now); lia. }
  assert (Hbounds : now < target ≤ now + usec_per_day)
    by (unfold usec_per_day; lia).
  split; [done|]. split; [|split; [|split; [|split]]].
  - destruct Ht as [[_ ->]|[_ ->]]; rewrite mod_day_unique;
      unfold usec_per_hour; lia.
  - intros t Hlt Hmod.
    destruct (day_split t) as (q' & r' & Ht' & Hr' & _ & Hm).
    rewrite Hm in Hmod. unfold usec_per_hour in Hmod. nia.
  - unfold Orchestrator.summary_wait. fold target. unfold Qlt. simpl. lia.
  - unfold Orchestrator.summary_wait. fold target. unfold Qle. simpl.
    unfold usec_per_day in Hbounds. lia.
  - intros woke Hw. unfold usec_per_day in Hw.
    destruct (day_split woke) as (qw & rw & Hwoke & Hrw & Hqw & _).
    unfold Orchestrator.summary_target. rewrite Hqw.
    unfold usec_per_day, usec_per_hour.
    destruct (Z.leb_spec (qw * 86400000000 + 21 * 3600000000) woke); nia.
Qed.

End SummaryFacts.

(** ** The daily statistics *)

Module StatsFacts.
Import Repository.

Lemma stats_fold (rows : list Lead.t) (s : string) :
  let stats :=
    fold_right
      (fun l stats =>
         <[Lead.status l := 1 + default 0 (stats !! Lead.status l)]> stats)
      (∅ : gmap string Z) rows in
  default 0 (stats !! s)
  = Z.of_nat
      (List.length (List.filter (fun l => String.eqb (Lead.status l) s) rows))
  ∧ (is_Some (stats !! s) ↔ ∃ l, In l rows ∧ Lead.status l = s).
Proof.
  induction rows as [|l rows [IH1 IH2]]; simpl.
  - rewrite lookup_empty. split; [done|]. split; [intros [? ?]; discriminate|].
    by intros (? & [] & _).
  - cbv zeta in IH1, IH2. destruct (String.eqb_spec (Lead.status l) s) as [Heq|Hne].
    + rewrite Heq, lookup_insert_eq. simpl. rewrite IH1. split; [lia|].
      split; [|done]. intros _. exists l. by split; [left|].
    + rewrite lookup_insert_ne by done. split; [done|].
      rewrite IH2. split.
      * intros (l' & Hin & Hs). exists l'. by split; [right|].
      * intros (l' & [<-|Hin] & Hs); [done|]. by exists l'.
Qed.

(** X24. The counts of the daily summary. For every status the count
    [get_daily_stats] reports is the number of leads
    [get_leads_by_status] returns for it, and a status has an entry exactly
    when some lead has it: no lead is counted twice or under two
    statuses, and no zero is reported. *)
Theorem get_daily_stats_counts (db : t) (status : string) :
  default 0 (get_daily_stats db !! status)
  = Z.of_nat (List.length (get_leads_by_status db status)) ∧
  (is_Some (get_daily_stats db !! status) ↔
   get_leads_by_status db status ≠ []) ∧
  (∀ n, get_daily_stats db !! status = Some n → 0 < n).
Proof.
  destruct (stats_fold (leads db) status) as [H1 H2].
  cbv zeta in H1, H2. fold (get_daily_stats db) in H1, H2.
  fold (get_leads_by_status db status) in H1.
  assert (H3 : is_Some (get_daily_stats db !! status) ↔
               get_leads_by_status db status ≠ []).
  { rewrite H2. unfold get_leads_by_status. split.
    - intros (l & Hin & Hs) Hnil.
      assert (Hf : In l (List.filter
                           (fun l => String.eqb (Lead.status l) status)
                           (leads db)))
        by (apply filter_In; split; [done|by apply String.eqb_eq]).
      by rewrite Hnil in Hf.
    - intros Hne.
      destruct (List.filter _ (leads db)) as [|l ls] eqn:Hf; [done|].
      assert (Hin : In l (List.filter
                            (fun l => String.eqb (Lead.status l) status)
                            (leads db)))
        by (rewrite Hf; by left).
      apply filter_In in Hin as [Hin Hs]. exists l.
      split; [done|by apply String.eqb_eq]. }
  split; [done|]. split; [done|].
  intros n Hn. rewrite Hn in H1. simpl in H1.
  assert (Hs : is_Some (get_daily_stats db !! status)) by (by rewrite Hn).
  apply H3 in Hs. destruct (get_leads_by_status db status); [done|].
  simpl in H1. lia.
Qed.

End StatsFacts.

(** ** Discovery: the capacity over the whole loop *)

Module CapacityFacts.
Import DiscoveryService.

(** X25. The capacity holds over the whole life of the discovery loop.
    After any number of cycles, whatever they meet, the number of known
    ids is at most the larger of [discovery_max_channels] and their number
    at the start; a service that starts within its capacity stays within
    it. *)
Theorem _discovery_loop_capacity (s : Settings.t) (es : list cycle_env)
    (d : t) :
  Z.of_nat (size (_known_ids (_discovery_loop s d es)))
  ≤ Z.max (Settings.discovery_max_channels s) (Z.of_nat (size (_known_ids d)))
  ∧ (Z.of_nat (size (_known_ids d)) ≤ Settings.discovery_max_channels s →
     Z.of_nat (size (_known_ids (_discovery_loop s d es)))
     ≤ Settings.discovery_max_channels s).
Proof.
  assert (H : Z.of_nat (size (_known_ids (_discovery_loop s d es)))
              ≤ Z.max (Settings.discovery_max_channels s)
                  (Z.of_nat (size (_known_ids d)))).
  { unfold _discovery_loop. revert d.
    induction es as [|e es IH]; intros d; simpl; [lia|].
    etransitivity; [apply IH|].
    pose proof (DiscoveryFacts.run_cycle_bounded s d (ce_generated e)
                  (ce_search e) (ce_forwards e) (ce_descriptions e)).
    lia. }
  split; [done|]. lia.
Qed.

End CapacityFacts.

(** ** Replies: what is recorded, for whom, and how often *)

Module ResponderFacts.
Import Repository.

#[local] Set Warnings "-clear-no-such-hyp".

(** What a call of [_process_reply] that returns has written. *)
Lemma _process_reply_returns (db : t) (lead lead' : Lead.t)
    (text : option string) (msg_id : Z) (sender_id : option Z)
    (e : Responder.reply_env) (db' : t) :
  Responder._process_reply db lead text msg_id sender_id e
  = (db', Return lead') →
  ∃ i sentiment,
    Lead.id lead = Some i ∧
    lead' = Lead.set_replied_at (Some (Responder.rp_replied e))
              (Lead.set_status "replied" lead) ∧
    db' = update_lead
            (set_replies
               (replies db ++
                  [Reply.mk (Some (next_id Reply.id (replies db))) i
                     (Some msg_id) sender_id text sentiment
                     (Some (Responder.rp_received e))]) db)
            lead' ∧
    (∃ v, Responder.sentiment_of (Responder.rp_answer e) = Return v ∧
          Responder.sentiment_column v = Some sentiment).
Proof.
  unfold Responder._process_reply.
  destruct (Responder.sentiment_of _) as [v|] eqn:Hv; [|done].
  destruct (Responder.sentiment_column v) as [sentiment|] eqn:Hc; [|done].
  destruct (Lead.id lead) as [i|] eqn:Hi; [|done].
  intros [= <- <-]. exists i, sentiment. repeat split; try done.
  by exists v.
Qed.

Lemma _process_reply_raises (db : t) (lead : Lead.t)
    (text : option string) (msg_id : Z) (sender_id : option Z)
    (e : Responder.reply_env) (db' : t) :
  Responder._process_reply db lead text msg_id sender_id e = (db', Raise) →
  db' = db.
Proof.
  unfold Responder._process_reply.
  destruct (Responder.sentiment_of _) as [v|]; [|by intros [= <-]].
  destruct (Responder.sentiment_column v) as [sentiment|];
    [|by intros [= <-]].
  destruct (Lead.id lead) as [i|]; [done|by intros [= <-]].
Qed.

(** X26. What recording a reply does. When [_process_reply] returns, it
    has appended exactly one reply, last among the replies of its lead,
    with the message id, sender, text and receipt time given, and has
    written the lead back with status [replied] and [replied_at] stamped;
    messages, channels and budgets are untouched. The sentiment stored is
    [unclear] whenever the analysis gave invalid JSON, a falsy answer, or
    an object without a [sentiment]; otherwise it is the string the object
    holds. When the transport of the analysis raises, or the answer is
    truthy and not an object, the call raises and nothing is written: the
    reply is not stored and the lead keeps its status. *)
Theorem _process_reply_records (db : t) (lead : Lead.t)
    (text : option string) (msg_id : Z) (sender_id : option Z)
    (e : Responder.reply_env) :
  let p := Responder._process_reply db lead text msg_id sender_id e in
  (snd p = Raise → fst p = db) ∧
  (∀ lead', snd p = Return lead' →
     ∃ i row,
       Lead.id lead = Some i ∧
       Lead.status lead' = "replied" ∧
       Lead.replied_at lead' = Some (Responder.rp_replied e) ∧
       Lead.id lead' = Some i ∧
       leads (fst p) = leads (update_lead db lead') ∧
       replies (fst p) = (replies db ++ [row])%list ∧
       get_replies_for_lead (fst p) (Some i)
       = (get_replies_for_lead db (Some i) ++ [row])%list ∧
       Reply.lead_id row = i ∧ Reply.telegram_msg_id row = Some msg_id ∧
       Reply.sender_id row = sender_id ∧ Reply.text row = text ∧
       Reply.received_at row = Some (Responder.rp_received e) ∧
       (∀ x d, Responder.rp_answer e = Llm.Decoded (Json.JObj d) →
               Json.dict_get d "sentiment" = Some (Json.JStr x) →
               Reply.sentiment row = Some x) ∧
       ((Responder.rp_answer e = Llm.Invalid_json ∨
         (∃ v, Responder.rp_answer e = Llm.Decoded v ∧ Json.truthy v = false) ∨
         (∃ d, Responder.rp_answer e = Llm.Decoded (Json.JObj d) ∧
               Json.dict_get d "sentiment" = None)) →
        Reply.sentiment row = Some "unclear") ∧
       messages (fst p) = messages db ∧ channels (fst p) = channels db ∧
       daily_budget (fst p) = daily_budget db) ∧
  (Responder.rp_answer e = Llm.Transport_error ∨
   (∃ v, Responder.rp_answer e = Llm.Decoded v ∧ Json.truthy v = true ∧
         ∀ d, v ≠ Json.JObj d) →
   p = (db, Raise)).
Proof.
  intros p. split; [|split].
  - intros Hr. destruct p as [db' r] eqn:Hp. simpl in *. subst r.
    by apply _process_reply_raises in Hp.
  - intros lead' Hr. destruct p as [db' r] eqn:Hp. simpl in *. subst r.
    apply _process_reply_returns in Hp
      as (i & sentiment & Hi & -> & -> & v & Hv & Hc).
    eexists i, _. split; [done|]. split; [done|]. split; [done|].
    split; [done|]. split; [done|]. split; [done|]. split.
    { unfold get_replies_for_lead. simpl. rewrite List.filter_app. simpl.
      by rewrite bool_decide_eq_true_2. }
    simpl. repeat split; try done.
    + intros x d Ha Hd. unfold Responder.sentiment_of in Hv.
      rewrite Ha in Hv. destruct (Json.truthy _) eqn:Ht.
      * rewrite Hd in Hv. simpl in Hv. injection Hv as <-. simpl in Hc.
        congruence.
      * exfalso. destruct d; [done|]. by simpl in Ht.
    + intros Hu. unfold Responder.sentiment_of in Hv.
      assert (v = Json.JStr "unclear") as ->.
      { destruct Hu as [Ha|[(v' & Ha & Hf)|(d & Ha & Hd)]]; rewrite Ha in Hv.
        - congruence.
        - rewrite Hf in Hv. congruence.
        - rewrite Hd in Hv. simpl in Hv. destruct d; simpl in Hv; congruence. }
      simpl in Hc. congruence.
  - unfold p, Responder._process_reply, Responder.sentiment_of.
    intros [->|(v & -> & Ht & Hn)]; [done|]. rewrite Ht.
    destruct v; try done. by destruct (Hn members).
Qed.

(** *** Leads the reply paths do not touch *)

Lemma _process_reply_other (db db' : t) (lead : Lead.t)
    (text : option string) (msg_id : Z) (sender_id : option Z)
    (e : Responder.reply_env) (r : result Lead.t) (i : Z) :
  Lead.id lead ≠ Some i →
  Responder._process_reply db lead text msg_id sender_id e = (db', r) →
  get_lead db' i = get_lead db i ∧
  get_replies_for_lead db' (Some i) = get_replies_for_lead db (Some i) ∧
  ∀ lead', r = Return lead' → Lead.id lead' = Lead.id lead.
Proof.
  intros Hid Hp. destruct r as [lead'|].
  - apply _process_reply_returns in Hp as (j & sentiment & Hj & -> & -> & _).
    split; [|split].
    + rewrite ForwardingFacts.get_lead_update_other by done. done.
    + unfold get_replies_for_lead. simpl. rewrite List.filter_app. simpl.
      rewrite bool_decide_eq_false_2 by congruence. by rewrite app_nil_r.
    + by intros ? [= <-].
  - apply _process_reply_raises in Hp as ->. by repeat split.
Qed.

Lemma poll_thread_other (our : option Z) (i : Z)
    (msgs : list Responder.thread_message) :
  ∀ db lead, Lead.id lead ≠ Some i →
  get_lead (Responder.poll_thread our db lead msgs) i = get_lead db i ∧
  get_replies_for_lead (Responder.poll_thread our db lead msgs) (Some i)
  = get_replies_for_lead db (Some i).
Proof.
  induction msgs as [|msg rest IH]; intros db lead Hid; simpl; [done|].
  destruct (_ || _); [by apply IH|].
  destruct (Responder.already_recorded _ _ _); [by apply IH|].
  destruct (Responder._process_reply _ _ _ _ _ _) as [db' r] eqn:Hp.
  destruct (_process_reply_other _ _ _ _ _ _ _ _ i Hid Hp) as (H1 & H2 & H3).
  destruct r as [lead'|]; [|done].
  destruct (IH db' lead') as [H4 H5]; [by rewrite (H3 lead')|].
  by rewrite H4, H5.
Qed.

Lemma poll_lead_other (our : option Z) (i : Z) (db : t) (lead : Lead.t)
    (thread : list Responder.thread_message) :
  Lead.id lead ≠ Some i →
  get_lead (Responder.poll_lead our db lead thread) i = get_lead db i ∧
  get_replies_for_lead (Responder.poll_lead our db lead thread) (Some i)
  = get_replies_for_lead db (Some i).
Proof.
  intros Hid. unfold Responder.poll_lead.
  destruct (Lead.outreach_msg_id lead); [|done].
  destruct (_ =? 0); [done|].
  destruct (get_message _ _); [|done].
  destruct (channel_row _ _); [|done].
  by apply poll_thread_other.
Qed.

Lemma poll_fold_other (our : option Z) (i : Z)
    (threads : option Z → list Responder.thread_message) (ls : list Lead.t) :
  ∀ db, (∀ lead, In lead ls → Lead.id lead ≠ Some i) →
  let db' :=
    fold_left
      (fun db lead =>
         Responder.poll_lead our db lead (threads (Lead.id lead))) ls db in
  get_lead db' i = get_lead db i ∧
  get_replies_for_lead db' (Some i) = get_replies_for_lead db (Some i).
Proof.
  induction ls as [|lead ls IH]; intros db Hls; simpl; [done|].
  destruct (poll_lead_other our i db lead (threads (Lead.id lead)))
    as [H1 H2]; [apply Hls; by left|].
  destruct (IH (Responder.poll_lead our db lead (threads (Lead.id lead))))
    as [H3 H4]; [intros l Hl; apply Hls; by right|].
  cbv zeta in H3, H4. by rewrite H3, H4.
Qed.

Lemma snapshot_other (db : t) (status : string) (i : Z) (l lead : Lead.t) :
  keyed Lead.id (leads db) → get_lead db i = Some l →
  Lead.status l ≠ status →
  In lead (get_leads_by_status db status) → Lead.id lead ≠ Some i.
Proof.
  intros Hk Hl Hst Hin Hid. apply filter_In in Hin as [Hin Hs].
  apply String.eqb_eq in Hs.
  apply List.find_some in Hl as [Hl Hli]. apply bool_decide_eq_true in Hli.
  assert (lead = l)
    by (apply (JanitorFacts.keyed_inj Lead.id _ _ _ Hk Hin Hl); congruence).
  congruence.
Qed.

(** X27. Replies are recorded for contacted leads only. With unique lead
    ids, a lead in any status other than [contacted] is left as it is by a
    poll of the threads and by the handler of private messages, and no
    reply is added to it, whatever the threads hold and whoever writes. In
    particular, once a first reply has made a lead [replied], later
    replies in its thread and later private messages of its sender are
    not recorded. *)
Theorem replies_only_for_contacted (db : t) (i : Z) (l : Lead.t)
    (our_user_id : option Z) :
  keyed Lead.id (leads db) →
  get_lead db i = Some l → Lead.status l ≠ "contacted" →
  (∀ threads,
     let db' := Responder.poll_thread_replies our_user_id db threads in
     get_lead db' i = Some l ∧
     get_replies_for_lead db' (Some i) = get_replies_for_lead db (Some i)) ∧
  (∀ sender_id text msg_id e,
     let db' :=
       fst (Responder.on_private_message our_user_id db sender_id text
              msg_id e) in
     get_lead db' i = Some l ∧
     get_replies_for_lead db' (Some i) = get_replies_for_lead db (Some i)).
Proof.
  intros Hk Hl Hst. split.
  - intros threads db'.
    destruct (poll_fold_other our_user_id i threads
                (get_leads_by_status db "contacted") db) as [H1 H2].
    { intros lead Hin. by apply (snapshot_other db "contacted" i l). }
    cbv zeta in H1, H2. unfold db', Responder.poll_thread_replies.
    by rewrite H1, H2.
  - intros sender_id text msg_id e db'.
    unfold db', Responder.on_private_message.
    destruct (bool_decide _); [done|].
    destruct (List.find _ _) as [lead|] eqn:Hf; [|done].
    apply List.find_some in Hf as [Hin _].
    pose proof (snapshot_other db "contacted" i l lead Hk Hl Hst Hin) as Hid.
    destruct (Responder._process_reply _ _ _ _ _ _) as [db1 r] eqn:Hp.
    destruct (_process_reply_other _ _ _ _ _ _ _ _ i Hid Hp) as (H1 & H2 & _).
    destruct r; simpl; by rewrite H1, H2.
Qed.

Lemma replies_only_for_contacted_witness :
  let later := Scenario.thread_reply 603 "positive" in
  let db' :=
    Responder.poll_thread_replies (Some 99) Scenario.db_replied
      (fun _ => [later]) in
  let db'' :=
    fst (Responder.on_private_message (Some 99) Scenario.db_replied (Some 7)
           (Responder.tm_text later) 604 (Responder.tm_env later)) in
  (get_lead db' 1 = Some Scenario.replied_lead ∧
   List.map Reply.telegram_msg_id (get_replies_for_lead db' (Some 1))
   = [Some 601; Some 602]) ∧
  (get_lead db'' 1 = Some Scenario.replied_lead ∧
   List.map Reply.telegram_msg_id (get_replies_for_lead db'' (Some 1))
   = [Some 601; Some 602]).
Proof.
  intros later db' db''.
  destruct (replies_only_for_contacted Scenario.db_replied 1
              Scenario.replied_lead (Some 99)) as [H1 H2].
  - split.
    + apply (bool_decide_unpack _). vm_compute. exact I.
    + intros r Hr. vm_compute in Hr. by destruct Hr as [<-|[]].
  - vm_compute. reflexivity.
  - vm_compute. discriminate.
  - split.
    + destruct (H1 (fun _ => [later])) as [Ha Hb]. split; [exact Ha|].
      unfold db'. rewrite Hb. vm_compute. reflexivity.
    + destruct (H2 (Some 7) (Responder.tm_text later) 604
                  (Responder.tm_env later)) as [Ha Hb]. split; [exact Ha|].
      unfold db''. rewrite Hb. vm_compute. reflexivity.
Defined.

(** *** No message is recorded twice by the poll *)

Lemma _process_reply_distinct (db db' : t) (lead : Lead.t)
    (text : option string) (msg_id : Z) (sender_id : option Z)
    (e : Responder.reply_env) (r : result Lead.t) :
  Responder.replies_distinct db →
  Responder.already_recorded db lead msg_id = false →
  Responder._process_reply db lead text msg_id sender_id e = (db', r) →
  Responder.replies_distinct db' ∧
  (∃ new, replies db' = (replies db ++ new)%list) ∧
  ∀ lead', r = Return lead' → Lead.id lead' = Lead.id lead.
Proof.
  intros Hd Hrec Hp. destruct r as [lead'|].
  - apply _process_reply_returns in Hp as (j & sentiment & Hj & -> & -> & _).
    split; [|split; [by eexists|by intros ? [= <-]]].
    unfold Responder.replies_distinct in *. simpl. rewrite map_app.
    apply NoDup_app. split; [done|]. split; [|apply NoDup_singleton].
    intros pair Hin Hnew. simpl in Hnew. apply list_elem_of_singleton in Hnew.
    subst pair. apply list_elem_of_In, in_map_iff in Hin as (r & Hr & Hin).
    injection Hr as Hr1 Hr2.
    unfold Responder.already_recorded in Hrec. rewrite Hj in Hrec.
    assert (Ht : existsb
                   (fun r => bool_decide (Reply.telegram_msg_id r = Some msg_id))
                   (get_replies_for_lead db (Some j)) = true).
    { apply existsb_exists. exists r. split.
      - apply filter_In. split; [done|]. apply bool_decide_eq_true. congruence.
      - by apply bool_decide_eq_true. }
    congruence.
  - apply _process_reply_raises in Hp as ->.
    split; [done|]. split; [|done]. exists []. by rewrite app_nil_r.
Qed.

Lemma poll_thread_distinct (our : option Z)
    (msgs : list Responder.thread_message) :
  ∀ db lead, Responder.replies_distinct db →
  Responder.replies_distinct (Responder.poll_thread our db lead msgs) ∧
  ∃ new, replies (Responder.poll_thread our db lead msgs)
         = (replies db ++ new)%list.
Proof.
  assert (Hrefl : ∀ db : t, ∃ new, replies db = (replies db ++ new)%list)
    by (intros db; exists []; by rewrite app_nil_r).
  induction msgs as [|msg rest IH]; intros db lead Hd; simpl; [done|].
  destruct (_ || _); [by apply IH|].
  destruct (Responder.already_recorded _ _ _) eqn:Hrec; [by apply IH|].
  destruct (Responder._process_reply _ _ _ _ _ _) as [db' r] eqn:Hp.
  destruct (_process_reply_distinct _ _ _ _ _ _ _ _ Hd Hrec Hp)
    as (H1 & [new Hnew] & _).
  destruct r as [lead'|]; [|split; [done|by exists new]].
  destruct (IH db' lead' H1) as [H2 [new' Hnew']]. split; [done|].
  exists (new ++ new')%list. by rewrite Hnew', Hnew, <- app_assoc.
Qed.

(** X28. A poll records no thread message twice. If no lead has the same
    platform message recorded twice before [poll_thread_replies], none has
    after it, however often the threads yield a message, in this poll or
    in earlier ones; and the poll only appends to the replies: every reply
    stored before is still there, in place. *)
Theorem poll_records_once (our_user_id : option Z) (db : t)
    (threads : option Z → list Responder.thread_message) :
  Responder.replies_distinct db →
  let db' := Responder.poll_thread_replies our_user_id db threads in
  Responder.replies_distinct db' ∧
  ∃ new, replies db' = (replies db ++ new)%list.
Proof.
  unfold Responder.poll_thread_replies.
  generalize (get_leads_by_status db "contacted"). intros ls. revert db.
  induction ls as [|lead ls IH]; intros db Hd; simpl.
  { split; [done|]. exists []. by rewrite app_nil_r. }
  assert (H1 : Responder.replies_distinct
                 (Responder.poll_lead our_user_id db lead
                    (threads (Lead.id lead)))
               ∧ ∃ new, replies (Responder.poll_lead our_user_id db lead
                                   (threads (Lead.id lead)))
                        = (replies db ++ new)%list).
  { assert (Hrefl : ∃ new, replies db = (replies db ++ new)%list)
      by (exists []; by rewrite app_nil_r).
    unfold Responder.poll_lead.
    destruct (Lead.outreach_msg_id lead); [|done].
    destruct (_ =? 0); [done|].
    destruct (get_message _ _); [|done].
    destruct (channel_row _ _); [|done].
    by apply poll_thread_distinct. }
  destruct H1 as [H1 [new Hnew]].
  destruct (IH _ H1) as [H2 [new' Hnew']]. split; [done|].
  exists (new ++ new')%list. cbv zeta in Hnew'.
  by rewrite Hnew', Hnew, <- app_assoc.
Qed.

Lemma poll_records_once_witness :
  let db' :=
    Responder.poll_thread_replies (Some 99) Scenario.db_contacted
      (fun _ => [ Scenario.thread_reply 601 "positive";
                  Scenario.thread_reply 601 "negative";
                  Scenario.thread_reply 602 "negative" ]) in
  Responder.replies_distinct db' ∧
  List.map Reply.telegram_msg_id (replies db') = [Some 601; Some 602].
Proof.
  intros db'. split; [|vm_compute; reflexivity].
  apply (poll_records_once (Some 99) Scenario.db_contacted).
  unfold Responder.replies_distinct. vm_compute. apply NoDup_nil_2.
Defined.

End ResponderFacts.

(** ** The reply poller: leads it leaves alone *)

Module PollerFacts.
Import Repository.

(** *** The lead ids over a poll *)

Lemma _process_reply_ids (db db' : t) (lead : Lead.t)
    (text : option string) (msg_id : Z) (sender_id : option Z)
    (e : Responder.reply_env) (r : result Lead.t) :
  Responder._process_reply db lead text msg_id sender_id e = (db', r) →
  List.map Lead.id (leads db') = List.map Lead.id (leads db).
Proof.
  intros Hp. destruct r as [lead'|].
  - apply ResponderFacts._process_reply_returns in Hp
      as (j & sentiment & _ & -> & -> & _).
    by rewrite SendingFacts.update_lead_ids.
  - by apply ResponderFacts._process_reply_raises in Hp as ->.
Qed.

Lemma poll_thread_ids (our : option Z) (msgs : list Responder.thread_message) :
  ∀ db lead,
    List.map Lead.id (leads (Responder.poll_thread our db lead msgs))
    = List.map Lead.id (leads db).
Proof.
  induction msgs as [|msg rest IH]; intros db lead; simpl; [done|].
  destruct (_ || _); [by apply IH|].
  destruct (Responder.already_recorded _ _ _); [by apply IH|].
  destruct (Responder._process_reply _ _ _ _ _ _) as [db' r] eqn:Hp.
  apply _process_reply_ids in Hp. destruct r as [lead'|]; [|done].
  by rewrite IH.
Qed.

Lemma poll_lead_ids (our : option Z) (db : t) (lead : Lead.t)
    (thread : list Responder.thread_message) :
  List.map Lead.id (leads (Responder.poll_lead our db lead thread))
  = List.map Lead.id (leads db).
Proof.
  unfold Responder.poll_lead.
  destruct (Lead.outreach_msg_id lead); [|done].
  destruct (_ =? 0); [done|].
  destruct (get_message _ _); [|done].
  destruct (channel_row _ _); [|done].
  apply poll_thread_ids.
Qed.

Lemma poll_thread_replies_ids (our : option Z) (db : t)
    (threads : option Z → list Responder.thread_message) :
  List.map Lead.id (leads (Responder.poll_thread_replies our db threads))
  = List.map Lead.id (leads db).
Proof.
  unfold Responder.poll_thread_replies.
  generalize (get_leads_by_status db "contacted"). intros ls. revert db.
  induction ls as [|lead ls IH]; intros db; simpl; [done|].
  by rewrite IH, poll_lead_ids.
Qed.

(** *** The forwarding pass, whether or not a notification fails *)

(** No reply of the lead decides: none is positive, none negative. *)
Lemma undecided_write (db : t) (lead : Lead.t) (now : instant) :
  (∀ r, In r (get_replies_for_lead db (Lead.id lead)) →
        Orchestrator.has_sentiment "positive" r = false ∧
        Orchestrator.has_sentiment "negative" r = false) →
  Orchestrator.forward_write db lead now = None.
Proof.
  intros Hu. unfold Orchestrator.forward_write.
  destruct (Orchestrator.first_positive _) as [reply|] eqn:Hf.
  - assert (Hs : is_Some (Orchestrator.first_positive
                            (get_replies_for_lead db (Lead.id lead))))
      by (rewrite Hf; by eexists).
    apply ForwardingFacts.first_positive_some in Hs as (r & Hin & Hp).
    destruct (Hu r Hin) as [Hp' _]. congruence.
  - destruct (existsb _ _) eqn:He; [|done].
    apply existsb_exists in He as (r & Hin & Hn).
    destruct (Hu r Hin) as [_ Hn']. congruence.
Qed.

Lemma forward_leads_other (clock : option Z → instant)
    (raises : option Z → bool) (i : Z) (ls : list Lead.t) :
  ∀ o,
    (∀ lead, In lead ls → Lead.id lead = Some i →
       ∀ r, In r (get_replies_for_lead (Orchestrator._repo o) (Some i)) →
            Orchestrator.has_sentiment "positive" r = false ∧
            Orchestrator.has_sentiment "negative" r = false) →
    let o' := Orchestrator.forward_leads o ls clock raises in
    List.map Lead.id (leads (Orchestrator._repo o'))
    = List.map Lead.id (leads (Orchestrator._repo o)) ∧
    get_lead (Orchestrator._repo o') i = get_lead (Orchestrator._repo o) i ∧
    replies (Orchestrator._repo o') = replies (Orchestrator._repo o).
Proof.
  induction ls as [|lead ls IH]; intros o Hu; simpl; [done|].
  destruct (_ && _); [done|].
  set (o1 := Orchestrator.forward_lead o lead (clock (Lead.id lead))).
  assert (H1 : List.map Lead.id (leads (Orchestrator._repo o1))
               = List.map Lead.id (leads (Orchestrator._repo o)) ∧
               get_lead (Orchestrator._repo o1) i
               = get_lead (Orchestrator._repo o) i ∧
               replies (Orchestrator._repo o1)
               = replies (Orchestrator._repo o)).
  { unfold o1. rewrite WriteBackFacts.forward_lead_repo.
    destruct (Orchestrator.forward_write _ _ _) as [lead'|] eqn:Hw; [|done].
    split; [apply SendingFacts.update_lead_ids|]. split; [|done].
    apply ForwardingFacts.get_lead_update_other.
    rewrite (ForwardingFacts.forward_write_id _ _ _ _ Hw). intros Hid.
    rewrite undecided_write in Hw; [done|].
    rewrite Hid. apply (Hu lead); [by left|done]. }
  destruct H1 as (Hids & Hget & Hrep).
  destruct (IH o1) as (H2 & H3 & H4).
  { intros lead2 Hin Hid r Hr. apply (Hu lead2); [by right|done|].
    unfold get_replies_for_lead in *. by rewrite <- Hrep. }
  cbv zeta in H2, H3, H4. by rewrite H2, H3, H4.
Qed.

Lemma reply_poller_turn_leaves (o : Orchestrator.t) (our_user_id : option Z)
    (e : Orchestrator.poll_env) (i : Z) (l : Lead.t) :
  keyed Lead.id (leads (Orchestrator._repo o)) →
  get_lead (Orchestrator._repo o) i = Some l →
  Lead.status l ≠ "contacted" →
  (Lead.status l = "replied" →
   ∀ r, In r (get_replies_for_lead (Orchestrator._repo o) (Some i)) →
        Orchestrator.has_sentiment "positive" r = false ∧
        Orchestrator.has_sentiment "negative" r = false) →
  let o' :=
    Orchestrator.reply_poller_turn o our_user_id (Orchestrator.pl_threads e)
      (Orchestrator.pl_clock e) (Orchestrator.pl_raises e) in
  keyed Lead.id (leads (Orchestrator._repo o')) ∧
  get_lead (Orchestrator._repo o') i = Some l ∧
  get_replies_for_lead (Orchestrator._repo o') (Some i)
  = get_replies_for_lead (Orchestrator._repo o) (Some i).
Proof.
  intros Hk Hl Hst Hu o'.
  set (db1 := Responder.poll_thread_replies our_user_id
                (Orchestrator._repo o) (Orchestrator.pl_threads e)).
  destruct (ResponderFacts.poll_fold_other our_user_id i
              (Orchestrator.pl_threads e)
              (get_leads_by_status (Orchestrator._repo o) "contacted")
              (Orchestrator._repo o)) as [Hl1 Hr1].
  { intros lead Hin.
    by apply (ResponderFacts.snapshot_other (Orchestrator._repo o)
                "contacted" i l). }
  cbv zeta in Hl1, Hr1. fold (Responder.poll_thread_replies our_user_id
    (Orchestrator._repo o) (Orchestrator.pl_threads e)) in Hl1, Hr1.
  fold db1 in Hl1, Hr1. rewrite Hl in Hl1.
  assert (Hk1 : keyed Lead.id (leads db1)).
  { apply (SendingFacts.keyed_same_ids Lead.id (leads (Orchestrator._repo o)));
      [apply poll_thread_replies_ids|done]. }
  destruct (forward_leads_other (Orchestrator.pl_clock e)
              (Orchestrator.pl_raises e) i
              (get_leads_by_status db1 "replied")
              (Orchestrator.set_repo db1 o)) as (H2 & H3 & H4).
  { intros lead Hin Hid r Hr. apply filter_In in Hin as [Hin Hs].
    apply String.eqb_eq in Hs.
    destruct (SendingFacts.get_lead_in _ _ _ Hl1) as [Hlin Hlid].
    assert (lead = l)
      by (apply (JanitorFacts.keyed_inj Lead.id _ _ _ Hk1 Hin Hlin);
          congruence).
    subst lead. apply (Hu Hs). destruct o. simpl in Hr.
    by rewrite <- Hr1. }
  cbv zeta in H2, H3, H4.
  assert (Ho' : o' = Orchestrator.forward_leads (Orchestrator.set_repo db1 o)
                       (get_leads_by_status db1 "replied")
                       (Orchestrator.pl_clock e) (Orchestrator.pl_raises e)).
  { unfold o', Orchestrator.reply_poller_turn,
      Orchestrator._forward_positive_replies. by destruct o. }
  rewrite Ho'. split; [|split].
  - apply (SendingFacts.keyed_same_ids Lead.id (leads db1)); [|done].
    rewrite H2. by destruct o.
  - rewrite H3. by destruct o.
  - unfold get_replies_for_lead in *. rewrite H4. destruct o. simpl. done.
Qed.

(** X29. Leads the reply poller has done with. With unique lead ids, a
    lead that is not [contacted], and that, if it is [replied], has no
    positive and no negative reply, is left as it is by any number of
    turns of [_reply_poller], whatever the threads hold and whether or not
    notifications fail: no reply is added to it, it is not forwarded and
    not marked negative. In particular a lead whose first reply was
    analysed as [unclear] stays [replied]: a later positive message in its
    thread is not recorded, since only [contacted] leads are polled. *)
Theorem _reply_poller_leaves_settled (o : Orchestrator.t)
    (our_user_id : option Z) (turns : list Orchestrator.poll_env) (i : Z)
    (l : Lead.t) :
  keyed Lead.id (leads (Orchestrator._repo o)) →
  get_lead (Orchestrator._repo o) i = Some l →
  Lead.status l ≠ "contacted" →
  (Lead.status l = "replied" →
   ∀ r, In r (get_replies_for_lead (Orchestrator._repo o) (Some i)) →
        Orchestrator.has_sentiment "positive" r = false ∧
        Orchestrator.has_sentiment "negative" r = false) →
  let o' := Orchestrator._reply_poller o our_user_id turns in
  get_lead (Orchestrator._repo o') i = Some l ∧
  get_replies_for_lead (Orchestrator._repo o') (Some i)
  = get_replies_for_lead (Orchestrator._repo o) (Some i).
Proof.
  revert o. unfold Orchestrator._reply_poller.
  induction turns as [|e turns IH]; intros o Hk Hl Hst Hu; simpl; [done|].
  destruct (reply_poller_turn_leaves o our_user_id e i l Hk Hl Hst Hu)
    as (Hk1 & Hl1 & Hr1).
  destruct (IH _ Hk1 Hl1 Hst) as [H1 H2].
  { intros Hs r Hr. apply (Hu Hs). by rewrite <- Hr1. }
  cbv zeta in H1, H2. by rewrite H1, H2, Hr1.
Qed.

Lemma _reply_poller_leaves_settled_witness :
  let turn (msg_id : Z) (sentiment : string) :=
    {| Orchestrator.pl_threads :=
         fun _ => [Scenario.thread_reply msg_id sentiment];
       Orchestrator.pl_clock := fun _ => Scenario.t0 + 180000000;
       Orchestrator.pl_raises := fun _ => false |} in
  let o1 :=
    Orchestrator._reply_poller
      (Scenario.orchestrator_on Scenario.db_contacted) (Some 99)
      [turn 601 "unclear"] in
  let o2 :=
    Orchestrator._reply_poller o1 (Some 99)
      [turn 602 "positive"; turn 603 "positive"] in
  List.map Lead.status (leads (Orchestrator._repo o1)) = ["replied"] ∧
  get_lead (Orchestrator._repo o2) 1 = get_lead (Orchestrator._repo o1) 1 ∧
  List.map Reply.telegram_msg_id
    (get_replies_for_lead (Orchestrator._repo o2) (Some 1)) = [Some 601].
Proof.
  intros turn o1 o2. split; [vm_compute; reflexivity|].
  edestruct (_reply_poller_leaves_settled o1 (Some 99)
               [turn 602 "positive"; turn 603 "positive"] 1) as [H1 H2].
  - split.
    + apply (bool_decide_unpack _). vm_compute. exact I.
    + apply (proj1 (List.Forall_forall _ _)).
      apply (bool_decide_unpack _). vm_compute. exact I.
  - vm_compute. reflexivity.
  - vm_compute. discriminate.
  - intros _. apply (proj1 (List.Forall_forall _ _)).
    apply (bool_decide_unpack _). vm_compute. exact I.
  - split.
    + unfold o2. rewrite H1. vm_compute. reflexivity.
    + unfold o2. rewrite H2. vm_compute. reflexivity.
Defined.

End PollerFacts.

(** ** The reply poller: a turn from poll to decision *)

Module TurnFacts.
Import Repository.

#[local] Set Warnings "-clear-no-such-hyp".

(** *** What a poll leaves of the other tables *)





(** *** One thread, message by message *)



(** *** The forwarding pass on what the poll recorded *)








End TurnFacts.
